(** * uap: the step and run model of [include/abstract_step.py],
      the path cache of [include/fscache.py] and the URL source of
      [include/sources/raw_url_sources.py]

    The development follows the Python sources.  A Python [str] is the list
    of its code points, a [dict] whose iteration order is observable is an
    insertion-ordered association list, a [set] is a [gset], exceptions are
    values of [exn] and a method that mutates [self] is a function in the
    state-and-exception monad [M]. *)

From Stdlib Require Import ZArith NArith List String Ascii Bool Lia.
From stdpp Require Import base option list gmap.

Set Default Proof Using "Type".
Local Open Scope Z_scope.

(** ** Python strings *)

Abbreviation pystr := (list N).

(** A string literal of the source, as code points. *)
Definition lit (s : string) : pystr := N_of_ascii <$> list_ascii_of_string s.

Definition ch_slash : N := 47%N.
Definition ch_underscore : N := 95%N.
Definition ch_space : N := 32%N.
Definition ch_dot : N := 46%N.

(** [str.isspace] on one code point, which is what [\s] matches in a [str]
    pattern: U+0009..000D, U+001C..001F, U+0020, U+0085, U+00A0, U+1680,
    U+2000..200A, U+2028, U+2029, U+202F, U+205F, U+3000. *)
Definition is_space (c : N) : bool :=
  ((9 <=? c) && (c <=? 13) || (28 <=? c) && (c <=? 31) || (c =? 32)
   || (c =? 133) || (c =? 160) || (c =? 5760)
   || (8192 <=? c) && (c <=? 8202) || (c =? 8232) || (c =? 8233)
   || (c =? 8239) || (c =? 8287) || (c =? 12288))%N.

(** [re.sub(r'\s', repl, s)]: the scanner walks the string from the left and
    replaces every match, here every single white-space code point. *)
Fixpoint re_sub_space (repl : pystr) (s : pystr) : pystr :=
  match s with
  | [] => []
  | c :: s' => if is_space c then repl ++ re_sub_space repl s'
               else c :: re_sub_space repl s'
  end.

(** [re.sub(r'\s+', repl, s)]: a maximal run of white space is one match.
    [in_run] tells that the previous code point was white space too. *)
Fixpoint re_sub_spaces_from (in_run : bool) (repl : pystr) (s : pystr) : pystr :=
  match s with
  | [] => []
  | c :: s' =>
      if is_space c
      then (if in_run then [] else repl) ++ re_sub_spaces_from true repl s'
      else c :: re_sub_spaces_from false repl s'
  end.

Definition re_sub_spaces : pystr → pystr → pystr := re_sub_spaces_from false.

(** [s.split(sep)[0]] for a one-character separator: what precedes the first
    separator, the whole string when there is none. *)
Fixpoint split_head (sep : N) (s : pystr) : pystr :=
  match s with
  | [] => []
  | c :: s' => if (c =? sep)%N then [] else c :: split_head sep s'
  end.

(** ** Python values, as a YAML configuration produces them *)

#[warnings="-register-all"]
Inductive pyval :=
| VNone
| VBool (b : bool)
| VInt (n : Z)
| VFloat (num : Z) (den : positive)
| VStr (s : pystr)
| VList (l : list pyval)
| VDict (d : list (pystr * pyval)).

Inductive pytype := TNoneType | TBool | TInt | TFloat | TStr | TList | TDict.

Global Instance pytype_eq_dec : EqDecision pytype.
Proof. solve_decision. Defined.

(** [type(v)] *)
Definition py_type (v : pyval) : pytype :=
  match v with
  | VNone => TNoneType | VBool _ => TBool | VInt _ => TInt
  | VFloat _ _ => TFloat | VStr _ => TStr | VList _ => TList | VDict _ => TDict
  end.

(** [isinstance(v, int)]: [bool] is a subclass of [int]. *)
Definition isinstance_int (v : pyval) : bool :=
  match v with VInt _ | VBool _ => true | _ => false end.

Definition isinstance_list (v : pyval) : bool :=
  match v with VList _ => true | _ => false end.

Definition isinstance_str (v : pyval) : bool :=
  match v with VStr _ => true | _ => false end.

(** The integer an [int] instance stands for ([True] is 1, [False] is 0). *)
Definition int_value (v : pyval) : option Z :=
  match v with
  | VInt n => Some n
  | VBool b => Some (if b then 1 else 0)
  | _ => None
  end.

(** Truth value of a Python object. *)
Definition truthy (v : pyval) : bool :=
  match v with
  | VNone => false
  | VBool b => b
  | VInt n => negb (n =? 0)
  | VFloat n _ => negb (n =? 0)
  | VStr s => negb (bool_decide (s = []))
  | VList l => match l with [] => false | _ => true end
  | VDict d => match d with [] => false | _ => true end
  end.

(** A number as a fraction, for [==] across [bool], [int] and [float]. *)
Definition as_fraction (v : pyval) : option (Z * positive) :=
  match v with
  | VBool b => Some (if b then 1 else 0, 1%positive)
  | VInt n => Some (n, 1%positive)
  | VFloat n d => Some (n, d)
  | _ => None
  end.

Fixpoint alist_find {V} (k : pystr) (d : list (pystr * V)) : option V :=
  match d with
  | [] => None
  | (k', v) :: d' => if bool_decide (k' = k) then Some v else alist_find k d'
  end.

(** Python's [==] on configuration values. *)
Fixpoint py_eq (a b : pyval) {struct a} : bool :=
  match a, b with
  | VNone, VNone => true
  | VStr s, VStr t => bool_decide (s = t)
  | VList l, VList m =>
      (fix go (l : list pyval) (m : list pyval) : bool :=
         match l, m with
         | [], [] => true
         | x :: l', y :: m' => py_eq x y && go l' m'
         | _, _ => false
         end) l m
  | VDict d, VDict e =>
      bool_decide (length d = length e) &&
      (fix go (d : list (pystr * pyval)) : bool :=
         match d with
         | [] => true
         | (k, v) :: d' =>
             match alist_find k e with
             | Some w => py_eq v w && go d'
             | None => false
             end
         end) d
  | _, _ =>
      match as_fraction a, as_fraction b with
      | Some (n, d), Some (n', d') => (n * Z.pos d' =? n' * Z.pos d)
      | _, _ => false
      end
  end.

(** [v if isinstance(v, list) else [v]] *)
Definition as_list (v : pyval) : list pyval :=
  match v with VList l => l | _ => [v] end.

(** [x in l] for a list [l]. *)
Definition py_in (x : pyval) (l : list pyval) : bool := existsb (py_eq x) l.

(** ** Dictionaries whose order is observable *)

Section Dict.
Context {K V : Type} `{EqDecision K}.

Abbreviation dict := (list (K * V)).

Fixpoint dict_get (k : K) (d : dict) : option V :=
  match d with
  | [] => None
  | (k', v) :: d' => if decide (k' = k) then Some v else dict_get k d'
  end.

Definition dict_has (k : K) (d : dict) : bool :=
  match dict_get k d with Some _ => true | None => false end.

(** [d[k] = v]: an existing key keeps its position. *)
Fixpoint dict_set (k : K) (v : V) (d : dict) : dict :=
  match d with
  | [] => [(k, v)]
  | (k', v') :: d' =>
      if decide (k' = k) then (k', v) :: d' else (k', v') :: dict_set k v d'
  end.

Definition dict_setdefault (k : K) (v : V) (d : dict) : dict :=
  if dict_has k d then d else d ++ [(k, v)].

(** [d.pop(k, None)] *)
Fixpoint dict_pop (k : K) (d : dict) : dict :=
  match d with
  | [] => []
  | (k', v') :: d' =>
      if decide (k' = k) then d' else (k', v') :: dict_pop k d'
  end.

Definition dict_keys (d : dict) : list K := fst <$> d.
Definition dict_values (d : dict) : list V := snd <$> d.
End Dict.

(** ** Exceptions *)

(** One constructor for each [raise UAPError(...)] of [abstract_step.py],
    with the values the message is formatted from. *)
Inductive uap_msg :=
| DuplicateRunId (run_id : pystr)
| InvalidOption (key : pystr)
| UnknownOption (step_name step_type key : pystr)
| InvalidOptionType (key : pystr) (t : pytype)
| InvalidOptionValue (key : pystr) (value : pyval)
| RequiredOptionNotSet (key : pystr)
| UndefinedOptionQuery (key : pystr)
| AlreadyRunning (step_name run_id : pystr)
| AnnouncedOutputMissing (out_file source_path : pystr)
| ReceivedTERM
| ReceivedINT
| CoresNotPositive (step_name : pystr) (cores : pyval)
| ConnectionPrefix
| OptionKeyUnderscore (key : pystr)
| OptionAlreadyDefined (key : pystr)
| NoOptionType (key : pystr)
| ChoicesWithSeveralTypes (key : pystr)
| InvalidDeclaredType (key : pystr)
| DefaultTypeMismatch (key : pystr)
| DescriptionNotString (key : pystr)
| UnknownInputConnection (in_conn : pystr)
| ParentWithoutOutput (parent_name : pystr)
| NoConnectionsMade (step_name parent_name : pystr)
| UnrecognizedConnections (step_name : pystr) (conns : list pystr).

(** One constructor for each [raise StepError(...)] of
    [raw_url_sources.py]. *)
Inductive step_msg :=
| UnknownDownloadOptions (run_name : pystr)
| MissingMandatoryOptions (run_name : pystr)
| InvalidHashingAlgorithm (run_name : pystr)
| SecureHashWithoutAlgorithm (run_name : pystr)
| UncompressNonGzipped (url_filename : pystr)
| FilenameEndsOnGz (filename : pyval).

Inductive os_error :=
| FileNotFound | FileExists | IsADirectory | NotADirectory | NotEmpty.

Inductive exn :=
| UAPError (m : uap_msg)
| StepError (m : step_msg)
| KeyError (k : pystr)
| IndexError
| TypeError
| AttributeError
| ValueError
| NotImplementedError
| OSError (e : os_error)
| SignalError (signum : Z).

Abbreviation result A := (exn + A)%type.

(** ** The state-and-exception monad of a method *)

Definition M (S A : Type) : Type := S → result A * S.

Definition ret {S A} (a : A) : M S A := λ s, (inr a, s).
Definition raise {S A} (e : exn) : M S A := λ s, (inl e, s).
Definition bind {S A B} (c : M S A) (k : A → M S B) : M S B :=
  λ s, match c s with
       | (inr a, s') => k a s'
       | (inl e, s') => (inl e, s')
       end.
Definition get {S} : M S S := λ s, (inr s, s).
Definition modify {S} (f : S → S) : M S unit := λ s, (inr tt, f s).

Declare Scope py_scope.
Delimit Scope py_scope with py.
Notation "'do' x <- c ; k" := (bind c (λ x, k))
  (at level 10, x name, c at level 100, k at level 200) : py_scope.
Notation "c ;; k" := (bind c (λ _, k))
  (at level 100, k at level 200, right associativity) : py_scope.
Local Open Scope py_scope.

(** [for x in l: body(x)]; an exception ends the loop. *)
Fixpoint for_each {S A} (l : list A) (body : A → M S unit) : M S unit :=
  match l with
  | [] => ret tt
  | x :: l' => body x ;; for_each l' body
  end.

(** ** [posixpath] *)

Definition starts_with_slash (p : pystr) : bool :=
  match p with c :: _ => (c =? ch_slash)%N | [] => false end.

Definition ends_with_slash (p : pystr) : bool :=
  match last p with Some c => (c =? ch_slash)%N | None => false end.

(** [os.path.join(a, b)] *)
Definition path_join (a b : pystr) : pystr :=
  if starts_with_slash b then b
  else if bool_decide (a = []) || ends_with_slash a then a ++ b
  else a ++ [ch_slash] ++ b.

(** [s.rfind(c)], [-1] when [c] does not occur. *)
Fixpoint rfind_from (c : N) (s : pystr) (i : Z) (found : Z) : Z :=
  match s with
  | [] => found
  | x :: s' => rfind_from c s' (i + 1) (if (x =? c)%N then i else found)
  end.

Definition rfind (c : N) (s : pystr) : Z := rfind_from c s 0 (-1).

(** [os.path.basename(p)]: [p[p.rfind('/') + 1:]] *)
Definition basename (p : pystr) : pystr :=
  drop (Z.to_nat (rfind ch_slash p + 1)) p.

(** [s.lstrip('/')], [s.rstrip('/')] *)
Fixpoint lstrip_slash (s : pystr) : pystr :=
  match s with
  | c :: s' => if (c =? ch_slash)%N then lstrip_slash s' else s
  | [] => []
  end.

Definition rstrip_slash (s : pystr) : pystr :=
  reverse (lstrip_slash (reverse s)).

(** [os.path.dirname(p)] *)
Definition dirname (p : pystr) : pystr :=
  let head := take (Z.to_nat (rfind ch_slash p + 1)) p in
  if forallb (λ c, (c =? ch_slash)%N) head then head else rstrip_slash head.

(** [os.path.splitext(p)]: the extension starts at the last dot, when that
    dot comes after the last slash and some character other than a dot
    stands between the two. *)
Definition splitext (p : pystr) : pystr * pystr :=
  let sepIndex := rfind ch_slash p in
  let dotIndex := rfind ch_dot p in
  if (sepIndex <? dotIndex) &&
     existsb (λ c, negb (c =? ch_dot)%N)
       (take (Z.to_nat (dotIndex - (sepIndex + 1)))
             (drop (Z.to_nat (sepIndex + 1)) p))
  then (take (Z.to_nat dotIndex) p, drop (Z.to_nat dotIndex) p)
  else (p, []).

(** ** The file system

    A path names at most one node; paths are compared as the strings the
    program builds them as. *)

Record node := Node {
  is_dir : bool;
  doc : pyval;        (* what [yaml.load] reads from the file *)
  size : Z;
  mtime : Z
}.

Abbreviation fs := (gmap pystr node).

Definition new_dir (now : Z) : node := Node true VNone 0 now.
Definition new_file (d : pyval) (now : Z) : node := Node false d 0 now.

(** [os.path.exists], [os.path.isdir] *)
Definition path_exists (f : fs) (p : pystr) : bool :=
  match f !! p with Some _ => true | None => false end.

Definition path_isdir (f : fs) (p : pystr) : bool :=
  match f !! p with Some n => is_dir n | None => false end.

(** The directory a new entry [p] is created in must exist; the working
    directory (empty [dirname]) and the root always do. *)
Definition parent_check (f : fs) (p : pystr) : option os_error :=
  let d := dirname p in
  if forallb (λ c, (c =? ch_slash)%N) d then None
  else match f !! d with
       | Some n => if is_dir n then None else Some NotADirectory
       | None => Some FileNotFound
       end.

(** [os.mkdir(p)] *)
Definition os_mkdir (now : Z) (p : pystr) (f : fs) : result fs :=
  if path_exists f p then inl (OSError FileExists)
  else match parent_check f p with
       | Some e => inl (OSError e)
       | None => inr (<[p := new_dir now]> f)
       end.

(** [os.makedirs(p, exist_ok)]: the missing ancestors first, then [p].
    Every recursive call is on a proper prefix, so the length of [p] is
    fuel enough. *)
Fixpoint makedirs_fuel (fuel : nat) (now : Z) (exist_ok : bool)
    (p : pystr) (f : fs) : result fs :=
  let head := dirname p in
  let tail := basename p in
  let head := if bool_decide (tail = []) then dirname head else head in
  let tail := if bool_decide (tail = []) then basename (dirname p) else tail in
  let made :=
    match fuel with
    | O => inr f
    | S fuel' =>
        if negb (bool_decide (head = [])) && negb (bool_decide (tail = []))
           && negb (path_exists f head)
        then match makedirs_fuel fuel' now true head f with
             | inl (OSError FileExists) => inr f
             | r => r
             end
        else inr f
    end in
  match made with
  | inl e => inl e
  | inr f' =>
      match os_mkdir now p f' with
      | inl e => if exist_ok && path_isdir f' p then inr f' else inl e
      | inr f'' => inr f''
      end
  end.

Definition os_makedirs (now : Z) (p : pystr) (f : fs) : result fs :=
  makedirs_fuel (length p) now false p f.

(** [os.unlink(p)] *)
Definition os_unlink (p : pystr) (f : fs) : result fs :=
  match f !! p with
  | None => inl (OSError FileNotFound)
  | Some n => if is_dir n then inl (OSError IsADirectory)
              else inr (delete p f)
  end.

(** The paths strictly below directory [p]. *)
Definition is_below (p q : pystr) : bool :=
  bool_decide (take (length p + 1) q = p ++ [ch_slash]).

Definition has_children (f : fs) (p : pystr) : bool :=
  existsb (is_below p) (fst <$> map_to_list f).

(** [os.rmdir(p)] *)
Definition os_rmdir (p : pystr) (f : fs) : result fs :=
  match f !! p with
  | None => inl (OSError FileNotFound)
  | Some n =>
      if negb (is_dir n) then inl (OSError NotADirectory)
      else if has_children f p then inl (OSError NotEmpty)
      else inr (delete p f)
  end.

(** Moving a node and, for a directory, all that is below it. *)
Definition move_key (src dst : pystr) (k : pystr) : pystr :=
  if bool_decide (k = src) then dst
  else if is_below src k then dst ++ drop (length src) k
  else k.

Definition move_tree (src dst : pystr) (f : fs) : fs :=
  list_to_map ((λ kv, (move_key src dst kv.1, kv.2)) <$> map_to_list f).

(** [os.rename(src, dst)]; an existing file at [dst] is replaced. *)
Definition os_rename (src dst : pystr) (f : fs) : result fs :=
  match f !! src with
  | None => inl (OSError FileNotFound)
  | Some n =>
      if bool_decide (src = dst) then inr f
      else match parent_check f dst with
      | Some e => inl (OSError e)
      | None =>
          match f !! dst with
          | Some m =>
              if is_dir m && negb (is_dir n) then inl (OSError IsADirectory)
              else if negb (is_dir m) && is_dir n then inl (OSError NotADirectory)
              else if is_dir m && has_children f dst then inl (OSError NotEmpty)
              else inr (move_tree src dst (delete dst f))
          | None => inr (move_tree src dst f)
          end
      end
  end.

(** [shutil.copyfile(src, dst)] *)
Definition copyfile (src dst : pystr) (f : fs) : result fs :=
  match f !! src with
  | None => inl (OSError FileNotFound)
  | Some n =>
      if bool_decide (src = dst) then inl (OSError FileExists)
      else if is_dir n || path_isdir f dst then inl (OSError IsADirectory)
      else match parent_check f dst with
           | Some e => inl (OSError e)
           | None => inr (<[dst := n]> f)
           end
  end.

(** [open(p, 'w')] followed by one [write] of a YAML document. *)
Definition write_yaml (now : Z) (p : pystr) (d : pyval) (f : fs) : result fs :=
  if path_isdir f p then inl (OSError IsADirectory)
  else match parent_check f p with
       | Some e => inl (OSError e)
       | None => inr (<[p := new_file d now]> f)
       end.

(** [open(p, 'r')] followed by [yaml.load]. *)
Definition read_yaml (p : pystr) (f : fs) : result pyval :=
  match f !! p with
  | None => inl (OSError FileNotFound)
  | Some n => if is_dir n then inl (OSError IsADirectory) else inr (doc n)
  end.

(** ** [fscache.py]: class [FSCache] *)

Module FSCache.

(** The inner dictionaries are keyed by the argument tuple of a call
    ([__getattr__]) or by a path ([sha256sum_of], [load_yaml_from_file]). *)
Inductive ckey := KArgs (args : list pystr) | KPath (p : pystr).

Global Instance ckey_eq_dec : EqDecision ckey.
Proof. solve_decision. Defined.

Global Instance ckey_countable : Countable ckey.
Proof.
  refine (inj_countable'
            (λ k, match k with KArgs a => inl a | KPath p => inr p end)
            (λ s, match s with inl a => KArgs a | inr p => KPath p end) _).
  by intros [].
Defined.

(** [self.cache] *)
Abbreviation cache := (gmap pystr (gmap ckey pyval)).

Definition name_sha256sums : pystr := lit "sha256sums".
Definition name_load_yaml : pystr := lit "load_yaml_from_file".

Definition cached (c : cache) (name : pystr) (k : ckey) : option pyval :=
  c !! name ≫= (λ d, d !! k).

(** [if name not in self.cache: self.cache[name] = dict()] *)
Definition ensure (name : pystr) (c : cache) : cache :=
  match c !! name with Some _ => c | None => <[name := ∅]> c end.

(** [self.cache[name][k] = v] *)
Definition store (name : pystr) (k : ckey) (v : pyval) (c : cache) : cache :=
  <[name := <[k := v]> (default ∅ (c !! name))]> c.

(** [FSCache()] and [clear] *)
Definition init : cache := ∅.
Definition clear : M cache unit := λ _, (inr tt, ∅).

Section Methods.
(** [os.path]: the function an attribute name denotes, if there is one,
    applied to the argument tuple in the file system of the moment. *)
Variable ospath : pystr → option (list pystr → fs → result pyval).
(** [misc.sha256sum_of] *)
Variable sha256sum : pystr → fs → result pyval.

(** [fsc.name(args...)], for a name [__getattr__] is asked for: the
    inner function [method]. *)
Definition method (name : pystr) (args : list pystr) (f : fs)
  : M cache pyval :=
  λ c,
    match cached c name (KArgs args) with
    | Some v => (inr v, c)
    | None =>
        match ospath name with
        | None => (inl AttributeError, c)
        | Some fn =>
            match fn args f with
            | inl e => (inl e, c)
            | inr v => (inr v, store name (KArgs args) v (ensure name c))
            end
        end
    end.

Definition sha256sum_of (path : pystr) (value : pyval) (f : fs)
  : M cache pyval :=
  λ c,
    let c := ensure name_sha256sums c in
    match value with
    | VNone =>
        match cached c name_sha256sums (KPath path) with
        | Some v => (inr v, c)
        | None =>
            match sha256sum path f with
            | inl e => (inl e, c)
            | inr sha => (inr sha, store name_sha256sums (KPath path) sha c)
            end
        end
    | _ => (inr value, store name_sha256sums (KPath path) value c)
    end.

Definition load_yaml_from_file (path : pystr) (f : fs) : M cache pyval :=
  λ c,
    let c := ensure name_load_yaml c in
    match cached c name_load_yaml (KPath path) with
    | Some v => (inr v, c)
    | None =>
        match read_yaml path f with
        | inl e => (inl e, c)
        | inr data => (inr data, store name_load_yaml (KPath path) data c)
        end
    end.

(** The calls a client can make, each in the file system of its moment. *)
Inductive op :=
| Method (name : pystr) (args : list pystr) (f : fs)
| Sha256sumOf (path : pystr) (value : pyval) (f : fs)
| LoadYaml (path : pystr) (f : fs)
| Clear.

Definition is_clear (o : op) : bool :=
  match o with Clear => true | _ => false end.

Definition step_op (o : op) (c : cache) : cache :=
  match o with
  | Method name args f => (method name args f c).2
  | Sha256sumOf path value f => (sha256sum_of path value f c).2
  | LoadYaml path f => (load_yaml_from_file path f c).2
  | Clear => (clear c).2
  end.

Definition run_ops (ops : list op) (c : cache) : cache :=
  foldl (λ c o, step_op o c) c ops.
End Methods.

(** The part of [os.path] that the run executor uses, over [fs]. *)
Definition posix_ospath (name : pystr)
  : option (list pystr → fs → result pyval) :=
  let on_path (k : fs → pystr → result pyval) :=
    Some (λ args f, match args with [p] => k f p | _ => inl TypeError end) in
  let stat (get : node → Z) :=
    on_path (λ f p, match f !! p with
                    | Some n => inr (VInt (get n))
                    | None => inl (OSError FileNotFound)
                    end) in
  if bool_decide (name = lit "exists")
  then on_path (λ f p, inr (VBool (path_exists f p)))
  else if bool_decide (name = lit "isdir")
  then on_path (λ f p, inr (VBool (path_isdir f p)))
  else if bool_decide (name = lit "getsize") then stat size
  else if bool_decide (name = lit "getmtime") then stat mtime
  else None.
End FSCache.

(** ** class [Run] *)

Module Run.

(** Modelled from the spec: class [Run] of [run.py], which is not among
    the sources.  A run is identified by its [run_id] within its step, its
    output directory is [<destination>/<step_name>], and
    [output_files[connection][basename]] lists the input paths a declared
    output depends on; an empty connection holds the entry [None: None]. *)
Record t := Run {
  step_name : pystr;
  run_id : pystr;
  output_directory : pystr;
  _output_files : list (pystr * list (option pystr * option (list pystr)))
}.

(** [Run(step, run_id)] *)
Definition init (step_name output_directory run_id : pystr) : t :=
  Run step_name run_id output_directory [].

Definition get_run_id (r : t) : pystr := run_id r.
Definition get_output_directory (r : t) : pystr := output_directory r.
Definition get_output_files (r : t) := _output_files r.

(** Modelled from the spec: the two ping files and the annotation of a
    run lie in its output directory, as [.<run_id>.executing.yaml],
    [.<run_id>.queued.yaml] and [.<run_id>.annotation.yaml]. *)
Definition dot_file (r : t) (suffix : string) : pystr :=
  path_join (output_directory r) (lit "." ++ run_id r ++ lit suffix).

Definition get_executing_ping_file (r : t) : pystr :=
  dot_file r ".executing.yaml".
Definition get_queued_ping_file (r : t) : pystr :=
  dot_file r ".queued.yaml".
Definition get_annotation_file (r : t) : pystr :=
  dot_file r ".annotation.yaml".

(** Modelled from the spec: [temp_dir] is
    [<output_dir>/temp-<run_id>-<timestamp>]. *)
Definition get_temp_output_directory (stamp : pystr) (r : t) : pystr :=
  path_join (output_directory r)
    (lit "temp-" ++ run_id r ++ lit "-" ++ stamp).

(** Modelled from the spec: a declared output lives under the output
    directory of its run; [os.path.join] leaves the absolute path of a
    source file as it is. *)
Definition get_output_files_abspath (r : t)
  : list (pystr * list (option pystr * option (list pystr))) :=
  (λ tf : pystr * list (option pystr * option (list pystr)),
     (tf.1, (λ e : option pystr * option (list pystr),
               (path_join (output_directory r) <$> e.1, e.2)) <$> tf.2))
  <$> _output_files r.

(** Modelled from the spec: [add_output_file(tag, out_path, in_paths)]
    records [output_files[tag][out_path] = in_paths], and
    [add_empty_output_connection(tag)] the entry [None: None]. *)
Definition add_output_file (tag out_path : pystr) (in_paths : list pystr)
    (r : t) : t :=
  let files := default [] (dict_get tag (_output_files r)) in
  Run (step_name r) (run_id r) (output_directory r)
      (dict_set tag (dict_set (Some out_path) (Some in_paths) files)
                (_output_files r)).

Definition add_empty_output_connection (tag : pystr) (r : t) : t :=
  let files := default [] (dict_get tag (_output_files r)) in
  Run (step_name r) (run_id r) (output_directory r)
      (dict_set tag (dict_set None None files) (_output_files r)).
End Run.

(** ** [abstract_step.py]: class [AbstractStep] *)

Module AbstractStep.

Definition PING_TIMEOUT : Z := 300.
Definition PING_RENEW : Z := 30.
Definition VOLATILE_SUFFIX : pystr := lit ".volatile.placeholder.yaml".
Definition UNDERSCORE_OPTIONS : list pystr :=
  [ lit "_depends"; lit "_volatile"; lit "_BREAK"; lit "_connect";
    lit "_cluster_submit_options"; lit "_cluster_pre_job_command";
    lit "_cluster_post_job_command"; lit "_cluster_job_quota" ].

Inductive states := DEFAULT | EXECUTING.

(** The [info] dictionary [add_option] stores for an option. *)
Record option_info := OptionInfo {
  types : list pytype;
  optional : pyval;
  default_value : pyval;
  description : pyval;
  choices : pyval
}.

(** What the methods send to the logger. *)
Inductive log_record :=
| ErrorUnknownOption (step_name step_type key : pystr)
| WarnRunMissesConnections (run_id step_name : pystr) (missings : list pystr)
| WarnOmittingConnectionTest (step_name : pystr)
| WarnDeprecationUnmetConnections
| WarnEmptyDeprecated (step_name : pystr)
| WarnRequiredConnectionUnsatisfied (missing : list pystr) (step_type : pystr)
| DebugConnecting (parent_name step_name : pystr)
| DebugNotConnected (parent_name step_name : pystr).

(** A parent step, as this step sees it: its name, what its [get_runs]
    returns and the connections it declares. *)
Record parent := Parent {
  parent_name : pystr;
  parent_get_runs : result (list (pystr * Run.t));
  parent_connections : gset pystr
}.

Record step := Step {
  _step_name : pystr;
  module_name : pystr;                       (* [self.__module__] *)
  destination_path : pystr;   (* [get_pipeline().config['destination_path']] *)
  dependencies : list parent;
  _options : list (pystr * pyval);
  _runs : option (list (pystr * Run.t));
  _cores : pyval;
  _connections : gset pystr;
  _optional_connections : gset pystr;
  _connection_formats : gmap pystr pyval;
  _connection_descriptions : gmap pystr pystr;
  _defined_options : list (pystr * option_info);
  needs_parents : bool;
  logged : list log_record
}.

(** [__init__]; the step name is the module name at first. *)
Definition init (module destination : pystr) : step :=
  Step module module destination [] [] None (VInt 1) ∅ ∅ ∅ ∅ [] false [].

Definition with_options (o : list (pystr * pyval)) (s : step) : step :=
  Step (_step_name s) (module_name s) (destination_path s) (dependencies s)
    o (_runs s) (_cores s) (_connections s) (_optional_connections s)
    (_connection_formats s) (_connection_descriptions s)
    (_defined_options s) (needs_parents s) (logged s).

Definition with_runs (r : option (list (pystr * Run.t))) (s : step) : step :=
  Step (_step_name s) (module_name s) (destination_path s) (dependencies s)
    (_options s) r (_cores s) (_connections s) (_optional_connections s)
    (_connection_formats s) (_connection_descriptions s)
    (_defined_options s) (needs_parents s) (logged s).

Definition with_cores (c : pyval) (s : step) : step :=
  Step (_step_name s) (module_name s) (destination_path s) (dependencies s)
    (_options s) (_runs s) c (_connections s) (_optional_connections s)
    (_connection_formats s) (_connection_descriptions s)
    (_defined_options s) (needs_parents s) (logged s).

Definition with_connections (c : gset pystr) (s : step) : step :=
  Step (_step_name s) (module_name s) (destination_path s) (dependencies s)
    (_options s) (_runs s) (_cores s) c (_optional_connections s)
    (_connection_formats s) (_connection_descriptions s)
    (_defined_options s) (needs_parents s) (logged s).

Definition with_optional_connections (c : gset pystr) (s : step) : step :=
  Step (_step_name s) (module_name s) (destination_path s) (dependencies s)
    (_options s) (_runs s) (_cores s) (_connections s) c
    (_connection_formats s) (_connection_descriptions s)
    (_defined_options s) (needs_parents s) (logged s).

Definition with_connection_formats (m : gmap pystr pyval) (s : step) : step :=
  Step (_step_name s) (module_name s) (destination_path s) (dependencies s)
    (_options s) (_runs s) (_cores s) (_connections s)
    (_optional_connections s) m (_connection_descriptions s)
    (_defined_options s) (needs_parents s) (logged s).

Definition with_connection_descriptions (m : gmap pystr pystr) (s : step)
  : step :=
  Step (_step_name s) (module_name s) (destination_path s) (dependencies s)
    (_options s) (_runs s) (_cores s) (_connections s)
    (_optional_connections s) (_connection_formats s) m
    (_defined_options s) (needs_parents s) (logged s).

Definition with_defined_options (d : list (pystr * option_info)) (s : step)
  : step :=
  Step (_step_name s) (module_name s) (destination_path s) (dependencies s)
    (_options s) (_runs s) (_cores s) (_connections s)
    (_optional_connections s) (_connection_formats s)
    (_connection_descriptions s) d (needs_parents s) (logged s).

Definition with_needs_parents (b : bool) (s : step) : step :=
  Step (_step_name s) (module_name s) (destination_path s) (dependencies s)
    (_options s) (_runs s) (_cores s) (_connections s)
    (_optional_connections s) (_connection_formats s)
    (_connection_descriptions s) (_defined_options s) b (logged s).

Definition with_logged (l : list log_record) (s : step) : step :=
  Step (_step_name s) (module_name s) (destination_path s) (dependencies s)
    (_options s) (_runs s) (_cores s) (_connections s)
    (_optional_connections s) (_connection_formats s)
    (_connection_descriptions s) (_defined_options s) (needs_parents s) l.

Definition log (r : log_record) : M step unit :=
  modify (λ s, with_logged (logged s ++ [r]) s).

Definition get_step_name (s : step) : pystr := _step_name s.
Definition get_step_type (s : step) : pystr := module_name s.

(** [get_output_directory] *)
Definition get_output_directory (s : step) : pystr :=
  path_join (destination_path s) (get_step_name s).

(** *** Runs *)

(** [add_run] *)
Definition add_run (run : Run.t) : M step unit :=
  do s <- get;
  match _runs s with
  | None => raise TypeError
  | Some runs =>
      modify (with_runs (Some (dict_set (Run.get_run_id run) run runs)))
  end.

(** [declare_run] *)
Definition declare_run (run_id : pystr) : M step Run.t :=
  let run_id := re_sub_space (lit "_") run_id in
  do s <- get;
  match _runs s with
  | None => raise TypeError
  | Some runs =>
      if dict_has run_id runs
      then raise (UAPError (DuplicateRunId run_id))
      else
        let run := Run.init (get_step_name s) (get_output_directory s)
                            run_id in
        add_run run ;; ret run
  end.

(** [get_run] *)
Definition get_run (run_id : pystr) (s : step) : result (option Run.t) :=
  match _runs s with
  | None => inl TypeError
  | Some runs => inr (dict_get run_id runs)
  end.

(** *** Cores *)

(** [set_cores] *)
Definition set_cores (cores : pyval) : M step unit :=
  do s <- get;
  if negb (isinstance_int cores) ||
     match int_value cores with Some n => n <? 1 | None => false end
  then raise (UAPError (CoresNotPositive (get_step_name s) cores))
  else modify (with_cores cores).

(** [get_cores] *)
Definition get_cores (s : step) : pyval := _cores s.

(** *** Connections *)

(** [add_connection] *)
Definition add_connection (connection : pystr)
    (optional format description : pyval) : M step unit :=
  if negb (bool_decide (take 3 connection = lit "in/") ||
           bool_decide (take 4 connection = lit "out/"))
  then raise (UAPError ConnectionPrefix)
  else
    (if bool_decide (take 3 connection = lit "in/")
     then modify (with_needs_parents true) else ret tt) ;;
    (match optional with
     | VBool true =>
         modify (λ s, with_optional_connections
                        ({[connection]} ∪ _optional_connections s) s)
     | _ =>
         modify (λ s, with_connections ({[connection]} ∪ _connections s) s)
     end) ;;
    (match format with
     | VNone => ret tt
     | _ => modify (λ s, with_connection_formats
                           (<[connection := format]> (_connection_formats s)) s)
     end) ;;
    match description with
    | VNone => ret tt
    | VStr d =>
        modify (λ s, with_connection_descriptions
                       (<[connection := re_sub_spaces (lit " ") d]>
                          (_connection_descriptions s)) s)
    | _ => raise TypeError
    end.

(** [add_input_connection], [add_output_connection] *)
Definition add_input_connection (connection : pystr) : M step unit :=
  add_connection (lit "in/" ++ connection) (VBool false) VNone VNone.
Definition add_output_connection (connection : pystr) : M step unit :=
  add_connection (lit "out/" ++ connection) (VBool false) VNone VNone.

(** [get_connections] *)
Definition get_connections (with_optional : bool) (s : step) : gset pystr :=
  if with_optional then _connections s ∪ _optional_connections s
  else _connections s.

(** [get_in_connections], [get_out_connections], without
    [strip_prefix]. *)
Definition get_in_connections (with_optional : bool) (s : step)
  : gset pystr :=
  filter (λ c, take 3 c = lit "in/") (get_connections with_optional s).

Definition get_out_connections (with_optional : bool) (s : step)
  : gset pystr :=
  filter (λ c, take 4 c = lit "out/") (get_connections with_optional s).

(** *** Options *)

Fixpoint is_prefix_b (t s : pystr) : bool :=
  match t, s with
  | [], _ => true
  | x :: t', y :: s' => (x =? y)%N && is_prefix_b t' s'
  | _ :: _, [] => false
  end.

Fixpoint is_infix_b (t s : pystr) : bool :=
  is_prefix_b t s || match s with [] => false | _ :: s' => is_infix_b t s' end.

(** [x in container] *)
Definition py_contains (x container : pyval) : result bool :=
  match container with
  | VList l => inr (py_in x l)
  | VDict d =>
      match x with
      | VStr k => inr (dict_has k d)
      | VList _ | VDict _ => inl TypeError
      | _ => inr false
      end
  | VStr s =>
      match x with VStr t => inr (is_infix_b t s) | _ => inl TypeError end
  | _ => inl TypeError
  end.

Definition is_none (v : pyval) : bool :=
  match v with VNone => true | _ => false end.

Definition is_true (v : pyval) : bool :=
  match v with VBool true => true | _ => false end.

(** [self._options[key] = value] *)
Definition store_option (key : pystr) (value : pyval) : M step unit :=
  modify (λ s, with_options (dict_set key value (_options s)) s).

(** [self._options.setdefault(key, value)] *)
Definition setdefault_option (key : pystr) (value : pyval) : M step unit :=
  modify (λ s, with_options (dict_setdefault key value (_options s)) s).

(** [add_option(key, *option_types, optional, default, description,
    choices)]; a keyword that is not given arrives as [False] for
    [optional] and as [None] for the other three. *)
Definition add_option (key : pystr) (option_types : list pytype)
    (optional default description choices : pyval) : M step unit :=
  match key with
  | [] => raise IndexError
  | c :: _ =>
      do s <- get;
      if (c =? ch_underscore)%N
      then raise (UAPError (OptionKeyUnderscore key))
      else if dict_has key (_defined_options s)
      then raise (UAPError (OptionAlreadyDefined key))
      else if bool_decide (option_types = [])
      then raise (UAPError (NoOptionType key))
      else if bool_decide (1 < length option_types)%nat
              && negb (is_none choices)
      then raise (UAPError (ChoicesWithSeveralTypes key))
      else if existsb (λ t, bool_decide (t = TNoneType)) option_types
      then raise (UAPError (InvalidDeclaredType key))
      else if truthy optional && negb (is_none default)
              && negb (bool_decide (py_type default ∈ option_types))
      then raise (UAPError (DefaultTypeMismatch key))
      else
        match description with
        | VNone =>
            modify (with_defined_options
                      (dict_set key
                         (OptionInfo option_types optional default VNone
                                     choices)
                         (_defined_options s)))
        | VStr d =>
            modify (with_defined_options
                      (dict_set key
                         (OptionInfo option_types optional default
                            (VStr (re_sub_spaces (lit " ") d)) choices)
                         (_defined_options s)))
        | _ => raise (UAPError (DescriptionNotString key))
        end
  end.

(** The body of the first loop of [set_options], for one item of
    [options]. *)
Definition set_option (key : pystr) (value : pyval) : M step unit :=
  match key with
  | [] => raise IndexError
  | c :: _ =>
      if (c =? ch_underscore)%N
      then
        if bool_decide (key ∈ UNDERSCORE_OPTIONS)
        then store_option key value
        else raise (UAPError (InvalidOption key))
      else
        do s <- get;
        match dict_get key (_defined_options s) with
        | None =>
            log (ErrorUnknownOption (get_step_name s) (get_step_type s) key) ;;
            raise (UAPError (UnknownOption (get_step_name s)
                                           (get_step_type s) key))
        | Some info =>
            if negb (is_none value)
               && negb (bool_decide (py_type value ∈ types info))
            then raise (UAPError (InvalidOptionType key (py_type value)))
            else
              match choices info with
              | VNone => store_option key value
              | allowed =>
                  match py_contains value allowed with
                  | inl e => raise e
                  | inr true => store_option key value
                  | inr false =>
                      raise (UAPError (InvalidOptionValue key value))
                  end
              end
        end
  end.

(** The body of the second loop: the default of an option that was not
    set, an error when it is required. *)
Definition default_option (key : pystr) (info : option_info) : M step unit :=
  do s <- get;
  if dict_has key (_options s) then ret tt
  else if negb (is_true (optional info))
  then raise (UAPError (RequiredOptionNotSet key))
  else store_option key (default_value info).

(** [if not isinstance(self._options['_depends'], list): ...] *)
Definition wrap_depends : M step unit :=
  do s <- get;
  match dict_get (lit "_depends") (_options s) with
  | None => raise (KeyError (lit "_depends"))
  | Some (VList _) => ret tt
  | Some v => store_option (lit "_depends") (VList [v])
  end.

(** The body of the inner loop that adds the implied dependencies. *)
Definition add_implied_dependency (parent_cons : pyval) : M step unit :=
  match parent_cons with
  | VStr pc =>
      let parent := split_head ch_slash pc in
      do s <- get;
      match dict_get (lit "_depends") (_options s) with
      | None => raise (KeyError (lit "_depends"))
      | Some (VList deps) =>
          if negb (py_in (VStr parent) deps)
             && negb (bool_decide (parent = lit "empty"))
          then store_option (lit "_depends") (VList (deps ++ [VStr parent]))
          else ret tt
      | Some _ => raise TypeError
      end
  | _ => raise AttributeError
  end.

Definition add_implied_dependencies : M step unit :=
  do s <- get;
  match dict_get (lit "_connect") (_options s) with
  | None => raise (KeyError (lit "_connect"))
  | Some (VDict connect) =>
      for_each (dict_values connect) (λ in_cons,
        for_each (as_list in_cons)
                 add_implied_dependency)
  | Some _ => raise AttributeError
  end.

(** [set_options] *)
Definition set_options (options : list (pystr * pyval)) : M step unit :=
  modify (with_options []) ;;
  for_each options (λ kv, set_option kv.1 kv.2) ;;
  (do s <- get;
   for_each (_defined_options s) (λ ki, default_option ki.1 ki.2)) ;;
  setdefault_option (lit "_volatile") (VBool false) ;;
  for_each [ lit "_cluster_submit_options"; lit "_cluster_pre_job_command";
             lit "_cluster_post_job_command" ]
           (λ i, setdefault_option i (VStr [])) ;;
  setdefault_option (lit "_cluster_job_quota") (VInt 0) ;;
  setdefault_option (lit "_connect") (VDict []) ;;
  setdefault_option (lit "_depends") (VList []) ;;
  wrap_depends ;;
  add_implied_dependencies.

(** [get_options], [get_option] *)
Definition get_options (s : step) : list (pystr * pyval) := _options s.

Definition get_option (key : pystr) (s : step) : result pyval :=
  if negb (dict_has key (_defined_options s))
  then inl (UAPError (UndefinedOptionQuery key))
  else match dict_get key (_options s) with
       | Some v => inr v
       | None => inl (KeyError key)
       end.

(** [is_option_set_in_config]; the message of its error is the one of
  [get_option], with the step name in the place of the module name. *)
Definition is_option_set_in_config (key : pystr) (s : step) : result bool :=
if negb (dict_has key (_defined_options s))
then inl (UAPError (UndefinedOptionQuery key))
else match dict_get key (_options s) with
     | None => inr false
     | Some (VList l) => inr (existsb (λ v, negb (is_none v)) l)
     | Some v => inr (negb (is_none v))
     end.

(** [is_volatile] *)
Definition is_volatile (s : step) : result pyval :=
match dict_get (lit "_volatile") (_options s) with
| Some v => inr v
| None => inl (KeyError (lit "_volatile"))
end.

(** *** Binding the parents *)

(** The interface of class [ConnectionsCollector], whose module
    [connections_collector.py] is not among the sources: the constructor,
    [connect(parent, child, connections)] with the names of the parent
    outputs it used, and the attribute [existing_connections]. *)
Record collector := Collector {
  cc : Type;
  cc_init : pystr → cc;
  cc_connect : parent → step → option pyval → cc → result (gset pystr) * cc;
  cc_existing_connections : cc → gset pystr
}.

Section Resolver.
Variable col : collector.

(** The first loop of [get_run_ids_in_connections_input_files]: the
    parent outputs named in [_connect].  Names that are not strings can
    match no output; they are kept apart. *)
Fixpoint collect_set_connections (s : step) (connect : list (pystr * pyval))
    (acc : gset pystr * list pyval) : result (gset pystr * list pyval) :=
  match connect with
  | [] => inr acc
  | (in_conn, out_conn) :: rest =>
      if negb (bool_decide (in_conn ∈ get_in_connections true s))
      then inl (UAPError (UnknownInputConnection in_conn))
      else
        let out_conn := as_list out_conn in
        if existsb (λ v, match v with VList _ | VDict _ => true
                                 | _ => false end) out_conn
        then inl TypeError
        else
          collect_set_connections s rest
            (acc.1 ∪ list_to_set (omap (λ v, match v with
                                             | VStr x => Some x
                                             | _ => None end) out_conn),
             acc.2 ++ filter (λ v, isinstance_str v = false) out_conn)
  end.

(** The body of the loop over the parents. *)
Definition connect_parent (p : parent) (connect : pyval)
    (c : cc col) : M step (gset pystr * cc col) :=
  match parent_get_runs p with
  | inl e => raise e
  | inr [] =>
      raise (UAPError (ParentWithoutOutput (parent_name p)))
  | inr (_ :: _) =>
      do s <- get;
      log (DebugConnecting (parent_name p) (get_step_name s)) ;;
      do s <- get;
      match cc_connect col p s (Some connect) c with
      | (inl e, _) => raise e
      | (inr used_conns, c) =>
          do uc <-
            (if bool_decide (used_conns = ∅)
             then
               log (DebugNotConnected (parent_name p) (get_step_name s)) ;;
               do s <- get;
               match cc_connect col p s None c with
               | (inl e, _) => raise e
               | (inr used_conns, c) => ret (used_conns, c)
               end
             else ret (used_conns, c));
          if bool_decide (uc.1 = ∅)
          then raise (UAPError (NoConnectionsMade (get_step_name s)
                                                  (parent_name p)))
          else ret uc
      end
  end.

Fixpoint connect_parents (ps : list parent) (connect : pyval)
    (c : cc col) (used_out : gset pystr) : M step (gset pystr * cc col) :=
  match ps with
  | [] => ret (used_out, c)
  | p :: ps' =>
      do uc <- connect_parent p connect c;
      connect_parents ps' connect uc.2 (used_out ∪ uc.1)
  end.

(** The end of [get_run_ids_in_connections_input_files]: the check
    that the required connections are satisfied, and the check that
    the outputs named in [_connect] were recognized. *)
Definition check_connections (set_out_connections : gset pystr)
    (others : list pyval) (used_out_connections : gset pystr)
    (c : cc col) : M step (cc col) :=
  do s <- get;
  let required_connections := get_in_connections false s in
  let missing := required_connections ∖ cc_existing_connections col c in
  (if bool_decide (missing = ∅) then ret tt
   else
     log (WarnRequiredConnectionUnsatisfied (elements missing)
            (get_step_type s)) ;;
     log WarnDeprecationUnmetConnections) ;;
  let unrecognized := set_out_connections ∖ used_out_connections in
  if bool_decide (unrecognized = ∅) && bool_decide (others = [])
  then ret c
  else raise (UAPError (UnrecognizedConnections (get_step_name s)
                          (elements unrecognized))).

(** [get_run_ids_in_connections_input_files] *)
Definition get_run_ids_in_connections_input_files : M step (cc col) :=
  do s <- get;
  let c := cc_init col (get_step_name s) in
  setdefault_option (lit "_connect") (VDict []) ;;
  do s <- get;
  match dict_get (lit "_connect") (_options s) with
  | None => raise (KeyError (lit "_connect"))
  | Some (VDict connect) =>
      match collect_set_connections s connect (∅, []) with
      | inl e => raise e
      | inr (set_out_connections, others) =>
          do set_out_connections <-
            (if bool_decide (lit "empty" ∈ set_out_connections)
             then log (WarnEmptyDeprecated (get_step_name s)) ;;
                  ret (set_out_connections ∖ {[lit "empty"]})
             else ret set_out_connections);
          do uc <- connect_parents (dependencies s) (VDict connect) c ∅;
          check_connections set_out_connections others uc.1 uc.2
      end
  | Some _ => raise AttributeError
  end.

(** [runs] of the base class; a step overrides it. *)
Definition runs (run_ids_connections_files : cc col) : M step unit :=
  raise NotImplementedError.

(** The connections of a run that hold a file. *)
Definition used_connections (run : Run.t) : gset pystr :=
  list_to_set
    (omap (λ cf : pystr * list (option pystr * option (list pystr)),
             if existsb (λ e, match e.1 with Some _ => true
                                      | None => false end) cf.2
             then Some cf.1 else None)
          (Run._output_files run)).

(** The loop of [check_required_out_connections]; it ends after the
    fifth bad run. *)
Fixpoint check_runs (required_out : gset pystr)
    (runs : list (pystr * Run.t)) (bad_runs : nat) : M step nat :=
  match runs with
  | [] => ret bad_runs
  | (run_id, run) :: rest =>
      let missings := required_out ∖ used_connections run in
      do bad_runs <-
        (if bool_decide (missings = ∅) then ret bad_runs
         else
           do s <- get;
           log (WarnRunMissesConnections run_id (get_step_name s)
                  (elements missings)) ;;
           ret (S bad_runs));
      if bool_decide (bad_runs = 5%nat)
      then
        do s <- get;
        log (WarnOmittingConnectionTest (get_step_name s)) ;;
        ret bad_runs
      else check_runs required_out rest bad_runs
  end.

(** [check_required_out_connections] *)
Definition check_required_out_connections : M step unit :=
  do s <- get;
  match _runs s with
  | None => raise AttributeError
  | Some all_runs =>
      do bad_runs <- check_runs (get_out_connections false s) all_runs 0;
      if bool_decide (bad_runs = 0%nat) then ret tt
      else log WarnDeprecationUnmetConnections
  end.

(** [declare_runs], for the [runs] of the step at hand. *)
Definition declare_runs (runs : cc col → M step unit) : M step unit :=
  do c <- get_run_ids_in_connections_input_files;
  runs c ;;
  check_required_out_connections.
End Resolver.

(** *** The run executor *)

Inductive notification :=
| NotifyStart (job_id : pyval)
| NotifyHashing (n : nat)
| NotifyBad (attachment : option pystr)
| NotifyOk (attachment : option pystr).

(** What [self.execute(run_id, run)] did: the exec groups ran, an
    exception came out of them, or SIGTERM or SIGINT arrived meanwhile. *)
Inductive exec_outcome :=
| Executed (f : fs)
| ExecRaised (f : fs) (x : exn)
| ExecSignalled (f : fs) (term : bool).

Definition SIGINT : Z := 2.
Definition SIGTERM : Z := 15.

(** What [run] takes from outside the program: clock, host, the external
    commands of the exec groups, the hashing workers, the signals, and
    the text that the bytes of a file decode to (the disk records of a
    file the YAML document it holds, not its bytes). *)
Record env := Env {
  now : Z;
  now_suffix : pystr;            (* [strftime] of [remove_ping_file] *)
  temp_stamp : pystr;
  hostname : pystr;
  pid : Z;
  user : pystr;
  debugging : bool;              (* [args.debugging], [False] if absent *)
  execute : fs → exec_outcome;
  sha256sum : pystr → fs → result pyval;
  hash_signal : option (nat * Z); (* a signal before the i-th hash arrives *)
  read_text : pystr → node → result pystr  (* [read()] of a regular file *)
}.

(** The disk, the pipeline and run attributes that [run] changes, and its
    local variables.  [moved] lists the [os.rename] calls of the
    publishing loop. *)
Record machine := Machine {
  disk : fs;
  state : states;                                      (* [self._state] *)
  fsc : FSCache.cache;                                 (* [run.fsc] *)
  run_known_paths : list (pystr * list (pystr * pyval));
  caught_signal : option Z;               (* [pipeline.caught_signal] *)
  notified : list notification;
  moved : list (pystr * pystr);
  known_paths : list (pystr * list (pystr * pyval));
  to_be_moved : list (pystr * pystr);
  caught_exception : option exn
}.

Definition with_disk (f : fs) (m : machine) : machine :=
  Machine f (state m) (fsc m) (run_known_paths m) (caught_signal m)
    (notified m) (moved m) (known_paths m) (to_be_moved m)
    (caught_exception m).
Definition with_state (x : states) (m : machine) : machine :=
  Machine (disk m) x (fsc m) (run_known_paths m) (caught_signal m)
    (notified m) (moved m) (known_paths m) (to_be_moved m)
    (caught_exception m).
Definition with_fsc (c : FSCache.cache) (m : machine) : machine :=
  Machine (disk m) (state m) c (run_known_paths m) (caught_signal m)
    (notified m) (moved m) (known_paths m) (to_be_moved m)
    (caught_exception m).
Definition with_run_known_paths (k : list (pystr * list (pystr * pyval)))
    (m : machine) : machine :=
  Machine (disk m) (state m) (fsc m) k (caught_signal m)
    (notified m) (moved m) (known_paths m) (to_be_moved m)
    (caught_exception m).
Definition with_caught_signal (x : option Z) (m : machine) : machine :=
  Machine (disk m) (state m) (fsc m) (run_known_paths m) x
    (notified m) (moved m) (known_paths m) (to_be_moved m)
    (caught_exception m).
Definition notify (n : notification) : M machine unit :=
  modify (λ m,
    Machine (disk m) (state m) (fsc m) (run_known_paths m) (caught_signal m)
      (notified m ++ [n]) (moved m) (known_paths m) (to_be_moved m)
      (caught_exception m)).
Definition record_move (sn : pystr * pystr) : M machine unit :=
  modify (λ m,
    Machine (disk m) (state m) (fsc m) (run_known_paths m) (caught_signal m)
      (notified m) (moved m ++ [sn]) (known_paths m) (to_be_moved m)
      (caught_exception m)).
Definition with_known_paths (k : list (pystr * list (pystr * pyval)))
    (m : machine) : machine :=
  Machine (disk m) (state m) (fsc m) (run_known_paths m) (caught_signal m)
    (notified m) (moved m) k (to_be_moved m) (caught_exception m).
Definition with_to_be_moved (t : list (pystr * pystr)) (m : machine)
  : machine :=
  Machine (disk m) (state m) (fsc m) (run_known_paths m) (caught_signal m)
    (notified m) (moved m) (known_paths m) t (caught_exception m).
Definition with_caught_exception (x : option exn) (m : machine) : machine :=
  Machine (disk m) (state m) (fsc m) (run_known_paths m) (caught_signal m)
    (notified m) (moved m) (known_paths m) (to_be_moved m) x.

(** A call of the operating system on the disk. *)
Definition os_call (op : fs → result fs) : M machine unit :=
  λ m, match op (disk m) with
       | inl x => (inl x, m)
       | inr f => (inr tt, with_disk f m)
       end.

(** [try: c except BaseException: handler] *)
Definition try_catch {S} (c : M S unit) (handler : exn → M S unit)
  : M S unit :=
  λ s, match c s with
       | (inl x, s') => handler x s'
       | r => r
       end.

(** [try: c except OSError: pass] *)
Definition pass_os_error {S} (c : M S unit) : M S unit :=
  try_catch c (λ x, match x with OSError _ => ret tt | _ => raise x end).

(** [remove_ping_file] *)
Definition remove_ping_file (e : env) (ping_path : pystr) (bad_copy : bool)
  : M machine unit :=
  do m <- get;
  if path_exists (disk m) ping_path
  then
    pass_os_error
      (let out_w_suffix := ping_path ++ lit "." ++ now_suffix e in
       if bad_copy
       then
         let out_w_bad := ping_path ++ lit ".bad" in
         os_call (os_rename ping_path out_w_bad) ;;
         if debugging e then os_call (copyfile out_w_bad out_w_suffix)
         else ret tt
       else if debugging e
       then os_call (os_rename ping_path out_w_suffix)
       else os_call (os_unlink ping_path))
  else ret tt.

(** The job id of the queued ping; [IOError] and [KeyError] give
    [None]. *)
Definition read_job_id (queued_ping_path : pystr) : M machine pyval :=
  do m <- get;
  match read_yaml queued_ping_path (disk m) with
  | inl (OSError _) => ret VNone
  | inl x => raise x
  | inr (VDict info) =>
      match dict_get (lit "cluster job id") info with
      | Some job_id => ret job_id
      | None => ret VNone
      end
  | inr _ => raise TypeError
  end.

(** [known_paths] for one declared output and its inputs. *)
Definition known_output (temp_directory tag output_path : pystr)
    (input_paths : list pystr) (kp : list (pystr * list (pystr * pyval)))
  : list (pystr * list (pystr * pyval)) :=
  let kp :=
    dict_set output_path
      [ (lit "designation", VStr (lit "output"));
        (lit "label", VStr (basename output_path));
        (lit "type", VStr (lit "step_file")) ] kp in
  let kp :=
    dict_set (path_join temp_directory (basename output_path))
      [ (lit "designation", VStr (lit "output"));
        (lit "label",
         VStr (basename output_path ++ lit "\n(" ++ tag ++ lit ")"));
        (lit "type", VStr (lit "step_file"));
        (lit "real_path", VStr output_path) ] kp in
  foldl (λ kp input_path,
           dict_set input_path
             [ (lit "designation", VStr (lit "input"));
               (lit "label", VStr (basename input_path));
               (lit "type", VStr (lit "step_file")) ] kp)
        kp input_paths.

Definition prepare_known_paths (temp_directory : pystr)
    (abspath : list (pystr * list (option pystr * option (list pystr))))
  : list (pystr * list (pystr * pyval)) :=
  foldl (λ kp tf,
           foldl (λ kp (oi : option pystr * option (list pystr)),
                    match oi with
                    | (Some output_path, Some input_paths) =>
                        known_output temp_directory tf.1 output_path
                                     input_paths kp
                    | _ => kp
                    end) kp tf.2)
        [] abspath.

Definition executing_ping_info (e : env) (temp_directory : pystr)
    (job_id : pyval) : pyval :=
  VDict ([ (lit "start_time", VInt (now e));
           (lit "host", VStr (hostname e));
           (lit "pid", VInt (pid e));
           (lit "user", VStr (user e));
           (lit "temp_directory", VStr temp_directory) ]
         ++ if truthy job_id then [(lit "cluster job id", job_id)] else []).

(** The first part of [run], up to the start notification: output
    directory, the check for a run in progress, the job id, the temporary
    directory, [known_paths] and the executing ping.  The heartbeat
    process that [os.fork] starts only touches the ping. *)
Definition preflight (e : env) (s : step) (run_id : pystr)
  : M machine (Run.t * pyval) :=
  match get_run run_id s with
  | inl x => raise x
  | inr None => raise AttributeError
  | inr (Some run) =>
      (do m <- get;
       if negb (path_isdir (disk m) (Run.get_output_directory run))
       then os_call (os_makedirs (now e) (Run.get_output_directory run))
       else ret tt) ;;
      let executing_ping_path := Run.get_executing_ping_file run in
      do m <- get;
      if path_exists (disk m) executing_ping_path
      then raise (UAPError (AlreadyRunning (get_step_name s) run_id))
      else
        let queued_ping_path := Run.get_queued_ping_file run in
        do job_id <- read_job_id queued_ping_path;
        let temp_directory :=
          Run.get_temp_output_directory (temp_stamp e) run in
        os_call (os_makedirs (now e) temp_directory) ;;
        modify (with_known_paths
                  (prepare_known_paths temp_directory
                     (Run.get_output_files_abspath run))) ;;
        os_call (write_yaml (now e) executing_ping_path
                   (executing_ping_info e temp_directory job_id)) ;;
        notify (NotifyStart job_id) ;;
        modify (with_caught_exception None) ;;
        ret (run, job_id)
  end.

(** [self.execute(run_id, run)] between the two changes of [_state].  On
    a signal the handler removes the executing ping, sets the queued ping
    aside, stores the signal and raises, and [run] catches that. *)
Definition execute_run (e : env) (run : Run.t) : M machine unit :=
  modify (with_state EXECUTING) ;;
  (do m <- get;
   match execute e (disk m) with
   | Executed f => modify (with_disk f)
   | ExecRaised f x =>
       modify (with_disk f) ;; modify (with_caught_exception (Some x))
   | ExecSignalled f term =>
       modify (with_disk f) ;;
       remove_ping_file e (Run.get_executing_ping_file run) false ;;
       remove_ping_file e (Run.get_queued_ping_file run) true ;;
       modify (with_caught_signal (Some (if term then SIGTERM else SIGINT))) ;;
       modify (with_caught_exception
                 (Some (UAPError (if term then ReceivedTERM
                                  else ReceivedINT))))
   end) ;;
  modify (with_state DEFAULT).

(** [run.fsc.name(path)] *)
Definition fsc_method (name : string) (path : pystr) : M machine pyval :=
  λ m, let r := FSCache.method FSCache.posix_ospath (lit name) [path]
                  (disk m) (fsc m) in
       (r.1, with_fsc r.2 m).

(** [known_paths[path][key]] and [known_paths[path][key] = v] *)
Definition kp_get (path : pystr) (key : string) : M machine pyval :=
  do m <- get;
  match dict_get path (known_paths m) with
  | None => raise (KeyError path)
  | Some entry =>
      match dict_get (lit key) entry with
      | None => raise (KeyError (lit key))
      | Some v => ret v
      end
  end.

Definition kp_set (path : pystr) (key : string) (v : pyval)
  : M machine unit :=
  do m <- get;
  match dict_get path (known_paths m) with
  | None => raise (KeyError path)
  | Some entry =>
      modify (with_known_paths
                (dict_set path (dict_set (lit key) v entry) (known_paths m)))
  end.

(** The body of the loop that checks the announced output files. *)
Definition check_output (temp_directory output_directory : pystr)
    (out_file : option pystr) : M machine unit :=
  match out_file with
  | None => ret tt
  | Some out_file =>
      if bool_decide (ch_slash ∈ out_file) then ret tt
      else
        let source_path := path_join temp_directory (basename out_file) in
        let new_path := path_join output_directory (basename out_file) in
        let path_volatile := new_path ++ VOLATILE_SUFFIX in
        (do m <- get;
         if path_exists (disk m) path_volatile
         then os_call (os_unlink path_volatile) else ret tt) ;;
        do m <- get;
        if path_exists (disk m) source_path
        then
          modify (λ m, with_known_paths
                         (dict_pop source_path (known_paths m)) m) ;;
          modify (λ m, with_known_paths
                         (dict_setdefault new_path [] (known_paths m)) m) ;;
          (do designation <- kp_get new_path "designation";
           if py_eq designation (VStr (lit "output"))
           then
             modify (λ m, with_to_be_moved
                            (dict_set source_path new_path (to_be_moved m))
                            m) ;;
             do size <- fsc_method "getsize" source_path;
             do mtime <- fsc_method "getmtime" source_path;
             kp_set new_path "size" size ;;
             kp_set new_path "modification time" mtime
           else ret tt) ;;
          do type <- kp_get new_path "type";
          if negb (py_eq type (VStr (lit "step_file")))
          then kp_set new_path "type" (VStr (lit "step_file"))
          else ret tt
        else
          raise (UAPError (AnnouncedOutputMissing out_file source_path))
  end.

(** [not p.caught_signal and not caught_exception] *)
Definition undisturbed (m : machine) : bool :=
  match caught_signal m with Some n => n =? 0 | None => true end
  && match caught_exception m with Some _ => false | None => true end.

Definition catch_exception (x : exn) : M machine unit :=
  modify (with_caught_exception (Some x)).

(** The check that every announced output file is in the temporary
    directory. *)
Definition check_outputs (temp_directory : pystr) (run : Run.t)
  : M machine unit :=
  modify (with_to_be_moved []) ;;
  do m <- get;
  if undisturbed m
  then
    try_catch
      (for_each (Run.get_output_files run) (λ tf,
         for_each (dict_keys tf.2)
           (check_output temp_directory (Run.get_output_directory run))))
      catch_exception
  else ret tt.

(** The loop over the hashes the pool delivers. *)
Fixpoint hash_loop (e : env) (i : nat) (files : list (pystr * pystr))
  : M machine unit :=
  match files with
  | [] => ret tt
  | (path, new_path) :: rest =>
      match hash_signal e with
      | Some (j, signum) =>
          if bool_decide (i = j) then raise (SignalError signum) else ret tt
      | None => ret tt
      end ;;
      do m <- get;
      match sha256sum e path (disk m) with
      | inl x => raise x
      | inr hashsum =>
          (λ m, let r := FSCache.sha256sum_of (sha256sum e) new_path
                           hashsum (disk m) (fsc m) in
                (inr tt, with_fsc r.2 m)) ;;
          kp_set new_path "sha256" hashsum ;;
          hash_loop e (S i) rest
      end
  end.

(** Hashing, in a pool of [get_cores()] processes. *)
Definition hash_outputs (e : env) (s : step) : M machine unit :=
  do m <- get;
  if match caught_exception m with Some _ => false | None => true end
     && negb (bool_decide (to_be_moved m = []))
  then
    notify (NotifyHashing (length (to_be_moved m))) ;;
    try_catch
      (match int_value (get_cores s) with
       | None => raise TypeError
       | Some n => if n <? 1 then raise ValueError else ret tt
       end ;;
       hash_loop e 0 (to_be_moved m))
      (λ x, catch_exception x ;;
            match x with
            | SignalError signum => modify (with_caught_signal (Some signum))
            | _ => ret tt
            end)
  else ret tt.

(** Moving the output files to their place. *)
Definition publish : M machine unit :=
  do m <- get;
  if undisturbed m
  then
    try_catch
      (for_each (to_be_moved m) (λ sn,
         os_call (os_rename sn.1 sn.2) ;; record_move sn))
      catch_exception
  else ret tt.

(** The text [error] of the annotation. *)
Inductive error_text :=
| StoppedBySignal (signum : Z)
| Traceback (x : exn).

Definition error_of (m : machine) : option error_text :=
  match caught_signal m, caught_exception m with
  | Some signum, _ => Some (StoppedBySignal signum)
  | None, Some x => Some (Traceback x)
  | None, None => None
  end.

(** Modelled from the spec: [run.write_annotation_file] writes the
    annotation of the run, with the error text if there is one, into the
    output directory and returns its path. *)
Definition write_annotation_file (e : env) (run : Run.t)
    (error : option error_text) (job_id : pyval) : M machine pystr :=
  modify (λ m, with_disk
                 (<[Run.get_annotation_file run :=
                      new_file
                        (VDict [ (lit "cluster job id", job_id);
                                 (lit "error",
                                  VBool (match error with Some _ => true
                                                   | None => false end)) ])
                        (now e)]> (disk m)) m) ;;
  ret (Run.get_annotation_file run).

(** [open(p).read()]: a directory cannot be opened, and the bytes of a
    file need not be text. *)
Definition open_read (e : env) (p : pystr) (f : fs) : result pystr :=
  match f !! p with
  | None => inl (OSError FileNotFound)
  | Some n => if is_dir n then inl (OSError IsADirectory)
              else read_text e p n
  end.

(** The attachment of the last notification: the picture next to the
    annotation, when there is one. *)
Definition read_attachment (e : env) (annotation_path : pystr)
  : M machine (option pystr) :=
  do m <- get;
  if path_exists (disk m) (annotation_path ++ lit ".png")
  then match open_read e (annotation_path ++ lit ".png") (disk m) with
       | inl x => raise x
       | inr data => ret (Some data)
       end
  else ret None.

(** The end of [run]: annotation, pings, notification, and the exception
    that was caught is raised again.  The picture next to the annotation
    is read and attached when it exists; the summary of
    [get_run_info_str] is part of the message of the notification. *)
Definition finish (e : env) (run : Run.t) (job_id : pyval)
    (temp_directory : pystr) : M machine unit :=
  do m <- get;
  let error := error_of m in
  do annotation_path <- write_annotation_file e run error job_id;
  remove_ping_file e (Run.get_executing_ping_file run) false ;;
  modify (with_state DEFAULT) ;;
  match error with
  | Some _ =>
      do attachment <- read_attachment e annotation_path;
      notify (NotifyBad attachment) ;;
      remove_ping_file e (Run.get_queued_ping_file run) true ;;
      match caught_exception m with
      | Some x => raise x
      | None => ret tt
      end
  | None =>
      pass_os_error (os_call (os_rmdir temp_directory)) ;;
      pass_os_error (os_call (os_rmdir (dirname temp_directory))) ;;
      do attachment <- read_attachment e annotation_path;
      notify (NotifyOk attachment) ;;
      remove_ping_file e (Run.get_queued_ping_file run) false
  end.

(** [run] *)
Definition run (e : env) (s : step) (run_id : pystr) : M machine unit :=
  do rj <- preflight e s run_id;
  let run := rj.1 in
  let job_id := rj.2 in
  let temp_directory := Run.get_temp_output_directory (temp_stamp e) run in
  execute_run e run ;;
  modify (with_fsc FSCache.init) ;;
  check_outputs temp_directory run ;;
  hash_outputs e s ;;
  modify (λ m, with_run_known_paths
                 (foldl (λ d kv, dict_set kv.1 kv.2 d) (run_known_paths m)
                        (known_paths m)) m) ;;
  publish ;;
  finish e run job_id temp_directory.
End AbstractStep.

(** ** [sources/raw_url_sources.py]: class [RawUrlSource] *)

Module RawUrlSource.
Import AbstractStep.

Definition download_opts : list pystr :=
  [ lit "filename"; lit "hashing-algorithm"; lit "secure-hash";
    lit "uncompress"; lit "url" ].
Definition mandatory_opts : list pystr := [ lit "filename"; lit "url" ].
Definition hash_algos : list pyval :=
  [ VStr (lit "md5"); VStr (lit "sha1"); VStr (lit "sha224");
    VStr (lit "sha256"); VStr (lit "sha384"); VStr (lit "sha512"); VNone ].
Definition gz_endings : list pystr := [ lit ".gz"; lit ".gzip" ].

(** [__init__]: the connection and the two options; the tools it requires
    are looked up in the configuration of the pipeline. *)
Definition init (destination : pystr) : M step unit :=
  add_connection (lit "out/raw") (VBool false) VNone VNone ;;
  add_option (lit "run-download-info") [TDict] (VBool false) VNone
             (VStr (lit "Dictionary of dictionaries.")) VNone ;;
  add_option (lit "dd-blocksize") [TStr] (VBool true) (VStr (lit "256k"))
             VNone VNone.

Section Runs.
(** [urllib.parse.urlparse(url).path] *)
Variable urlparse_path : pyval → result pystr.

(** [run.add_output_file(tag, out_path, in_paths)] on the run that
    [declare_run] has just registered under [run_id]. *)
Definition add_output_file (run_id tag out_path : pystr)
    (in_paths : list pystr) : M step unit :=
  do s <- get;
  match _runs s with
  | Some runs =>
      match dict_get run_id runs with
      | Some run =>
          modify (with_runs
                    (Some (dict_set run_id
                             (Run.add_output_file tag out_path in_paths run)
                             runs)))
      | None => raise (KeyError run_id)
      end
  | None => raise TypeError
  end.

(** [downloads] is the dictionary that [_options] holds for [files]
    under [run-download-info]: what the loop assigns to its keys is
    seen there. *)
Definition write_back (files : pystr) (downloads : list (pystr * pyval))
  : M step unit :=
  modify (λ s,
    match dict_get (lit "run-download-info") (_options s) with
    | Some (VDict file_download) =>
        with_options
          (dict_set (lit "run-download-info")
             (VDict (dict_set files (VDict downloads) file_download))
             (_options s)) s
    | _ => s
    end).

(** The body of the loop of [runs], for one item of
    [run-download-info]; the names of the options of a download are
    strings, as the keys of every [VDict].  The exec groups that follow
    the declaration of the output file hold the commands of the run. *)
Definition download_run (files : pystr) (downloads : pyval)
  : M step unit :=
  match downloads with
  | VDict downloads =>
      let unknown_opts :=
        filter (λ k, k ∉ download_opts) (dict_keys downloads) in
      if negb (bool_decide (unknown_opts = []))
      then raise (StepError (UnknownDownloadOptions files))
      else
      let missing_mandatory_opts :=
        filter (λ k, k ∉ dict_keys downloads) mandatory_opts in
      if negb (bool_decide (missing_mandatory_opts = []))
      then raise (StepError (MissingMandatoryOptions files))
      else
      let hashing_algorithm :=
        default VNone (dict_get (lit "hashing-algorithm") downloads) in
      let secure_hash :=
        default VNone (dict_get (lit "secure-hash") downloads) in
      let uncompress :=
        default (VBool false) (dict_get (lit "uncompress") downloads) in
      let downloads :=
        dict_set (lit "uncompress") uncompress
          (dict_set (lit "secure-hash") secure_hash
             (dict_set (lit "hashing-algorithm") hashing_algorithm
                downloads)) in
      write_back files downloads ;;
      (* formatting the message joins [hash_algos], which holds [None] *)
      if negb (py_in hashing_algorithm hash_algos)
      then raise TypeError
      else if isinstance_str secure_hash && negb (truthy hashing_algorithm)
      then raise (StepError (SecureHashWithoutAlgorithm files))
      else
      match dict_get (lit "url") downloads,
            dict_get (lit "filename") downloads with
      | Some url, Some user_filename =>
          match urlparse_path url with
          | inl x => raise x
          | inr path =>
              let url_filename := basename path in
              let '(root, ext) := splitext url_filename in
              let is_gzipped := bool_decide (ext ∈ gz_endings) in
              if negb is_gzipped && truthy uncompress
              then raise (StepError (UncompressNonGzipped url_filename))
              else
              let filename :=
                if truthy uncompress && is_gzipped then VStr root
                else VStr url_filename in
              let filename := user_filename in
              match filename with
              | VStr name =>
                  let '(root, ext) := splitext (basename name) in
                  if is_gzipped && truthy uncompress
                     && bool_decide (ext ∈ gz_endings)
                  then raise (StepError (FilenameEndsOnGz filename))
                  else
                    do run <- declare_run files;
                    add_output_file (Run.get_run_id run) (lit "raw")
                                    name []
              | _ => raise TypeError
              end
          end
      | None, _ => raise (KeyError (lit "url"))
      | _, None => raise (KeyError (lit "filename"))
      end
  | _ => raise AttributeError
  end.

(** [runs] *)
Definition runs : M step unit :=
  do s <- get;
  match get_option (lit "run-download-info") s with
  | inl x => raise x
  | inr (VDict file_download) =>
      for_each file_download (λ fd, download_run fd.1 fd.2)
  | inr _ => raise AttributeError
  end.
End Runs.
End RawUrlSource.

(** * Properties *)

Import AbstractStep.

(** ** Definitions the statements use *)

(** The number of cores is an [int] instance that stands for a positive
    integer. *)
Definition positive_cores (s : step) : Prop :=
  ∃ n, int_value (get_cores s) = Some n ∧ 1 ≤ n.

(** The calls a step class makes on itself while it is set up. *)
Inductive setup_call :=
| CallSetCores (cores : pyval)
| CallAddConnection (connection : pystr) (optional format description : pyval)
| CallAddOption (key : pystr) (option_types : list pytype)
    (optional default description choices : pyval)
| CallSetOptions (options : list (pystr * pyval))
| CallDeclareRun (run_id : pystr).

Definition perform (s : step) (c : setup_call) : step :=
  match c with
  | CallSetCores cores => (set_cores cores s).2
  | CallAddConnection c o f d => (add_connection c o f d s).2
  | CallAddOption k t o d de ch => (add_option k t o d de ch s).2
  | CallSetOptions options => (set_options options s).2
  | CallDeclareRun run_id => (declare_run run_id s).2
  end.

(** The eight option keys that the engine reserves. *)
Definition reserved_keys : list pystr :=
  [ lit "_depends"; lit "_volatile"; lit "_BREAK"; lit "_connect";
    lit "_cluster_submit_options"; lit "_cluster_pre_job_command";
    lit "_cluster_post_job_command"; lit "_cluster_job_quota" ].

(** Modelled from the spec: class [ConnectionsCollector], whose module is
    not among the sources.  With a connection map, every output
    [<parent>/<name>] that the map names for an input and that the parent
    declares is bound to that input; without one, every output of the parent
    is bound to the input of the same name.  The collector keeps the inputs
    that are bound. *)
Definition parent_output (p : parent) (out_conn : pystr) : bool :=
  bool_decide (take (length (parent_name p) + 1) out_conn
               = parent_name p ++ [ch_slash])
  && bool_decide (lit "out/" ++ drop (length (parent_name p) + 1) out_conn
                  ∈ parent_connections p).

Definition bind_explicit (p : parent) (connect : list (pystr * pyval))
    (c : gset pystr) : gset pystr * gset pystr :=
  foldl (λ (uc : gset pystr * gset pystr) (io : pystr * pyval),
           let outs :=
             filter (λ o, parent_output p o = true)
               (omap (λ v, match v with VStr o => Some o | _ => None end)
                     (as_list io.2)) in
           match outs with
           | [] => uc
           | _ => (uc.1 ∪ list_to_set outs, uc.2 ∪ {[io.1]})
           end)
        (∅, c) connect.

Definition auto_bind (p : parent) (child : step) (c : gset pystr)
    : gset pystr * gset pystr :=
  foldl (λ (uc : gset pystr * gset pystr) (out : pystr),
           let name := drop 4 out in
           if bool_decide (take 4 out = lit "out/")
              && bool_decide (lit "in/" ++ name ∈ get_in_connections true child)
           then (uc.1 ∪ {[parent_name p ++ [ch_slash] ++ name]},
                 uc.2 ∪ {[lit "in/" ++ name]})
           else uc)
        (∅, c) (elements (parent_connections p)).

Definition simple_collector : collector :=
  Collector (gset pystr) (λ _, ∅)
    (λ p child connections c,
       match connections with
       | Some (VDict connect) =>
           let uc := bind_explicit p connect c in (inr uc.1, uc.2)
       | Some _ => (inl AttributeError, c)
       | None => let uc := auto_bind p child c in (inr uc.1, uc.2)
       end)
    (λ c, c).

Definition is_ok {A} (r : result A) : bool :=
  match r with inr _ => true | inl _ => false end.

(** A step that counts features in alignments: two required inputs, one
    output, and one parent, which declares the output [out/alignments] and
    has one run. *)
Definition counting_step : step :=
  (for_each [lit "in/alignments"; lit "in/features"; lit "out/counts"]
     (λ c, add_connection c (VBool false) VNone VNone)
     (Step (lit "htseq_count") (lit "htseq_count") (lit "/data")
        [ Parent (lit "mapper")
            (inr [(lit "a", Run.init (lit "mapper") (lit "/data/mapper")
                              (lit "a"))])
            {[ lit "out/alignments" ]} ]
        [] (Some []) (VInt 2) ∅ ∅ ∅ ∅ [] false [])).2.


(** [urlparse(url).path] for a URL of the form [scheme://host/path]. *)
Fixpoint after_scheme (s : pystr) : pystr :=
  match s with
  | 58%N :: 47%N :: 47%N :: r => r
  | _ :: r => after_scheme r
  | [] => []
  end.

Fixpoint from_slash (s : pystr) : pystr :=
  match s with
  | c :: r => if (c =? ch_slash)%N then s else from_slash r
  | [] => []
  end.

Definition simple_urlparse_path (url : pyval) : result pystr :=
  match url with
  | VStr u => inr (from_slash (after_scheme u))
  | _ => inl AttributeError
  end.

(** A [raw_url_sources] step that is configured with one download. *)
Definition download_step : step :=
  (set_options
     [ (lit "run-download-info",
        VDict [ (lit "my run",
                 VDict [ (lit "filename", VStr (lit "reads.fastq"));
                         (lit "url",
                          VStr (lit "http://host.org/pub/lane1.fq.gz"));
                         (lit "uncompress", VBool true) ]) ]) ]
     (with_runs (Some [])
        (RawUrlSource.init (lit "/data")
           (init (lit "raw_url_sources") (lit "/data"))).2)).2.

(** ** The dependencies in the words of the specification *)

(** The strings that the bindings of [_connect] give, in the order of the
    bindings, and the parent step that each of them names. *)
Definition binding_values (connect : list (pystr * pyval)) : list pyval :=
  concat ((λ io : pystr * pyval, as_list io.2) <$> connect).

Definition binding_parents (connect : list (pystr * pyval)) : list pystr :=
  omap (λ v, match v with
             | VStr pc => Some (split_head ch_slash pc)
             | _ => None
             end) (binding_values connect).

(** The first occurrence of every name that is not in [seen]. *)
Fixpoint first_occurrences (seen : list pystr) (l : list pystr) : list pystr :=
  match l with
  | [] => []
  | x :: l' =>
      if bool_decide (x ∈ seen) then first_occurrences seen l'
      else x :: first_occurrences (seen ++ [x]) l'
  end.

(** The parents that are appended to the explicit list: those that the
    explicit list does not hold and that are not [empty], each one once, in
    the order in which the bindings name them first. *)
Definition implied_dependencies (explicit : list pyval)
    (connect : list (pystr * pyval)) : list pystr :=
  first_occurrences []
    (filter (λ p, py_in (VStr p) explicit = false ∧ p ≠ lit "empty")
            (binding_parents connect)).

(** The explicit [_depends] of a configuration, as a list, and its
    [_connect]. *)
Definition explicit_depends (options : list (pystr * pyval)) : list pyval :=
  match dict_get (lit "_depends") options with
  | Some (VList l) => l
  | Some v => [v]
  | None => []
  end.

Definition configured_connect (options : list (pystr * pyval))
    : list (pystr * pyval) :=
  match dict_get (lit "_connect") options with
  | Some (VDict d) => d
  | _ => []
  end.

(** What a configuration gives for [_connect] is a mapping from input
    connections to an output connection of a parent, or to a list of such:
    this is what the loop over the bindings at the end of [set_options] can
    work with. *)
Definition connect_bindable (options : list (pystr * pyval)) : Prop :=
  ∀ v, dict_get (lit "_connect") options = Some v →
    ∃ connect, v = VDict connect
               ∧ ∀ x, x ∈ binding_values connect → ∃ pc, x = VStr pc.

(** A configuration that holds all eight reserved keys. *)
Definition reserved_options : list (pystr * pyval) :=
  [ (lit "_depends", VStr (lit "mapper"));
    (lit "_volatile", VBool true);
    (lit "_BREAK", VBool false);
    (lit "_connect", VDict [(lit "in/reads", VStr (lit "mapper/reads"))]);
    (lit "_cluster_submit_options", VStr (lit "-q long"));
    (lit "_cluster_pre_job_command", VStr (lit "date"));
    (lit "_cluster_post_job_command", VStr (lit "date"));
    (lit "_cluster_job_quota", VInt 5) ].

(** No declared option begins with an underscore; [add_option] sees to
    that. *)
Definition underscore_free (defined : list (pystr * option_info)) : Prop :=
  ∀ k, k ∈ dict_keys defined → head k ≠ Some ch_underscore.

(** A configuration with two explicit dependencies and two bindings. *)
Definition example_options : list (pystr * pyval) :=
  [ (lit "_depends", VList [VStr (lit "b"); VStr (lit "a")]);
    (lit "_connect",
     VDict [ (lit "in/x", VStr (lit "c/out"));
             (lit "in/y", VList [ VStr (lit "a/o"); VStr (lit "empty");
                                  VStr (lit "d/z"); VStr (lit "c/w") ]) ]) ].

(** ** The announced output files of a run *)

(** An output file that the run announced and that is made in the
    temporary directory: its name is a plain file name. *)
Definition declared_output (r : Run.t) (name : pystr) : Prop :=
  (ch_slash ∉ name)
  ∧ ∃ tag files ins,
      (tag, files) ∈ Run.get_output_files r ∧ (Some name, ins) ∈ files.

(** Every announced output file has its list of input files (the first
    invariant of the data model). *)
Definition inputs_declared (r : Run.t) : Prop :=
  ∀ tag files name,
    (tag, files) ∈ Run.get_output_files r → (Some name, None) ∉ files.

(** No directory stands where the placeholder of an announced output file
    would be. *)
Definition placeholders_free (f : fs) (r : Run.t) : Prop :=
  ∀ name, declared_output r name →
    path_isdir f (path_join (Run.get_output_directory r) name
                  ++ VOLATILE_SUFFIX) = false.

(** The picture next to the annotation of a run, and what reading it for
    the last notification gives on the disk [f]: nothing when it is not
    there, its text, or the error of [open] or of [read]. *)
Definition picture (r : Run.t) : pystr :=
  Run.get_annotation_file r ++ lit ".png".

Definition attachment_on (e : env) (r : Run.t) (f : fs)
    : result (option pystr) :=
  if path_exists f (picture r)
  then match open_read e (picture r) f with
       | inl x => inl x
       | inr data => inr (Some data)
       end
  else inr None.

(** ** Auxiliary definitions of the proofs *)

(** What [os.path.join] puts between a directory and a relative name. *)
Definition separator (a : pystr) : pystr :=
  if bool_decide (a = []) || ends_with_slash a then [] else [ch_slash].

(** A record of [known_paths] that holds a designation and a type. *)
Definition kp_full (entry : list (pystr * pyval)) : Prop :=
  is_Some (dict_get (lit "designation") entry)
  ∧ is_Some (dict_get (lit "type") entry).

Definition kp_known (kp : list (pystr * list (pystr * pyval))) (p : pystr)
    : Prop :=
  ∃ entry, dict_get p kp = Some entry ∧ kp_full entry.

(** What the check of the output files relies on and keeps: the final path
    of every announced output file is known, no directory is in the place
    of a placeholder, and the temporary directory holds what it held after
    the exec groups. *)
Definition check_invariant (r : Run.t) (stamp : pystr) (f : fs) (m : machine)
    : Prop :=
  (∀ name, declared_output r name →
     kp_known (known_paths m)
       (path_join (Run.get_output_directory r) name))
  ∧ (∀ name, declared_output r name →
       path_isdir (disk m) (path_join (Run.get_output_directory r) name
                            ++ VOLATILE_SUFFIX) = false)
  ∧ (∀ name, declared_output r name →
       path_exists (disk m)
         (path_join (Run.get_temp_output_directory stamp r) name)
       = path_exists f
           (path_join (Run.get_temp_output_directory stamp r) name)).

(** The parts of the machine that the statements about failure speak of. *)
Definition outcome (m : machine)
    : list (pystr * pystr) * option Z * option exn :=
  (moved m, caught_signal m, caught_exception m).

(** A computation that does not end with the error of an invalid option
    key. *)
Definition accepts_keys {S A} (c : M S A) : Prop :=
  ∀ s key, (c s).1 ≠ inl (UAPError (InvalidOption key)).

(** The list that the loop over the bindings leaves in [_depends]. *)
Fixpoint depends_after (deps : list pyval) (parents : list pystr)
    : list pyval :=
  match parents with
  | [] => deps
  | p :: ps =>
      if negb (py_in (VStr p) deps) && negb (bool_decide (p = lit "empty"))
      then depends_after (deps ++ [VStr p]) ps
      else depends_after deps ps
  end.


(** A computation that, from a state in [P], returns without an exception
    in a state in [Q]. *)
Definition returns {S A} (P : S → Prop) (c : M S A) (Q : A → S → Prop)
    : Prop :=
  ∀ s, P s → ∃ a s', c s = (inr a, s') ∧ Q a s'.

(** An operation on the disk that fails with an [OSError] only, and a
    computation that raises an [OSError] only. *)
Definition os_errors_only (op : fs → result fs) : Prop :=
  ∀ f x, op f = inl x → ∃ e, x = OSError e.

Definition raises_os_error_only (c : M machine unit) : Prop :=
  ∀ m, (∃ m', c m = (inr tt, m')) ∨ (∃ e m', c m = (inl (OSError e), m')).

(** A run that announces the output file [foo.out], its step, and an
    environment whose exec groups leave the disk as it is. *)
Definition announcing_run : Run.t :=
  Run.add_output_file (lit "out/x") (lit "foo.out") []
    (Run.init (lit "S") (lit "/d/S") (lit "a")).

Definition announcing_step : step :=
  with_runs (Some [(lit "a", announcing_run)]) (init (lit "S") (lit "/d")).

Definition idle_env : env :=
  Env 5 (lit "2020") (lit "T") (lit "host") 1 (lit "me") false
      (λ f, Executed f) (λ _ _, inr (VStr (lit "00"))) None
      (λ _ _, inl ValueError).

Definition fresh_machine : machine :=
  Machine ({[ lit "/d" := new_dir 0 ]}) DEFAULT ∅ [] None [] [] [] [] None.

(** A disk with a directory in the place of the placeholder of [foo.out],
    and one with a directory in the place of the picture of the run. *)
Definition blocked_machine : machine :=
  Machine ({[ lit "/d" := new_dir 0; lit "/d/S" := new_dir 1;
              lit "/d/S/foo.out.volatile.placeholder.yaml" := new_dir 2 ]})
    DEFAULT ∅ [] None [] [] [] [] None.

Definition pictured_machine : machine :=
  Machine ({[ lit "/d" := new_dir 0; lit "/d/S" := new_dir 1;
              lit "/d/S/.a.annotation.yaml.png" := new_dir 2 ]})
    DEFAULT ∅ [] None [] [] [] [] None.

(** A run with an output file that has no list of input files, before the
    announced [foo.out], and exec groups that make the former only. *)
Definition listless_run : Run.t :=
  Run.Run (lit "S") (lit "a") (lit "/d/S")
    [ (lit "out/x", [ (Some (lit "first.out"), None);
                      (Some (lit "foo.out"), Some []) ]) ].

Definition listless_step : step :=
  with_runs (Some [(lit "a", listless_run)]) (init (lit "S") (lit "/d")).

Definition first_only_env : env :=
  Env 5 (lit "2020") (lit "T") (lit "host") 1 (lit "me") false
      (λ f, Executed (<[ lit "/d/S/temp-a-T/first.out"
                         := new_file (VStr (lit "data")) 3 ]> f))
      (λ _ _, inr (VStr (lit "00"))) None
      (λ _ _, inl ValueError).

(** ** Definitions of the further properties *)

(** What an option may hold: [None], or a value of one of the types the
    option was declared with. *)
Definition value_typed (info : option_info) (v : pyval) : Prop :=
  v = VNone ∨ py_type v ∈ types info.

(** The default of every option that is declared optional is such a
    value. *)
Definition defaults_typed (defined : list (pystr * option_info)) : Prop :=
  ∀ key info, dict_get key defined = Some info →
    is_true (optional info) = true → value_typed info (default_value info).

(** A value that [is_option_set_in_config] takes for a setting. *)
Definition counts_as_set (v : pyval) : bool :=
  match v with
  | VList l => existsb (λ x, negb (is_none x)) l
  | _ => negb (is_none v)
  end.

(** A step class with a required and an optional option. *)
Definition trimming_step : step :=
  foldl perform (init (lit "cutadapt") (lit "/data"))
    [ CallAddOption (lit "adapter") [TStr] (VBool false) VNone VNone VNone;
      CallAddOption (lit "minimum-length") [TInt] (VBool true) (VInt 20)
        (VStr (lit "shortest  read kept")) VNone ].

(** Every connection of the step begins with [in/] or with [out/]. *)
Definition connections_prefixed (s : step) : Prop :=
  ∀ c, c ∈ get_connections true s →
    take 3 c = lit "in/" ∨ take 4 c = lit "out/".

(** [needs_parents] says whether the step has an input connection. *)
Definition needs_parents_faithful (s : step) : Prop :=
  needs_parents s = true ↔ ∃ c, c ∈ get_in_connections true s.

(** A run that leaves a required output connection without a file, and the
    warning about it. *)
Definition misses_connection (required_out : gset pystr)
    (ir : pystr * Run.t) : Prop :=
  required_out ∖ used_connections ir.2 ≠ ∅.

Global Instance misses_connection_dec required_out ir :
  Decision (misses_connection required_out ir).
Proof. unfold misses_connection. apply _. Defined.

Definition run_warning (step_name : pystr) (required_out : gset pystr)
    (ir : pystr * Run.t) : log_record :=
  WarnRunMissesConnections ir.1 step_name
    (elements (required_out ∖ used_connections ir.2)).

(** The warnings about the runs of a step: one for each of the first five
    runs that miss a required output connection, the notice that the
    others are left out when there are five, and the deprecation notice
    when there is one at all. *)
Definition connection_warnings (s : step) (runs : list (pystr * Run.t))
  : list log_record :=
  let required_out := get_out_connections false s in
  let bad := filter (misses_connection required_out) runs in
  (run_warning (get_step_name s) required_out <$> take 5 bad)
  ++ (if bool_decide (5 ≤ length bad)%nat
      then [WarnOmittingConnectionTest (get_step_name s)] else [])
  ++ (match bad with [] => [] | _ :: _ => [WarnDeprecationUnmetConnections]
      end).

(** A step with two required output connections and two runs, of which
    the second leaves [out/log] without a file. *)
Definition mapping_step : step :=
  with_runs
    (Some [ (lit "s1",
             Run.add_output_file (lit "out/log") (lit "s1.log") []
               (Run.add_output_file (lit "out/alignments") (lit "s1.bam") []
                  (Run.init (lit "mapper") (lit "/data/mapper") (lit "s1"))));
            (lit "s2",
             Run.add_output_file (lit "out/alignments") (lit "s2.bam") []
               (Run.init (lit "mapper") (lit "/data/mapper") (lit "s2"))) ])
    (foldl perform (init (lit "mapper") (lit "/data"))
       [ CallAddConnection (lit "out/alignments") (VBool false) VNone VNone;
         CallAddConnection (lit "out/log") (VBool false) VNone VNone ]).

(** A step whose only dependency has declared no run, and a step whose
    configuration binds an input connection it does not have. *)
Definition orphan_step : step :=
  Step (lit "htseq_count") (lit "htseq_count") (lit "/data")
    [ Parent (lit "mapper") (inr []) {[ lit "out/alignments" ]} ]
    [] (Some []) (VInt 2) {[ lit "in/alignments" ]} ∅ ∅ ∅ [] true [].

Definition misbound_step : step :=
  Step (lit "htseq_count") (lit "htseq_count") (lit "/data") []
    [ (lit "_connect",
       VDict [ (lit "in/reads", VStr (lit "mapper/alignments")) ]) ]
    (Some []) (VInt 2) {[ lit "in/alignments" ]} ∅ ∅ ∅ [] true [].

(** A computation on the machine that changes nothing but the disk and
    raises nothing but an [OSError]. *)
Definition disk_only (c : M machine unit) : Prop :=
  ∀ m, (∃ f, c m = (inr tt, with_disk f m))
       ∨ (∃ e f, c m = (inl (OSError e), with_disk f m)).

(** A move of an announced output file from the temporary directory of the
    run to its output directory. *)
Definition announced_move (r : Run.t) (stamp : pystr) (sn : pystr * pystr)
  : Prop :=
  ∃ b, declared_output r b
       ∧ sn = (path_join (Run.get_temp_output_directory stamp r) b,
               path_join (Run.get_output_directory r) b).

(** A computation that keeps an invariant of the state, however it ends. *)
Definition preserves {S A} (P : S → Prop) (c : M S A) : Prop :=
  ∀ s, P s → P (c s).2.

(** Environments in which the exec groups raise an error, and in which
    SIGTERM arrives while they run. *)
Definition failing_env : env :=
  Env 5 (lit "2020") (lit "T") (lit "host") 1 (lit "me") false
      (λ f, ExecRaised f ValueError) (λ _ _, inr (VStr (lit "00"))) None
      (λ _ _, inl ValueError).

Definition interrupted_env : env :=
  Env 5 (lit "2020") (lit "T") (lit "host") 1 (lit "me") false
      (λ f, ExecSignalled f true) (λ _ _, inr (VStr (lit "00"))) None
      (λ _ _, inl ValueError).

(** An environment in which the exec groups make the output file of
    [announcing_run]. *)
Definition producing_env : env :=
  Env 5 (lit "2020") (lit "T") (lit "host") 1 (lit "me") false
      (λ f, Executed (<[ lit "/d/S/temp-a-T/foo.out"
                         := new_file (VStr (lit "data")) 3 ]> f))
      (λ _ _, inr (VStr (lit "00"))) None
      (λ _ _, inl ValueError).

(** Every file that is to be moved is an announced output file on its way
    from the temporary directory to the output directory. *)
Definition moves_announced (r : Run.t) (stamp : pystr) (m : machine) : Prop :=
  ∀ sn, sn ∈ to_be_moved m → announced_move r stamp sn.

(** The values of a download that [runs] puts in the place of absent
    keys. *)
Definition hashing_algorithm_of (d : list (pystr * pyval)) : pyval :=
  default VNone (dict_get (lit "hashing-algorithm") d).
Definition secure_hash_of (d : list (pystr * pyval)) : pyval :=
  default VNone (dict_get (lit "secure-hash") d).
Definition uncompress_of (d : list (pystr * pyval)) : pyval :=
  default (VBool false) (dict_get (lit "uncompress") d).

(** A download with the values that [runs] assigns to its three optional
    keys. *)
Definition completed_download (d : list (pystr * pyval))
    : list (pystr * pyval) :=
  dict_set (lit "uncompress") (uncompress_of d)
    (dict_set (lit "secure-hash") (secure_hash_of d)
       (dict_set (lit "hashing-algorithm") (hashing_algorithm_of d) d)).

(** A download with a hashing algorithm that [runs] does not know. *)
Definition whirlpool_download : list (pystr * pyval) :=
  [ (lit "filename", VStr (lit "reads.fastq"));
    (lit "url", VStr (lit "http://host.org/pub/lane1.fq"));
    (lit "hashing-algorithm", VStr (lit "whirlpool")) ].

(** A download that is to be uncompressed, and a source step without
    runs. *)
Definition gzipped_download : list (pystr * pyval) :=
  [ (lit "filename", VStr (lit "reads.fastq"));
    (lit "url", VStr (lit "http://host.org/pub/lane1.fq.gz"));
    (lit "uncompress", VBool true) ].

Definition empty_source_step : step :=
  with_runs (Some []) (init (lit "raw_url_sources") (lit "/data")).

(** A part of [run] that always returns and notifies nothing. *)
Definition quiet (c : M machine unit) : Prop :=
  ∀ m, ∃ m', c m = (inr tt, m') ∧ notified m' = notified m.

(** A step class whose option [mode] has choices. *)
Definition choosing_step : step :=
  foldl perform (init (lit "fastqc") (lit "/data"))
    [ CallAddOption (lit "mode") [TStr] (VBool true) (VStr (lit "fast"))
        VNone (VList [VStr (lit "fast"); VStr (lit "exact")]) ].

(** The machine after exec groups that have made the output file of
    [announcing_run]. *)
Definition produced_disk : fs :=
  {[ lit "/d" := new_dir 0; lit "/d/S" := new_dir 1;
     lit "/d/S/temp-a-T" := new_dir 2;
     lit "/d/S/temp-a-T/foo.out" := new_file (VStr (lit "data")) 3 ]}.

Definition checking_machine : machine :=
  Machine produced_disk DEFAULT ∅ [] None [] []
    (prepare_known_paths (Run.get_temp_output_directory (lit "T") announcing_run)
       (Run.get_output_files_abspath announcing_run))
    [] None.

(** The job id that the queued ping of a run gives. *)
Definition job_id_of_queued_ping (f : fs) (queued_ping_path : pystr) : pyval :=
  match read_yaml queued_ping_path f with
  | inr (VDict info) => default VNone (dict_get (lit "cluster job id") info)
  | _ => VNone
  end.

(** A disk on which the run [a] of [announcing_step] is queued as job
    4711, and one on which its queued ping is an empty file. *)
Definition queued_machine : machine :=
  Machine ({[ lit "/d" := new_dir 0; lit "/d/S" := new_dir 1;
              lit "/d/S/.a.queued.yaml"
              := new_file (VDict [(lit "cluster job id", VInt 4711)]) 2 ]})
    DEFAULT ∅ [] None [] [] [] [] None.

Definition empty_ping_machine : machine :=
  Machine ({[ lit "/d" := new_dir 0; lit "/d/S" := new_dir 1;
              lit "/d/S/.a.queued.yaml" := new_file VNone 2 ]})
    DEFAULT ∅ [] None [] [] [] [] None.

(** ** Tactics and general facts *)

Ltac machine_fields :=
  cbv beta iota delta
    [with_disk with_state with_fsc with_run_known_paths with_caught_signal
     with_known_paths with_to_be_moved with_caught_exception
     disk state fsc run_known_paths caught_signal notified moved known_paths
     to_be_moved caught_exception outcome] in *.

Ltac msimpl :=
  cbv beta iota delta [bind ret raise get modify try_catch pass_os_error] in *.

Lemma bind_raises {S A B} (c : M S A) (k : A → M S B) s x :
  (c s).1 = inl x → (bind c k s).1 = inl x.
Proof. unfold bind. destruct (c s) as [[?|?] ?]; simpl; congruence. Qed.

Lemma bind_inr {S A B} (c : M S A) (k : A → M S B) s a s1 :
  c s = (inr a, s1) → bind c k s = k a s1.
Proof. intros H. unfold bind. by rewrite H. Qed.

Lemma bind_inl {S A B} (c : M S A) (k : A → M S B) s x s1 :
  c s = (inl x, s1) → bind c k s = (inl x, s1).
Proof. intros H. unfold bind. by rewrite H. Qed.

Lemma bind_get {S B} (k : S → M S B) s : bind get k s = k s s.
Proof. reflexivity. Qed.

Lemma bind_modify {S B} (f : S → S) (k : unit → M S B) s :
  bind (modify f) k s = k tt (f s).
Proof. reflexivity. Qed.

Lemma for_each_raises {S A} (l : list A) (body : A → M S unit) (a : A) :
  a ∈ l → (∀ s, ∃ x, (body a s).1 = inl x) →
  ∀ s, ∃ x, (for_each l body s).1 = inl x.
Proof.
  intros Hin Hbody. induction l as [|b l IH]; [by apply elem_of_nil in Hin|].
  intros s. simpl. apply elem_of_cons in Hin as [<-|Hin].
  - destruct (Hbody s) as [x Hx]. exists x. by apply bind_raises.
  - unfold bind. destruct (body b s) as [[x|[]] s'] eqn:Hb; simpl; [by eexists|].
    by apply IH.
Qed.

(** A computation that leaves a component of the state as it is. *)
Section Keeps.
Context {S X : Type} (proj : S → X).

Definition keeps {A} (c : M S A) : Prop := ∀ s, proj (c s).2 = proj s.

Lemma keeps_ret {A} (a : A) : keeps (ret a).
Proof. by intros s. Qed.
Lemma keeps_raise {A} (x : exn) : keeps (@raise S A x).
Proof. by intros s. Qed.
Lemma keeps_get : keeps get.
Proof. by intros s. Qed.
Lemma keeps_modify (f : S → S) :
  (∀ s, proj (f s) = proj s) → keeps (modify f).
Proof. intros H s. apply H. Qed.
Lemma keeps_bind {A B} (c : M S A) (k : A → M S B) :
  keeps c → (∀ a, keeps (k a)) → keeps (bind c k).
Proof.
  intros Hc Hk s. unfold bind. specialize (Hc s).
  destruct (c s) as [[x|a] s']; simpl in *; [done|].
  by rewrite Hk.
Qed.
Lemma keeps_for_each {A} (l : list A) (body : A → M S unit) :
  (∀ a, keeps (body a)) → keeps (for_each l body).
Proof.
  intros Hb. induction l as [|a l IH]; simpl.
  - apply keeps_ret.
  - apply keeps_bind; auto.
Qed.
Lemma keeps_if {A} (b : bool) (c d : M S A) :
  keeps c → keeps d → keeps (if b then c else d).
Proof. by destruct b. Qed.
Lemma keeps_try_catch (c : M S unit) (h : exn → M S unit) :
  keeps c → (∀ x, keeps (h x)) → keeps (try_catch c h).
Proof.
  intros Hc Hh s. unfold try_catch. specialize (Hc s).
  destruct (c s) as [[x|a] s']; simpl in *; [|done].
  by rewrite Hh.
Qed.
End Keeps.

Ltac keeps_step :=
  first
    [ apply keeps_ret | apply keeps_raise | apply keeps_get
    | apply keeps_for_each; intros ?
    | apply keeps_bind; [|intros ?]
    | apply keeps_modify; intros ?; reflexivity
    | apply keeps_if
    | apply keeps_try_catch; [|intros ?]
    | match goal with
      | |- keeps _ (match ?x with _ => _ end) => destruct x
      end ].

Section DictFacts.
Context {K V : Type} `{EqDecision K}.
Implicit Types (d : list (K * V)).

Lemma dict_set_absent k v d :
  dict_get k d = None → dict_set k v d = d ++ [(k, v)].
Proof.
  induction d as [|[k' v'] d IH]; simpl; [done|].
  destruct (decide (k' = k)); [done|]. intros H. by rewrite IH.
Qed.

Lemma dict_get_set k k' v d :
  dict_get k' (dict_set k v d)
  = if decide (k = k') then Some v else dict_get k' d.
Proof.
  induction d as [|[k0 v0] d IH]; simpl.
  - destruct (decide (k = k')); done.
  - destruct (decide (k0 = k)) as [->|Hne]; simpl.
    + destruct (decide (k = k')); done.
    + destruct (decide (k0 = k')) as [->|]; [by rewrite decide_False|]. done.
Qed.

Lemma dict_get_app k d d' :
  dict_get k (d ++ d')
  = match dict_get k d with Some v => Some v | None => dict_get k d' end.
Proof.
  induction d as [|[k0 v0] d IH]; simpl; [done|].
  by destruct (decide (k0 = k)).
Qed.

Lemma dict_set_app_absent k v v' d :
  dict_get k d = None → dict_set k v' (d ++ [(k, v)]) = d ++ [(k, v')].
Proof.
  induction d as [|[k0 v0] d IH]; simpl.
  - by rewrite decide_True.
  - destruct (decide (k0 = k)); [done|]. intros H. by rewrite IH.
Qed.
End DictFacts.

Section Returns.
Context {S : Type}.
Implicit Types (P : S → Prop).

Lemma returns_ret {A} P (a : A) : returns P (ret a) (λ _, P).
Proof. intros s Hs. by exists a, s. Qed.

Lemma returns_get P : returns P get (λ s0 s, P s ∧ s0 = s).
Proof. intros s Hs. by exists s, s. Qed.

Lemma returns_modify P (Q : S → Prop) (f : S → S) :
  (∀ s, P s → Q (f s)) → returns P (modify f) (λ _, Q).
Proof. intros H s Hs. exists tt, (f s). split; [done|]. by apply H. Qed.

Lemma returns_bind {A B} P (Q : A → S → Prop) (R : B → S → Prop)
    (c : M S A) (k : A → M S B) :
  returns P c Q → (∀ a, returns (Q a) (k a) R) → returns P (bind c k) R.
Proof.
  intros Hc Hk s Hs. destruct (Hc s Hs) as (a & s1 & Hcs & Hq).
  destruct (Hk a s1 Hq) as (b & s2 & Hks & Hr).
  exists b, s2. split; [|done]. unfold bind. by rewrite Hcs.
Qed.

Lemma returns_weaken {A} P P' (Q Q' : A → S → Prop) (c : M S A) :
  returns P' c Q' → (∀ s, P s → P' s) → (∀ a s, Q' a s → Q a s) →
  returns P c Q.
Proof.
  intros Hc HP HQ s Hs. destruct (Hc s (HP s Hs)) as (a & s' & ? & ?).
  exists a, s'. auto.
Qed.

Lemma returns_if {A} P (Q : A → S → Prop) (b : bool) (c d : M S A) :
  returns P c Q → returns P d Q → returns P (if b then c else d) Q.
Proof. by destruct b. Qed.
End Returns.

Lemma elem_of_concat {A} (x : A) (ls : list (list A)) :
  x ∈ concat ls ↔ ∃ l, x ∈ l ∧ l ∈ ls.
Proof.
  induction ls as [|l ls IH]; cbn [concat].
  - split; [by intros ?%elem_of_nil|by intros (? & _ & ?%elem_of_nil)].
  - rewrite elem_of_app, IH. split.
    + intros [H|(l' & ? & ?)]; [exists l; split; [done|by left]|].
      exists l'. split; [done|by right].
    + intros (l' & Hx & [->|Hl]%elem_of_cons); [by left|].
      right. by exists l'.
Qed.

(** ** Invariants of a computation, and the disk of the machine *)

Section Preserves.
Context {S : Type} (P : S → Prop).

Lemma preserves_ret {A} (a : A) : preserves P (ret a).
Proof. by intros s. Qed.
Lemma preserves_raise {A} (x : exn) : preserves P (@raise S A x).
Proof. by intros s. Qed.
Lemma preserves_get : preserves P get.
Proof. by intros s. Qed.
Lemma preserves_modify (f : S → S) :
(∀ s, P s → P (f s)) → preserves P (modify f).
Proof. intros H s. apply H. Qed.
Lemma preserves_bind {A B} (c : M S A) (k : A → M S B) :
preserves P c → (∀ a, preserves P (k a)) → preserves P (bind c k).
Proof.
intros Hc Hk s Hs. unfold bind. specialize (Hc s Hs).
destruct (c s) as [[x|a] s']; cbn [snd] in *; [done|]. by apply Hk.
Qed.
Lemma preserves_if {A} (b : bool) (c d : M S A) :
preserves P c → preserves P d → preserves P (if b then c else d).
Proof. by destruct b. Qed.
Lemma preserves_for_each {A} (l : list A) (body : A → M S unit) :
(∀ a, a ∈ l → preserves P (body a)) → preserves P (for_each l body).
Proof.
induction l as [|a l IH]; intros Hb; cbn [for_each].
- apply preserves_ret.
- apply preserves_bind; [apply Hb; by left|intros _].
  apply IH. intros b Hin. apply Hb. by right.
Qed.
Lemma preserves_try_catch (c : M S unit) (h : exn → M S unit) :
preserves P c → (∀ x, preserves P (h x)) → preserves P (try_catch c h).
Proof.
intros Hc Hh s Hs. unfold try_catch. specialize (Hc s Hs).
destruct (c s) as [[x|a] s']; cbn [snd] in *; [|done]. by apply Hh.
Qed.
End Preserves.

Lemma elem_of_dict_set {K V} `{EqDecision K} (k : K) (v : V)
    (d : list (K * V)) (x : K * V) :
  x ∈ dict_set k v d → x = (k, v) ∨ x ∈ d.
Proof.
  induction d as [|[k0 v0] d IH]; cbn [dict_set].
  - intros Hx. apply list_elem_of_singleton in Hx. by left.
  - destruct (decide (k0 = k)) as [->|Hne].
    + intros [->|Hx]%elem_of_cons; [by left|]. right. by right.
    + intros [->|Hx]%elem_of_cons; [right; by left|].
      destruct (IH Hx) as [->|Hin]; [by left|]. right. by right.
Qed.

Ltac preserves_step :=
  first
    [ apply preserves_ret | apply preserves_raise | apply preserves_get
    | apply preserves_bind; [|intros ?]
    | apply preserves_if
    | apply preserves_try_catch; [|intros ?]
    | apply preserves_modify; intros [] Hm; exact Hm
    | match goal with
      | |- preserves _ (match ?x with _ => _ end) => destruct x
      end ].

Lemma preserves_os_call (P : machine → Prop) (op : fs → result fs) :
  (∀ f m, P m → P (with_disk f m)) → preserves P (os_call op).
Proof.
  intros H m Hm. unfold os_call. destruct (op (disk m)); [done|].
  by apply H.
Qed.

Lemma with_disk_twice f f' m : with_disk f' (with_disk f m) = with_disk f' m.
Proof. by destruct m. Qed.

Lemma with_disk_same m : with_disk (disk m) m = m.
Proof. by destruct m. Qed.

Lemma disk_of_with_disk f m : disk (with_disk f m) = f.
Proof. by destruct m. Qed.


(** ** The number of cores *)

Lemma set_cores_cases (cores : pyval) (s : step) :
  (set_cores cores s
   = (inl (UAPError (CoresNotPositive (get_step_name s) cores)), s)
   ∧ (isinstance_int cores = false ∨ ∃ n, int_value cores = Some n ∧ n < 1))
  ∨ (set_cores cores s = (inr tt, with_cores cores s)
     ∧ ∃ n, int_value cores = Some n ∧ 1 ≤ n).
Proof.
  unfold set_cores; msimpl.
  destruct cores as [| [] | n | | | |]; simpl; eauto.
  - right; split; eauto. exists 1. split; [done | lia].
  - left; split; eauto. right. exists 0. split; [done | lia].
  - destruct (Z.ltb_spec n 1).
    + left; split; eauto.
    + right; split; eauto.
Qed.

Lemma set_option_keeps_cores key value : keeps _cores (set_option key value).
Proof. unfold set_option, store_option, log. repeat keeps_step. Qed.

Lemma set_options_keeps_cores options : keeps _cores (set_options options).
Proof.
  unfold set_options, setdefault_option, wrap_depends,
    add_implied_dependencies, add_implied_dependency, default_option,
    store_option.
  repeat (keeps_step || apply set_option_keeps_cores).
Qed.

Lemma add_connection_keeps_cores c o f d :
  keeps _cores (add_connection c o f d).
Proof. unfold add_connection. repeat keeps_step. Qed.

Lemma add_option_keeps_cores k t o d de ch :
  keeps _cores (add_option k t o d de ch).
Proof. unfold add_option. repeat keeps_step. Qed.

Lemma declare_run_keeps_cores r : keeps _cores (declare_run r).
Proof. unfold declare_run, add_run. repeat keeps_step. Qed.

Lemma perform_positive_cores (s : step) (c : setup_call) :
  positive_cores s → positive_cores (perform s c).
Proof.
  intros Hs. destruct c; simpl.
  - destruct (set_cores_cases cores s) as [[-> _]|[-> Hn]]; [done|].
    exact Hn.
  - unfold positive_cores, get_cores. by rewrite add_connection_keeps_cores.
  - unfold positive_cores, get_cores. by rewrite add_option_keeps_cores.
  - unfold positive_cores, get_cores. by rewrite set_options_keeps_cores.
  - unfold positive_cores, get_cores. by rewrite declare_run_keeps_cores.
Qed.

(** C10: the number of cores of a step is 1 at first; [set_cores] raises an
    error on an argument that is not an [int] or is less than 1 and then
    leaves the step as it is; so after any sequence of calls on the step
    [get_cores] is an integer of at least 1, and the pool that hashes the
    output files is never asked for fewer than one process. *)
Theorem cores_always_positive :
  (∀ module destination, get_cores (init module destination) = VInt 1)
  ∧ (∀ cores s,
       isinstance_int cores = false ∨ (∃ n, int_value cores = Some n ∧ n < 1) →
       set_cores cores s
       = (inl (UAPError (CoresNotPositive (get_step_name s) cores)), s))
  ∧ (∀ module destination (calls : list setup_call),
       positive_cores (foldl perform (init module destination) calls))
  ∧ (∀ s, positive_cores s →
       ∃ n, int_value (get_cores s) = Some n ∧ (n <? 1) = false
            ∧ n ≠ 0 ∧ ¬ n < 0).
Proof.
  split; [done|]. split; [|split].
  - intros cores s H.
    destruct (set_cores_cases cores s) as [[-> _]|[_ [n [Hn Hle]]]]; [done|].
    exfalso. destruct H as [H|[n' [Hn' Hlt]]].
    + destruct cores; simpl in *; congruence.
    + rewrite Hn in Hn'. injection Hn' as <-. lia.
  - intros module destination calls.
    assert (H0 : positive_cores (init module destination)).
    { exists 1. split; [done|lia]. }
    revert H0. generalize (init module destination).
    induction calls as [|c calls IH]; intros s Hs; simpl; [done|].
    apply IH. by apply perform_positive_cores.
  - intros s [n [Hn Hle]]. exists n. split; [done|].
    split; [by apply Z.ltb_ge|lia].
Qed.

Lemma cores_always_positive_witness :
  set_cores (VInt 0) (init (lit "fastqc") (lit "/data"))
  = (inl (UAPError (CoresNotPositive (lit "fastqc") (VInt 0))),
     init (lit "fastqc") (lit "/data"))
  ∧ set_cores (VStr (lit "4")) (init (lit "fastqc") (lit "/data"))
    = (inl (UAPError (CoresNotPositive (lit "fastqc") (VStr (lit "4")))),
       init (lit "fastqc") (lit "/data"))
  ∧ ∃ n, int_value (get_cores
                      (foldl perform (init (lit "fastqc") (lit "/data"))
                         [CallSetCores (VInt 4); CallSetCores (VBool false);
                          CallSetCores (VInt (-2))]))
         = Some n ∧ (n <? 1) = false ∧ n ≠ 0 ∧ ¬ n < 0.
Proof.
  destruct cores_always_positive as (_ & Hraise & Hinv & Hpool).
  split; [|split].
  - apply (Hraise (VInt 0)). right. exists 0. split; [reflexivity|lia].
  - apply (Hraise (VStr (lit "4"))). left. reflexivity.
  - apply Hpool, Hinv.
Defined.

(** ** [add_connection] *)

(** C4, counterexample: on a fresh step the connection [in/reads] is added
    twice with the same arguments; the second call returns normally, and the
    step is as the first call left it. *)
Lemma add_connection_duplicate_accepted :
  let s0 := init (lit "cutadapt") (lit "/data") in
  let s1 := (add_connection (lit "in/reads") (VBool false) VNone VNone s0).2 in
  add_connection (lit "in/reads") (VBool false) VNone VNone s0 = (inr tt, s1)
  ∧ add_connection (lit "in/reads") (VBool false) VNone VNone s1 = (inr tt, s1).
Proof. vm_compute. split; reflexivity. Qed.

Ltac step_fields :=
  cbv beta iota delta
    [with_needs_parents with_connections with_optional_connections
     with_connection_formats with_connection_descriptions with_options
     with_runs with_cores with_defined_options get_connections
     _step_name module_name destination_path dependencies _options _runs
     _cores _connections _optional_connections _connection_formats
     _connection_descriptions _defined_options needs_parents logged] in *.

(** C4, amended: [add_connection] raises its error, and leaves the step as
    it is, when the name starts neither with [in/] nor with [out/]; a
    connection that was added is among the connections of the step, and a
    second call with the same arguments is accepted and changes nothing. *)
Theorem add_connection_prefix_and_duplicates
    (connection : pystr) (optional format description : pyval) (s : step) :
  (take 3 connection ≠ lit "in/" → take 4 connection ≠ lit "out/" →
     add_connection connection optional format description s
     = (inl (UAPError ConnectionPrefix), s))
  ∧ (∀ s1, add_connection connection optional format description s
           = (inr tt, s1) →
       connection ∈ get_connections true s1
       ∧ add_connection connection optional format description s1
         = (inr tt, s1)).
Proof.
  split.
  - intros H3 H4. unfold add_connection.
    rewrite (bool_decide_eq_false_2 _ H3), (bool_decide_eq_false_2 _ H4). done.
  - intros s1. unfold add_connection.
    destruct (negb _) eqn:Hp; [done|].
    replace (match optional with
             | VBool true =>
                 modify (λ s, with_optional_connections
                                ({[connection]} ∪ _optional_connections s) s)
             | _ => modify (λ s, with_connections
                                   ({[connection]} ∪ _connections s) s)
             end)
      with (if is_true optional
            then modify (λ s, with_optional_connections
                                ({[connection]} ∪ _optional_connections s) s)
            else modify (λ s, with_connections
                                ({[connection]} ∪ _connections s) s))
      by (by destruct optional as [| [] | | | | |]).
    replace (match format with
             | VNone => ret tt
             | _ => modify (λ s, with_connection_formats
                                   (<[connection := format]>
                                      (_connection_formats s)) s)
             end)
      with (if is_none format then ret tt
            else modify (λ s, with_connection_formats
                                (<[connection := format]>
                                   (_connection_formats s)) s))
      by (by destruct format).
    destruct s as [n mo de dp op ru co cs ocs cf cd dopt np lg].
    msimpl.
    destruct (bool_decide (take 3 connection = lit "in/"));
      destruct (is_true optional); destruct (is_none format);
      destruct description; try done;
      step_fields; intros [= <-]; step_fields;
      (split; [set_solver|]);
      rewrite ?insert_insert_eq, ?(assoc_L (∪)), ?union_idemp_L;
      reflexivity.
Qed.

Lemma add_connection_prefix_and_duplicates_witness :
  add_connection (lit "reads") (VBool false) VNone VNone
    (init (lit "cutadapt") (lit "/data"))
  = (inl (UAPError ConnectionPrefix), init (lit "cutadapt") (lit "/data"))
  ∧ let s1 := (add_connection (lit "out/log") (VBool true) VNone
                 (VStr (lit "the  log")) (init (lit "cutadapt") (lit "/data"))).2 in
    lit "out/log" ∈ get_connections true s1
    ∧ add_connection (lit "out/log") (VBool true) VNone
        (VStr (lit "the  log")) s1 = (inr tt, s1).
Proof.
  split.
  - apply (add_connection_prefix_and_duplicates (lit "reads")); by vm_compute.
  - apply (add_connection_prefix_and_duplicates (lit "out/log") (VBool true)
             VNone (VStr (lit "the  log"))
             (init (lit "cutadapt") (lit "/data"))).
    reflexivity.
Defined.

(** ** [declare_run] *)

Lemma re_sub_space_char (r : N) (s : pystr) :
  re_sub_space [r] s = (λ c, if is_space c then r else c) <$> s.
Proof.
  induction s as [|c s IH]; simpl; [done|].
  destruct (is_space c); simpl; by rewrite IH.
Qed.

(** C6: [declare_run] puts an underscore in the place of every white-space
    character of the run id and leaves the other characters as they are; if
    a run with the resulting id is declared already it raises an error and
    changes nothing, otherwise it makes a new run with that id, registers it
    under that id and returns it. *)
Theorem declare_run_normalises_and_registers
    (run_id : pystr) (s : step) (runs : list (pystr * Run.t)) :
  _runs s = Some runs →
  let new_id := re_sub_space (lit "_") run_id in
  (length new_id = length run_id
   ∧ ∀ i, new_id !! i
          = (λ c, if is_space c then ch_underscore else c) <$> run_id !! i)
  ∧ (is_Some (dict_get new_id runs) →
       declare_run run_id s = (inl (UAPError (DuplicateRunId new_id)), s))
  ∧ (dict_get new_id runs = None →
       ∃ run, declare_run run_id s
              = (inr run, with_runs (Some (runs ++ [(new_id, run)])) s)
            ∧ Run.get_run_id run = new_id
            ∧ Run.get_output_files run = []
            ∧ get_run new_id (declare_run run_id s).2 = inr (Some run)).
Proof.
  intros Hruns new_id.
  assert (Hmap : new_id
                 = (λ c, if is_space c then ch_underscore else c) <$> run_id)
    by apply re_sub_space_char.
  split; [|split].
  - rewrite Hmap. split; [by rewrite length_fmap|].
    intros i; by rewrite list_lookup_fmap.
  - intros [r Hr]. unfold declare_run. fold new_id. msimpl. rewrite Hruns.
    unfold dict_has. by rewrite Hr.
  - intros Hnone. eexists. unfold declare_run. fold new_id. msimpl.
    rewrite Hruns. unfold dict_has. rewrite Hnone. unfold add_run. msimpl.
    simpl. rewrite ?Hruns. simpl. rewrite (dict_set_absent _ _ _ Hnone).
    repeat split. unfold get_run. simpl.
    rewrite dict_get_app, Hnone. simpl. by rewrite decide_True.
Qed.

Lemma declare_run_normalises_and_registers_witness :
  let s := with_runs (Some [(lit "a_b", Run.init (lit "S") (lit "/data/S")
                                          (lit "a_b"))])
             (init (lit "S") (lit "/data")) in
  declare_run (lit "a b") s = (inl (UAPError (DuplicateRunId (lit "a_b"))), s)
  ∧ ∃ run, declare_run [97; 9; 98; 160; 99]%N s
           = (inr run,
              with_runs (Some ([(lit "a_b", Run.init (lit "S") (lit "/data/S")
                                              (lit "a_b"))]
                               ++ [(lit "a_b_c", run)])) s)
         ∧ Run.get_run_id run = lit "a_b_c".
Proof.
  intros s. split.
  - apply (declare_run_normalises_and_registers (lit "a b") s _ eq_refl).
    by eexists.
  - destruct (declare_run_normalises_and_registers [97; 9; 98; 160; 99]%N s
                _ eq_refl) as (_ & _ & H).
    destruct (H eq_refl) as (run & H1 & H2 & _). by exists run.
Defined.

(** ** [FSCache] *)

Section FSCacheFacts.
Import FSCache.
Implicit Types (c : cache) (k : ckey).

Lemma cached_store_eq c name k v : cached (store name k v c) name k = Some v.
Proof.
  unfold cached, store. rewrite lookup_insert_eq. simpl.
  by rewrite lookup_insert_eq.
Qed.

Lemma cached_store_ne c name k v name' k' :
  (name, k) ≠ (name', k') →
  cached (store name k v c) name' k' = cached c name' k'.
Proof.
  intros Hne. unfold cached, store.
  destruct (decide (name = name')) as [<-|Hn].
  - rewrite lookup_insert_eq. simpl.
    rewrite lookup_insert_ne by congruence.
    destruct (c !! name); simpl; [done|]. by rewrite lookup_empty.
  - by rewrite lookup_insert_ne.
Qed.

Lemma cached_ensure c name name' k :
  cached (ensure name c) name' k = cached c name' k.
Proof.
  unfold cached, ensure. destruct (c !! name) eqn:Hc; [done|].
  destruct (decide (name = name')) as [<-|Hn].
  - rewrite lookup_insert_eq, Hc. simpl. by rewrite lookup_empty.
  - by rewrite lookup_insert_ne.
Qed.

Lemma method_hit ospath name args f c v :
  cached c name (KArgs args) = Some v →
  method ospath name args f c = (inr v, c).
Proof. intros H. unfold method. by rewrite H. Qed.

Lemma method_stores ospath name args f c v c1 :
  method ospath name args f c = (inr v, c1) →
  cached c1 name (KArgs args) = Some v.
Proof.
  unfold method. destruct (cached c name (KArgs args)) eqn:Hc.
  - by intros [= <- <-].
  - destruct (ospath name) as [fn|]; [|done].
    destruct (fn args f); [done|]. intros [= <- <-].
    apply cached_store_eq.
Qed.

(** No call but [clear] removes or changes what a method call cached. *)
Lemma step_op_keeps ospath sha (o : op) c name args v :
  is_clear o = false →
  cached c name (KArgs args) = Some v →
  cached (step_op ospath sha o c) name (KArgs args) = Some v.
Proof.
  intros Hclear Hc. destruct o as [n a f|p value f|p f|]; simpl; [| | |done].
  - unfold method. destruct (cached c n (KArgs a)) eqn:Hna; [done|].
    destruct (ospath n) as [fn|]; [|done]. destruct (fn a f); [done|].
    simpl. rewrite cached_store_ne, cached_ensure; [done|].
    intros [= -> ->]. congruence.
  - unfold sha256sum_of.
    assert (He : cached (ensure name_sha256sums c) name (KArgs args) = Some v)
      by by rewrite cached_ensure.
    destruct value; simpl;
      try (rewrite cached_store_ne; [done|congruence]).
    destruct (cached _ name_sha256sums (KPath p)); [done|].
    destruct (sha p f); [done|]. simpl.
    rewrite cached_store_ne; [done|congruence].
  - unfold load_yaml_from_file.
    assert (He : cached (ensure name_load_yaml c) name (KArgs args) = Some v)
      by by rewrite cached_ensure.
    destruct (cached _ name_load_yaml (KPath p)); [done|].
    destruct (read_yaml p f); [done|]. simpl.
    rewrite cached_store_ne; [done|congruence].
Qed.

Lemma run_ops_keeps ospath sha (ops : list op) c name args v :
  forallb (λ o, negb (is_clear o)) ops = true →
  cached c name (KArgs args) = Some v →
  cached (run_ops ospath sha ops c) name (KArgs args) = Some v.
Proof.
  revert c. induction ops as [|o ops IH]; intros c Hops Hc; [done|].
  simpl in *. apply andb_prop in Hops as [Ho Hops].
  apply IH; [done|]. apply step_op_keeps; [|done].
  by destruct (is_clear o).
Qed.

(** C9: what a call of an [os.path] function through the cache returned
    is what every later call with the same name and arguments returns,
    whatever the file system has become, whatever [os.path] would answer
    now and whatever other calls were made, as long as [clear] was not
    among them; [clear] empties the cache and the next call is made
    again; [sha256sum_of] with a value stores and returns that value, in
    the place of what was cached for the path, and later calls without a
    value return it. *)
Theorem fscache_memoizes :
  (∀ ospath name args f c v c1,
     method ospath name args f c = (inr v, c1) →
     ∀ ospath' sha' (ops : list op) f',
       forallb (λ o, negb (is_clear o)) ops = true →
       let c2 := run_ops ospath' sha' ops c1 in
       method ospath' name args f' c2 = (inr v, c2))
  ∧ (∀ ospath name args f c,
       clear c = (inr tt, init)
       ∧ method ospath name args f (clear c).2
         = match ospath name with
           | None => (inl AttributeError, init)
           | Some fn =>
               match fn args f with
               | inl x => (inl x, init)
               | inr v => (inr v, {[ name := {[ KArgs args := v ]} ]})
               end
           end)
  ∧ (∀ sha path value f c,
       value ≠ VNone →
       ∃ c1, sha256sum_of sha path value f c = (inr value, c1)
             ∧ cached c1 name_sha256sums (KPath path) = Some value
             ∧ ∀ sha' f', sha256sum_of sha' path VNone f' c1
                          = (inr value, c1)).
Proof.
  split; [|split].
  - intros ospath name args f c v c1 Hcall ospath' sha' ops f' Hops c2.
    apply method_hit. apply run_ops_keeps; [done|].
    by eapply method_stores.
  - intros ospath name args f c. split; [done|]. simpl.
    unfold method, cached, init. rewrite lookup_empty. simpl.
    destruct (ospath name) as [fn|]; [|done].
    destruct (fn args f); [done|].
    unfold store, ensure. rewrite lookup_empty, lookup_insert_eq. simpl.
    by rewrite insert_insert_eq.
  - intros sha path value f c Hv.
    exists (store name_sha256sums (KPath path) value
              (ensure name_sha256sums c)).
    assert (Hc : cached (store name_sha256sums (KPath path) value
                           (ensure name_sha256sums c))
                   name_sha256sums (KPath path) = Some value)
      by apply cached_store_eq.
    split; [by destruct value|]. split; [done|].
    intros sha' f'. unfold sha256sum_of. simpl.
    assert (He : ensure name_sha256sums
                   (store name_sha256sums (KPath path) value
                      (ensure name_sha256sums c))
                 = store name_sha256sums (KPath path) value
                     (ensure name_sha256sums c)).
    { unfold ensure at 1. unfold store at 1. by rewrite lookup_insert_eq. }
    rewrite He, Hc. done.
Qed.
End FSCacheFacts.

Lemma fscache_memoizes_witness :
  let before : fs := {[ lit "/home" := new_dir 0 ]} in
  let after : fs := ∅ in
  let sha : pystr → fs → result pyval := λ _ _, inr (VStr (lit "0a")) in
  let c1 := (FSCache.method FSCache.posix_ospath (lit "exists") [lit "/home"]
               before FSCache.init).2 in
  let c2 := FSCache.run_ops FSCache.posix_ospath sha
              [ FSCache.Method (lit "isdir") [lit "/home"] after;
                FSCache.Sha256sumOf (lit "/home") VNone after ] c1 in
  FSCache.method FSCache.posix_ospath (lit "exists") [lit "/home"] after c2
  = (inr (VBool true), c2)
  ∧ ∃ c3, FSCache.sha256sum_of sha (lit "/home") (VStr (lit "ff")) after c2
          = (inr (VStr (lit "ff")), c3)
        ∧ FSCache.sha256sum_of sha (lit "/home") VNone after c3
          = (inr (VStr (lit "ff")), c3).
Proof.
  intros before after sha c1 c2.
  destruct fscache_memoizes as (Hmemo & _ & Hsha).
  split.
  - refine (Hmemo FSCache.posix_ospath (lit "exists") [lit "/home"] before
              FSCache.init (VBool true) c1 _
              FSCache.posix_ospath sha _ after _).
    + rewrite (surjective_pairing (FSCache.method _ _ _ _ _)).
      apply (f_equal2 pair); [vm_compute|]; reflexivity.
    + vm_compute; reflexivity.
  - destruct (Hsha sha (lit "/home") (VStr (lit "ff")) after c2)
      as (c3 & H1 & _ & H3); [done|].
    exists c3. split; [exact H1|apply H3].
Defined.

(** ** [run]: a run that is in progress *)

(** C1: when the output directory of the run exists and holds the executing
    ping of the run, [run] raises the error that the run seems to be running
    already; nothing was created or written by then: the disk, and with it
    the rest of the state, is as it was before the call. *)
Theorem run_already_running
    (e : env) (s : step) (run_id : pystr) (r : Run.t) (m : machine) :
  get_run run_id s = inr (Some r) →
  path_isdir (disk m) (Run.get_output_directory r) = true →
  path_exists (disk m) (Run.get_executing_ping_file r) = true →
  run e s run_id m
  = (inl (UAPError (AlreadyRunning (get_step_name s) run_id)), m)
  ∧ preflight e s run_id m
    = (inl (UAPError (AlreadyRunning (get_step_name s) run_id)), m).
Proof.
  intros Hrun Hdir Hping.
  assert (Hpre : preflight e s run_id m
                 = (inl (UAPError (AlreadyRunning (get_step_name s) run_id)),
                    m)).
  { unfold preflight. rewrite Hrun. msimpl. rewrite Hdir. cbn [negb].
    by rewrite Hping. }
  split; [|exact Hpre].
  unfold run, bind at 1. by rewrite Hpre.
Qed.

(** Without the output directory there is no ping in it: [run] makes the
    directory first, and the check for the ping comes before the temporary
    directory and the ping are made. *)
Lemma run_already_running_after_makedirs
    (e : env) (s : step) (run_id : pystr) (r : Run.t) (m : machine) (f : fs) :
  get_run run_id s = inr (Some r) →
  path_isdir (disk m) (Run.get_output_directory r) = false →
  os_makedirs (now e) (Run.get_output_directory r) (disk m) = inr f →
  path_exists f (Run.get_executing_ping_file r) = true →
  run e s run_id m
  = (inl (UAPError (AlreadyRunning (get_step_name s) run_id)), with_disk f m).
Proof.
  intros Hrun Hdir Hmk Hping.
  unfold run, bind at 1. unfold preflight. rewrite Hrun. msimpl.
  rewrite Hdir. cbn [negb]. unfold os_call. rewrite Hmk.
  cbv beta iota delta [disk with_disk]. by rewrite Hping.
Qed.

Lemma run_already_running_witness :
  let r := Run.init (lit "S") (lit "/data/S") (lit "a") in
  let s := with_runs (Some [(lit "a", r)]) (init (lit "S") (lit "/data")) in
  let e := Env 5 (lit "2020") (lit "T") (lit "host") 1 (lit "me") false
             (λ f, Executed f) (λ _ _, inr (VStr (lit "00"))) None
             (λ _ _, inl ValueError) in
  let m := Machine
             ({[ lit "/data" := new_dir 0; lit "/data/S" := new_dir 1;
                 lit "/data/S/.a.executing.yaml" := new_file (VDict []) 2 ]})
             DEFAULT ∅ [] None [] [] [] [] None in
  run e s (lit "a") m = (inl (UAPError (AlreadyRunning (lit "S") (lit "a"))), m).
Proof.
  intros r s e m.
  apply (run_already_running e s (lit "a") r m); reflexivity.
Defined.

(** ** Required input connections that stay unsatisfied *)

(** C3, counterexample: a step requires [in/alignments] and [in/features];
    its only parent provides [out/alignments].  After the parent is bound,
    [in/features] is required and not satisfied, and yet
    [get_run_ids_in_connections_input_files] returns the collector, having
    logged two warnings, and [declare_runs] returns as well. *)
Lemma unsatisfied_required_connection_not_fatal :
  let r := get_run_ids_in_connections_input_files simple_collector
             counting_step in
  bool_decide (lit "in/features" ∈ get_in_connections false counting_step)
  = true
  ∧ match r.1 with
    | inr c =>
        bool_decide (lit "in/features"
                     ∉ cc_existing_connections simple_collector c)
    | inl _ => false
    end = true
  ∧ logged r.2
    = [ DebugConnecting (lit "mapper") (lit "htseq_count");
        DebugNotConnected (lit "mapper") (lit "htseq_count");
        WarnRequiredConnectionUnsatisfied [lit "in/features"]
          (lit "htseq_count");
        WarnDeprecationUnmetConnections ]
  ∧ is_ok (declare_runs simple_collector (λ _, ret tt) counting_step).1
    = true.
Proof. intros r. repeat split; vm_compute; reflexivity. Qed.

(** C3, amended: when a required input connection is still unsatisfied
    after the parents are bound, [get_run_ids_in_connections_input_files]
    logs two warnings, the second one the notice that this may become an
    error in a later version, and goes on; it returns the collector unless
    an output named in [_connect] was not recognized, so the unsatisfied
    connection does not make the build of the runs fail. *)
Theorem unsatisfied_required_connection_warns
    (col : collector) (set_out : gset pystr) (others : list pyval)
    (used : gset pystr) (c : cc col) (s : step) :
  get_in_connections false s ∖ cc_existing_connections col c ≠ ∅ →
  check_connections col set_out others used c s
  = (if bool_decide (set_out ∖ used = ∅) && bool_decide (others = [])
     then inr c
     else inl (UAPError (UnrecognizedConnections (get_step_name s)
                           (elements (set_out ∖ used)))),
     with_logged
       (logged s
        ++ [ WarnRequiredConnectionUnsatisfied
               (elements (get_in_connections false s
                          ∖ cc_existing_connections col c))
               (get_step_type s);
             WarnDeprecationUnmetConnections ]) s).
Proof.
  intros Hmissing. unfold check_connections, log. msimpl.
  rewrite (bool_decide_eq_false_2 _ Hmissing).
  destruct s as [n mo de dp op ru co cs ocs cf cd dopt np lg].
  unfold with_logged, get_step_name, get_step_type.
  cbv beta iota delta
    [_step_name module_name destination_path dependencies _options _runs
     _cores _connections _optional_connections _connection_formats
     _connection_descriptions _defined_options needs_parents logged].
  rewrite <- (assoc_L (++)).
  by destruct (bool_decide (set_out ∖ used = ∅) && bool_decide (others = [])).
Qed.

Lemma unsatisfied_required_connection_warns_witness :
  check_connections simple_collector ∅ [] {[ lit "mapper/alignments" ]}
    ({[ lit "in/alignments" ]} : gset pystr) counting_step
  = (inr {[ lit "in/alignments" ]},
     with_logged
       (logged counting_step
        ++ [ WarnRequiredConnectionUnsatisfied
               (elements (get_in_connections false counting_step
                          ∖ {[ lit "in/alignments" ]}))
               (get_step_type counting_step);
             WarnDeprecationUnmetConnections ]) counting_step).
Proof.
  rewrite (unsatisfied_required_connection_warns simple_collector ∅ []
             {[ lit "mapper/alignments" ]} ({[ lit "in/alignments" ]})
             counting_step).
  - rewrite (bool_decide_eq_true_2 (∅ ∖ _ = ∅)) by set_solver.
    reflexivity.
  - apply (bool_decide_unpack _). vm_compute. exact I.
Defined.

(** ** [RawUrlSource.runs] *)

Lemma declare_run_returns (run_id : pystr) (s s1 : step) (run : Run.t) :
  declare_run run_id s = (inr run, s1) →
  ∃ runs, _runs s = Some runs
          ∧ dict_get (re_sub_space (lit "_") run_id) runs = None
          ∧ run = Run.init (get_step_name s) (get_output_directory s)
                    (re_sub_space (lit "_") run_id)
          ∧ s1 = with_runs
                   (Some (runs ++ [(re_sub_space (lit "_") run_id, run)])) s.
Proof.
  unfold declare_run. msimpl. destruct (_runs s) as [runs|] eqn:Hruns; [|done].
  unfold dict_has.
  destruct (dict_get (re_sub_space (lit "_") run_id) runs) eqn:Hget; [done|].
  unfold add_run. msimpl. rewrite Hruns.
  cbv beta iota delta [fst snd]. rewrite (dict_set_absent _ _ _ Hget).
  intros [= <- <-]. by exists runs.
Qed.

(** The keys that the loop of [runs] assigns to leave the other keys of a
    download as they are. *)
Lemma download_defaults_get (k : pystr) (h sh u : pyval)
    (d : list (pystr * pyval)) :
  k ≠ lit "hashing-algorithm" → k ≠ lit "secure-hash" →
  k ≠ lit "uncompress" →
  dict_get k (dict_set (lit "uncompress") u
                (dict_set (lit "secure-hash") sh
                   (dict_set (lit "hashing-algorithm") h d)))
  = dict_get k d.
Proof.
  intros H1 H2 H3. rewrite !dict_get_set.
  rewrite !decide_False by done. done.
Qed.

Lemma write_back_fields (files : pystr) (d : list (pystr * pyval)) (s : step) :
  ∃ o, RawUrlSource.write_back files d s = (inr tt, with_options o s).
Proof.
  unfold RawUrlSource.write_back, modify.
  destruct (dict_get (lit "run-download-info") (_options s))
    as [[| | | | | |fd]|]; try (exists (_options s); by destruct s).
  by eexists.
Qed.

Lemma download_run_declares (urlparse_path : pyval → result pystr)
    (files : pystr) (downloads : pyval) (s s' : step) :
  RawUrlSource.download_run urlparse_path files downloads s = (inr tt, s') →
  ∃ d name runs,
    downloads = VDict d
    ∧ dict_get (lit "filename") d = Some (VStr name)
    ∧ _runs s = Some runs
    ∧ dict_get (re_sub_space (lit "_") files) runs = None
    ∧ _runs s'
      = Some (runs ++ [(re_sub_space (lit "_") files,
                        Run.Run (get_step_name s) (re_sub_space (lit "_") files)
                          (get_output_directory s)
                          [(lit "raw", [(Some name, Some [])])])]).
Proof.
  unfold RawUrlSource.download_run.
  destruct downloads as [| | | | | |d]; try done. cbv zeta.
  destruct (negb (bool_decide (filter _ (dict_keys d) = []))); [done|].
  destruct (negb (bool_decide (filter _ RawUrlSource.mandatory_opts = [])));
    [done|].
  match goal with
  | |- context [RawUrlSource.write_back files ?d'] =>
      destruct (write_back_fields files d' s) as [o Hwb]
  end.
  rewrite (bind_inr _ _ _ _ _ Hwb).
  rewrite !download_defaults_get by done.
  set (s0 := with_options o s).
  assert (Hs0 : _runs s0 = _runs s ∧ get_step_name s0 = get_step_name s
                ∧ get_output_directory s0 = get_output_directory s)
    by by destruct s.
  destruct Hs0 as (Hruns0 & Hname0 & Hout0).
  repeat (match goal with
          | |- context [if ?b then _ else _] => destruct b; [done|]
          end).
  destruct (dict_get (lit "url") d) as [url|]; [|done].
  destruct (dict_get (lit "filename") d) as [filename|] eqn:Hname; [|done].
  destruct (urlparse_path url) as [x|path]; [done|].
  destruct (splitext (basename path)) as [root ext].
  destruct (negb _ && _); [done|].
  destruct filename as [| | | |name| |]; try done.
  destruct (splitext (basename name)) as [root' ext'].
  destruct (_ && _ && bool_decide (ext' ∈ RawUrlSource.gz_endings)); [done|].
  unfold bind at 1.
  destruct (declare_run files s0) as [[x|run] s1] eqn:Hdecl; [done|].
  apply declare_run_returns in Hdecl as (runs & Hruns & Hnone & -> & ->).
  rewrite Hruns0 in Hruns. rewrite Hname0, Hout0.
  unfold RawUrlSource.add_output_file. msimpl.
  cbv beta iota delta [with_runs _runs Run.get_run_id Run.init Run.run_id].
  rewrite dict_get_app, Hnone.
  cbn [dict_get]. rewrite decide_True by done.
  intros [= <-]. exists d, name, runs.
  repeat split; [done..|].
  cbv beta iota delta [with_runs _runs]. f_equal.
  by rewrite (dict_set_app_absent _ _ _ _ Hnone).
Qed.

Lemma download_run_output (urlparse_path : pyval → result pystr)
    (files : pystr) (downloads : pyval) (s s' : step) :
  RawUrlSource.download_run urlparse_path files downloads s = (inr tt, s') →
  ∃ d name run,
    downloads = VDict d
    ∧ dict_get (lit "filename") d = Some (VStr name)
    ∧ get_run (re_sub_space (lit "_") files) s' = inr (Some run)
    ∧ Run.get_output_files run = [(lit "raw", [(Some name, Some [])])].
Proof.
  intros H.
  apply download_run_declares in H as (d & name & runs & -> & Hn & _ & Hnone & Hs').
  exists d, name. eexists. split; [done|]. split; [done|].
  unfold get_run. rewrite Hs', dict_get_app, Hnone. cbn [dict_get].
  rewrite decide_True by done. split; reflexivity.
Qed.

Lemma download_run_keeps_runs (urlparse_path : pyval → result pystr)
    (files : pystr) (downloads : pyval) (s s' : step) (k : pystr) (run : Run.t) :
  RawUrlSource.download_run urlparse_path files downloads s = (inr tt, s') →
  get_run k s = inr (Some run) → get_run k s' = inr (Some run).
Proof.
  intros H.
  apply download_run_declares in H as (d & name & runs & _ & _ & Hs & _ & Hs').
  unfold get_run. rewrite Hs, Hs', dict_get_app.
  by intros [= ->].
Qed.

Lemma download_loop_keeps_runs (urlparse_path : pyval → result pystr)
    (fd : list (pystr * pyval)) (s s' : step) (k : pystr) (run : Run.t) :
  for_each fd (λ x, RawUrlSource.download_run urlparse_path x.1 x.2) s
  = (inr tt, s') →
  get_run k s = inr (Some run) → get_run k s' = inr (Some run).
Proof.
  revert s. induction fd as [|y fd IH]; intros s; simpl.
  - by intros [= <-].
  - unfold bind.
    destruct (RawUrlSource.download_run urlparse_path y.1 y.2 s)
      as [[x|[]] s1] eqn:Hy; [done|].
    intros Hrest Hk. apply (IH s1 Hrest).
    by eapply download_run_keeps_runs.
Qed.

(** C5: an item of [run-download-info] for which the body of the loop of
    [runs] returns normally declares one output file on the connection
    [raw], and its name is the [filename] the item gives; this holds
    whatever [urlparse] makes of the URL, so the name that is first derived
    from the URL has no part in it.  When [runs] returns normally this is so
    for the run of every item. *)
Theorem raw_url_output_is_user_filename
    (urlparse_path : pyval → result pystr) :
  (∀ files downloads s s',
     RawUrlSource.download_run urlparse_path files downloads s = (inr tt, s') →
     ∃ d name run,
       downloads = VDict d
       ∧ dict_get (lit "filename") d = Some (VStr name)
       ∧ get_run (re_sub_space (lit "_") files) s' = inr (Some run)
       ∧ Run.get_output_files run = [(lit "raw", [(Some name, Some [])])])
  ∧ (∀ file_download s s',
       get_option (lit "run-download-info") s = inr (VDict file_download) →
       RawUrlSource.runs urlparse_path s = (inr tt, s') →
       ∀ files downloads, (files, downloads) ∈ file_download →
         ∃ d name run,
           downloads = VDict d
           ∧ dict_get (lit "filename") d = Some (VStr name)
           ∧ get_run (re_sub_space (lit "_") files) s' = inr (Some run)
           ∧ Run.get_output_files run
             = [(lit "raw", [(Some name, Some [])])]).
Proof.
  split; [apply download_run_output|].
  intros fd s s' Hopt. unfold RawUrlSource.runs. msimpl. rewrite Hopt.
  clear Hopt. revert s. induction fd as [|y fd IH]; intros s Hruns files downloads Hin.
  - by apply elem_of_nil in Hin.
  - simpl in Hruns. unfold bind in Hruns.
    destruct (RawUrlSource.download_run urlparse_path y.1 y.2 s)
      as [[x|[]] s1] eqn:Hy; [done|].
    apply elem_of_cons in Hin as [Heq|Hin].
    + subst y. cbn [fst snd] in Hy.
      apply download_run_output in Hy as (d & name & run & ? & ? & Hget & ?).
      exists d, name, run. repeat split; try done.
      by eapply download_loop_keeps_runs.
    + by eapply IH.
Qed.

Lemma raw_url_output_is_user_filename_witness :
  ∃ run, get_run (lit "my_run")
           (RawUrlSource.runs simple_urlparse_path download_step).2
         = inr (Some run)
       ∧ Run.get_output_files run
         = [(lit "raw", [(Some (lit "reads.fastq"), Some [])])].
Proof.
  destruct (raw_url_output_is_user_filename simple_urlparse_path) as [_ H].
  destruct (H _ download_step
              (RawUrlSource.runs simple_urlparse_path download_step).2
              ltac:(vm_compute; reflexivity)
              ltac:(rewrite (surjective_pairing (RawUrlSource.runs _ _));
                    apply (f_equal2 pair); [vm_compute|]; reflexivity)
              (lit "my run") _ (list_elem_of_here _ _))
    as (d & name & run & Hd & Hname & Hrun & Hout).
  injection Hd as <-. vm_compute in Hname. injection Hname as <-.
  exists run. split; [exact Hrun|exact Hout].
Defined.

(** ** The order of [_depends] *)

Lemma bind_returns {S A B} (c : M S A) (k : A → M S B) s b s' :
  bind c k s = (inr b, s') → ∃ a s1, c s = (inr a, s1) ∧ k a s1 = (inr b, s').
Proof. unfold bind. destruct (c s) as [[x|a] s1]; [done|]. eauto. Qed.

Lemma for_each_cons_returns {S A} (x : A) (l : list A) (body : A → M S unit)
    s s' :
  for_each (x :: l) body s = (inr tt, s') →
  ∃ s1, body x s = (inr tt, s1) ∧ for_each l body s1 = (inr tt, s').
Proof.
  simpl. intros H. apply bind_returns in H as ([] & s1 & ? & ?). eauto.
Qed.

Lemma for_each_app {S A} (l l' : list A) (body : A → M S unit) s :
  for_each (l ++ l') body s = (for_each l body ;; for_each l' body)%py s.
Proof.
  revert s. induction l as [|x l IH]; intros s; simpl.
  - unfold bind, ret. reflexivity.
  - unfold bind. destruct (body x s) as [[?|[]] s1]; [done|]. apply IH.
Qed.

Lemma for_each_concat {S A B} (l : list A) (f : A → list B)
    (body : B → M S unit) s :
  for_each l (λ a, for_each (f a) body) s
  = for_each (concat (f <$> l)) body s.
Proof.
  revert s. induction l as [|x l IH]; intros s; simpl; [done|].
  rewrite for_each_app. unfold bind.
  destruct (for_each (f x) body s) as [[?|[]] s1]; [done|]. apply IH.
Qed.

Lemma dict_get_not_key {V} (k : pystr) (d : list (pystr * V)) :
  k ∉ dict_keys d → dict_get k d = None.
Proof.
  induction d as [|[k0 v0] d IH]; simpl; [done|].
  intros Hk. apply not_elem_of_cons in Hk as [Hne Hk].
  rewrite decide_False by done. by apply IH.
Qed.

Lemma dict_get_setdefault {V} (k k' : pystr) (v : V) (d : list (pystr * V)) :
  dict_get k (dict_setdefault k' v d)
  = match dict_get k d with
    | Some x => Some x
    | None => if decide (k' = k) then Some v else None
    end.
Proof.
  unfold dict_setdefault, dict_has.
  destruct (dict_get k' d) eqn:Hk'.
  - destruct (dict_get k d) eqn:Hk; [done|].
    destruct (decide (k' = k)) as [->|]; [congruence|done].
  - rewrite dict_get_app. destruct (dict_get k d); [done|]. simpl.
    by destruct (decide (k' = k)).
Qed.

Lemma foldl_dict_set_get (k : pystr) (options d : list (pystr * pyval)) :
  NoDup (dict_keys options) →
  dict_get k (foldl (λ d kv, dict_set kv.1 kv.2 d) d options)
  = match dict_get k options with
    | Some v => Some v
    | None => dict_get k d
    end.
Proof.
  revert d. induction options as [|[k0 v0] options IH]; intros d Hnd; [done|].
  apply NoDup_cons in Hnd as [Hk0 Hnd]. cbn [fst] in Hk0. simpl.
  rewrite (IH _ Hnd), dict_get_set.
  destruct (decide (k0 = k)) as [->|]; [|done].
  by rewrite (dict_get_not_key _ _ Hk0).
Qed.

Lemma set_option_returns key value s s' :
  set_option key value s = (inr tt, s') →
  s' = with_options (dict_set key value (_options s)) s.
Proof.
  unfold set_option, store_option, log. destruct key as [|c key]; [done|].
  msimpl. destruct (c =? ch_underscore)%N.
  - destruct (bool_decide _); [|done]. by intros [= <-].
  - destruct (dict_get _ (_defined_options s)) as [info|]; [|done].
    destruct (negb _ && _); [done|].
    destruct (choices info); try (by intros [= <-]);
      (destruct (py_contains _ _) as [|[]]; [done| |done]);
      by intros [= <-].
Qed.

Lemma set_option_loop_returns options s s' :
  for_each options (λ kv, set_option kv.1 kv.2) s = (inr tt, s') →
  _options s' = foldl (λ d kv, dict_set kv.1 kv.2 d) (_options s) options
  ∧ _defined_options s' = _defined_options s.
Proof.
  revert s. induction options as [|[k v] options IH]; intros s H.
  - by injection H as <-.
  - apply for_each_cons_returns in H as (s1 & H1 & H).
    apply set_option_returns in H1 as ->.
    apply IH in H as [-> ->]. done.
Qed.

Lemma default_option_loop_returns (l : list (pystr * option_info)) s s' k :
  for_each l (λ ki, default_option ki.1 ki.2) s = (inr tt, s') →
  k ∉ dict_keys l →
  dict_get k (_options s') = dict_get k (_options s).
Proof.
  revert s. induction l as [|[k0 info] l IH]; intros s H Hk.
  - by injection H as <-.
  - apply for_each_cons_returns in H as (s1 & H1 & H).
    apply not_elem_of_cons in Hk as [Hne Hk].
    rewrite (IH _ H Hk). clear IH H.
    unfold default_option, store_option in H1. msimpl.
    cbn [fst snd] in H1.
    destruct (dict_has k0 (_options s)); [by injection H1 as <-|].
    destruct (negb _); [done|]. injection H1 as <-.
    destruct s. cbv beta iota delta [with_options _options].
    rewrite dict_get_set. by rewrite decide_False.
Qed.

Lemma setdefault_option_get key value k s :
  dict_get k (_options (setdefault_option key value s).2)
  = match dict_get k (_options s) with
    | Some x => Some x
    | None => if decide (key = k) then Some value else None
    end.
Proof.
  unfold setdefault_option, modify. destruct s.
  cbv beta iota delta [with_options _options snd].
  apply dict_get_setdefault.
Qed.

Lemma implied_loop_returns (values : list pyval) s s' deps :
  for_each values add_implied_dependency s = (inr tt, s') →
  dict_get (lit "_depends") (_options s) = Some (VList deps) →
  dict_get (lit "_depends") (_options s')
  = Some (VList (depends_after deps
                   (omap (λ v, match v with
                               | VStr pc => Some (split_head ch_slash pc)
                               | _ => None
                               end) values)))
  ∧ ∀ k, k ≠ lit "_depends" →
         dict_get k (_options s') = dict_get k (_options s).
Proof.
  revert s deps. induction values as [|v values IH]; intros s deps H Hd.
  - injection H as <-. done.
  - apply for_each_cons_returns in H as (s1 & H1 & H).
    unfold add_implied_dependency, store_option in H1.
    destruct v as [| | | |pc| |]; try done.
    msimpl. rewrite Hd in H1. cbn [omap list_omap depends_after].
    destruct (negb (py_in (VStr (split_head ch_slash pc)) deps)
              && negb (bool_decide (split_head ch_slash pc = lit "empty"))).
    + injection H1 as <-.
      destruct (IH _ (deps ++ [VStr (split_head ch_slash pc)]) H) as [-> Hk].
      { destruct s. cbv beta iota delta [with_options _options].
        rewrite dict_get_set. by rewrite decide_True. }
      split; [done|]. intros k Hne. rewrite (Hk k Hne).
      destruct s. cbv beta iota delta [with_options _options].
      rewrite dict_get_set. by rewrite decide_False.
    + injection H1 as <-. by apply IH.
Qed.

Lemma py_in_app (x : pyval) (l l' : list pyval) :
  py_in x (l ++ l') = py_in x l || py_in x l'.
Proof. unfold py_in. apply existsb_app. Qed.

Lemma py_in_names (p : pystr) (seen : list pystr) :
  py_in (VStr p) (VStr <$> seen) = bool_decide (p ∈ seen).
Proof.
  induction seen as [|q seen IH]; [done|].
  unfold py_in in *. rewrite fmap_cons.
  change (py_eq (VStr p) (VStr q) || existsb (py_eq (VStr p)) (VStr <$> seen)
          = bool_decide (p ∈ q :: seen)).
  rewrite IH. change (py_eq (VStr p) (VStr q)) with (bool_decide (p = q)).
  destruct (decide (p = q)) as [->|Hne].
  - rewrite (bool_decide_eq_true_2 (q = q)) by done.
    by rewrite (bool_decide_eq_true_2 (q ∈ q :: seen)) by left.
  - rewrite (bool_decide_eq_false_2 (p = q)) by done. cbn [orb].
    apply bool_decide_ext. rewrite elem_of_cons.
    split; [by right|by intros [?|?]].
Qed.

(** The loop of the program appends what the specification describes. *)
Lemma depends_after_spec (explicit : list pyval) (seen parents : list pystr) :
  (∀ q, q ∈ seen → py_in (VStr q) explicit = false ∧ q ≠ lit "empty") →
  depends_after (explicit ++ (VStr <$> seen)) parents
  = explicit ++ (VStr <$> seen)
    ++ (VStr <$> first_occurrences seen
                   (filter (λ p, py_in (VStr p) explicit = false
                                 ∧ p ≠ lit "empty") parents)).
Proof.
  revert seen. induction parents as [|p ps IH]; intros seen Hseen.
  - cbn. by rewrite app_nil_r.
  - cbn [depends_after]. rewrite py_in_app, py_in_names.
    rewrite filter_cons.
    destruct (decide (py_in (VStr p) explicit = false ∧ p ≠ lit "empty"))
      as [[Hp He]|Hno].
    + rewrite Hp, (bool_decide_eq_false_2 _ He). cbn [orb negb andb].
      cbn [first_occurrences].
      destruct (bool_decide (p ∈ seen)) eqn:Hin; cbn [negb andb].
      * by apply IH.
      * rewrite <- (assoc_L (++)).
        change [VStr p] with (VStr <$> [p]). rewrite <- fmap_app.
        rewrite IH.
        -- rewrite fmap_app. cbn [fmap list_fmap].
           by rewrite <- !(assoc_L (++)).
        -- intros q Hq. apply elem_of_app in Hq as [Hq|Hq]; [by apply Hseen|].
           apply list_elem_of_singleton in Hq as ->. done.
    + assert (Hskip : negb (py_in (VStr p) explicit || bool_decide (p ∈ seen))
                      && negb (bool_decide (p = lit "empty")) = false).
      { destruct (py_in (VStr p) explicit) eqn:Hp; [done|].
        destruct (decide (p = lit "empty")) as [He|He].
        - rewrite (bool_decide_eq_true_2 _ He). by rewrite andb_false_r.
        - exfalso. by apply Hno. }
      rewrite Hskip. by apply IH.
Qed.

Lemma setdefault_option_returns key value s s' k :
  setdefault_option key value s = (inr tt, s') →
  dict_get k (_options s')
  = match dict_get k (_options s) with
    | Some x => Some x
    | None => if decide (key = k) then Some value else None
    end.
Proof. intros [= <-]. apply (setdefault_option_get key value k s). Qed.

Lemma setdefault_loop_returns (l : list pystr) value s s' k :
  for_each l (λ i, setdefault_option i value) s = (inr tt, s') →
  k ∉ l → dict_get k (_options s') = dict_get k (_options s).
Proof.
  revert s. induction l as [|i l IH]; intros s H Hk.
  - by injection H as <-.
  - apply for_each_cons_returns in H as (s1 & H1 & H).
    apply not_elem_of_cons in Hk as [Hne Hk].
    rewrite (IH _ H Hk), (setdefault_option_returns _ _ _ _ k H1).
    destruct (dict_get k (_options s)); [done|]. by rewrite decide_False.
Qed.

Lemma wrap_depends_returns s s' v :
  wrap_depends s = (inr tt, s') →
  dict_get (lit "_depends") (_options s) = Some v →
  dict_get (lit "_depends") (_options s')
  = Some (VList (match v with VList l => l | _ => [v] end))
  ∧ ∀ k, k ≠ lit "_depends" →
         dict_get k (_options s') = dict_get k (_options s).
Proof.
  unfold wrap_depends, store_option. msimpl. intros H Hv. rewrite Hv in H.
  destruct v; injection H as <-; try done;
    destruct s; cbv beta iota delta [with_options _options];
    (split; [by rewrite dict_get_set, decide_True|]);
    intros k Hk; by rewrite dict_get_set, decide_False.
Qed.

Lemma literal_key_not_declared (defined : list (pystr * option_info)) k :
  underscore_free defined → head k = Some ch_underscore →
  k ∉ dict_keys defined.
Proof. intros Hfree Hk Hin. by apply (Hfree k Hin). Qed.

(** C8: when [set_options] returns, [_depends] is a list: the explicit
    entries of the configuration in their order (a single value counts as a
    list of one), followed by the parent step names that the bindings of
    [_connect] refer to, in the order of their first mention, without those
    that the list holds already and without [empty]. *)
Theorem set_options_depends_order
    (options : list (pystr * pyval)) (s s' : step) :
  NoDup (dict_keys options) →
  underscore_free (_defined_options s) →
  set_options options s = (inr tt, s') →
  dict_get (lit "_depends") (_options s')
  = Some (VList (explicit_depends options
                 ++ (VStr <$> implied_dependencies (explicit_depends options)
                                (configured_connect options)))).
Proof.
  intros Hnd Hfree H. unfold set_options in H.
  apply bind_returns in H as ([] & s0 & H0 & H). injection H0 as <-.
  apply bind_returns in H as ([] & s1 & H1 & H).
  apply bind_returns in H as ([] & s2 & H2 & H).
  apply bind_returns in H as ([] & s3 & H3 & H).
  apply bind_returns in H as ([] & s4 & H4 & H).
  apply bind_returns in H as ([] & s5 & H5 & H).
  apply bind_returns in H as ([] & s6 & H6 & H).
  apply bind_returns in H as ([] & s7 & H7 & H).
  apply bind_returns in H as ([] & s8 & H8 & H).
  apply set_option_loop_returns in H1 as [Hopts Hdef].
  unfold bind, get in H2. rewrite Hdef in H2.
  assert (Hdef0 : _defined_options (with_options [] s) = _defined_options s)
    by by destruct s.
  rewrite Hdef0 in H2.
  assert (Hbound : ∀ k, head k = Some ch_underscore →
            dict_get k (_options s2) = dict_get k options).
  { intros k Hk.
    rewrite (default_option_loop_returns _ _ _ k H2)
      by by apply literal_key_not_declared.
    rewrite Hopts, (foldl_dict_set_get k options _ Hnd).
    destruct (dict_get k options); [done|]. by destruct s. }
  assert (Hdep7 : dict_get (lit "_depends") (_options s7)
                  = Some (default (VList [])
                            (dict_get (lit "_depends") options))).
  { rewrite (setdefault_option_returns _ _ _ _ _ H7).
    rewrite (setdefault_option_returns _ _ _ _ _ H6).
    rewrite (setdefault_option_returns _ _ _ _ _ H5).
    rewrite (setdefault_loop_returns _ _ _ _ (lit "_depends") H4)
      by (apply (bool_decide_unpack _); vm_compute; exact I).
    rewrite (setdefault_option_returns _ _ _ _ _ H3).
    rewrite (Hbound (lit "_depends") eq_refl).
    by destruct (dict_get (lit "_depends") options). }
  assert (Hcon7 : dict_get (lit "_connect") (_options s7)
                  = Some (default (VDict [])
                            (dict_get (lit "_connect") options))).
  { rewrite (setdefault_option_returns _ _ _ _ _ H7).
    rewrite (setdefault_option_returns _ _ _ _ _ H6).
    rewrite (setdefault_option_returns _ _ _ _ _ H5).
    rewrite (setdefault_loop_returns _ _ _ _ (lit "_connect") H4)
      by (apply (bool_decide_unpack _); vm_compute; exact I).
    rewrite (setdefault_option_returns _ _ _ _ _ H3).
    rewrite (Hbound (lit "_connect") eq_refl).
    by destruct (dict_get (lit "_connect") options). }
  destruct (wrap_depends_returns _ _ _ H8 Hdep7) as [Hdep8 Hother8].
  assert (Hcon8 := Hother8 (lit "_connect")
                     ltac:(apply (bool_decide_unpack _); vm_compute; exact I)).
  rewrite Hcon7 in Hcon8.
  assert (Hdep8' : dict_get (lit "_depends") (_options s8)
                   = Some (VList (explicit_depends options))).
  { rewrite Hdep8. unfold explicit_depends.
    by destruct (dict_get (lit "_depends") options) as [[]|]. }
  clear Hdep8. rename Hdep8' into Hdep8.
  unfold add_implied_dependencies in H. msimpl. rewrite Hcon8 in H.
  destruct (default (VDict []) (dict_get (lit "_connect") options))
    as [| | | | | |connect] eqn:Hconnect; try done.
  assert (Hconf : configured_connect options = connect).
  { unfold configured_connect.
    destruct (dict_get (lit "_connect") options) as [v|]; simpl in Hconnect.
    - by subst v.
    - by injection Hconnect as <-. }
  rewrite (for_each_concat (dict_values connect) as_list) in H.
  destruct (implied_loop_returns _ _ _ _ H Hdep8) as [-> _].
  unfold implied_dependencies. rewrite Hconf.
  unfold dict_values. rewrite <- list_fmap_compose.
  change (concat (_ <$> connect)) with (binding_values connect).
  fold (binding_parents connect).
  rewrite <- (app_nil_r (explicit_depends options)) at 1.
  change [] with (VStr <$> ([] : list pystr)) at 1.
  rewrite depends_after_spec.
  - by rewrite fmap_nil, app_nil_l.
  - intros q Hq. by apply elem_of_nil in Hq.
Qed.

(** [add_option] keeps the declared options free of underscore keys. *)
Lemma add_option_underscore_free k t o d de ch s :
  underscore_free (_defined_options s) →
  underscore_free (_defined_options (add_option k t o d de ch s).2).
Proof.
  intros Hfree. unfold add_option. destruct k as [|c k]; [done|]. msimpl.
  destruct (c =? ch_underscore)%N eqn:Hc; [done|].
  repeat (match goal with
          | |- context [if ?b then _ else _] => destruct b; [done|]
          end).
  assert (Hset : ∀ info, underscore_free
                     (dict_set (c :: k) info (_defined_options s))).
  { intros info q Hq. unfold dict_keys in Hq.
    apply list_elem_of_fmap in Hq as [[q' i] [-> Hq]]. cbn [fst].
    destruct (decide (q' = c :: k)) as [->|Hne].
    - cbn. intros [= ->]. by rewrite N.eqb_refl in Hc.
    - apply Hfree. unfold dict_keys. apply list_elem_of_fmap.
      revert Hq. generalize (_defined_options s). intros l.
      induction l as [|[k0 i0] l IH]; cbn [dict_set].
      + intros Hq. apply list_elem_of_singleton in Hq. congruence.
      + destruct (decide (k0 = c :: k)) as [->|Hk0].
        * intros Hq. apply elem_of_cons in Hq as [Hq|Hq]; [congruence|].
          exists (q', i). split; [done|by right].
        * intros Hq. apply elem_of_cons in Hq as [Hq|Hq].
          -- injection Hq as -> ->. exists (k0, i0). split; [done|by left].
          -- destruct (IH Hq) as [x [Hx1 Hx2]]. exists x.
             split; [done|by right]. }
  destruct de; try done; destruct s; apply Hset.
Qed.


Lemma set_options_depends_order_witness :
  dict_get (lit "_depends")
    (_options (set_options example_options
                 (init (lit "htseq_count") (lit "/data"))).2)
  = Some (VList [ VStr (lit "b"); VStr (lit "a"); VStr (lit "c");
                  VStr (lit "d") ]).
Proof.
  assert (Hnd : NoDup (dict_keys example_options))
    by (apply (bool_decide_unpack _); vm_compute; exact I).
  assert (Hfree : underscore_free
                    (_defined_options (init (lit "htseq_count") (lit "/data"))))
    by (intros k Hk; by apply elem_of_nil in Hk).
  assert (Hrun : set_options example_options
                   (init (lit "htseq_count") (lit "/data"))
                 = (inr tt, (set_options example_options
                               (init (lit "htseq_count") (lit "/data"))).2)).
  { rewrite (surjective_pairing (set_options _ _)) at 1.
    apply (f_equal2 pair); [vm_compute|]; reflexivity. }
  pose proof (set_options_depends_order _ _ _ Hnd Hfree Hrun) as H.
  rewrite H.
  vm_compute.
  reflexivity.
Defined.

(** ** The reserved option keys *)

Section AcceptsKeys.
Context {S : Type}.

Lemma accepts_ret {A} (a : A) : accepts_keys (@ret S A a).
Proof. intros s key. discriminate. Qed.
Lemma accepts_get : accepts_keys (@get S).
Proof. intros s key. discriminate. Qed.
Lemma accepts_modify (f : S → S) : accepts_keys (modify f).
Proof. intros s key. discriminate. Qed.
Lemma accepts_raise {A} (x : exn) :
(∀ key, x ≠ UAPError (InvalidOption key)) → accepts_keys (@raise S A x).
Proof. intros H s key [= Hx]. by apply (H key). Qed.
Lemma accepts_bind {A B} (c : M S A) (k : A → M S B) :
accepts_keys c → (∀ a, accepts_keys (k a)) → accepts_keys (bind c k).
Proof.
intros Hc Hk s key. unfold bind. specialize (Hc s key).
destruct (c s) as [[x|a] s']; [|apply Hk].
intros [= ->]. by apply Hc.
Qed.
Lemma accepts_if {A} (b : bool) (c d : M S A) :
accepts_keys c → accepts_keys d → accepts_keys (if b then c else d).
Proof. by destruct b. Qed.
Lemma accepts_for_each {A} (l : list A) (body : A → M S unit) :
(∀ a, accepts_keys (body a)) → accepts_keys (for_each l body).
Proof.
intros Hb. induction l as [|a l IH]; cbn [for_each]; [apply accepts_ret|].
apply accepts_bind; [apply Hb|]. intros _. exact IH.
Qed.
End AcceptsKeys.

Ltac accepts_step :=
  first
    [ apply accepts_ret | apply accepts_get | apply accepts_modify
    | apply accepts_raise; intros ?; discriminate
    | apply accepts_bind; [|intros ?]
    | apply accepts_if
    | apply accepts_for_each; intros ?
    | match goal with
      | |- accepts_keys (match ?x with _ => _ end) => destruct x
      end ].

(** What follows the loop over the configuration in [set_options] has
    errors of its own. *)
Lemma defaults_accept_keys :
  accepts_keys
    ((do s <- get;
      for_each (_defined_options s) (λ ki, default_option ki.1 ki.2)) ;;
     setdefault_option (lit "_volatile") (VBool false) ;;
     for_each [ lit "_cluster_submit_options"; lit "_cluster_pre_job_command";
                lit "_cluster_post_job_command" ]
              (λ i, setdefault_option i (VStr [])) ;;
     setdefault_option (lit "_cluster_job_quota") (VInt 0) ;;
     setdefault_option (lit "_connect") (VDict []) ;;
     setdefault_option (lit "_depends") (VList []) ;;
     wrap_depends ;;
     add_implied_dependencies)%py.
Proof.
  unfold default_option, setdefault_option, wrap_depends,
    add_implied_dependencies, add_implied_dependency, store_option.
  repeat accepts_step.
Qed.

Lemma py_contains_raises (x container : pyval) (e : exn) :
  py_contains x container = inl e → e = TypeError.
Proof. unfold py_contains. repeat case_match; congruence. Qed.

Lemma set_option_plain_accepts (c : N) (k : pystr) (value : pyval) :
  (c =? ch_underscore)%N = false → accepts_keys (set_option (c :: k) value).
Proof.
  intros Hc. unfold set_option. rewrite Hc. unfold log, store_option.
  apply accepts_bind; [apply accepts_get|intros s].
  destruct (dict_get (c :: k) (_defined_options s)) as [info|];
    [|repeat accepts_step].
  apply accepts_if; [repeat accepts_step|].
  destruct (choices info) as [| | | | | |];
    try (repeat accepts_step; fail);
    (match goal with
     | |- accepts_keys (match py_contains ?x ?l with _ => _ end) =>
         destruct (py_contains x l) as [e|[]] eqn:He;
         [rewrite (py_contains_raises _ _ _ He)| |]
     end; repeat accepts_step).
Qed.

Lemma set_option_invalid (k key : pystr) (value : pyval) (s : step) :
  (set_option k value s).1 = inl (UAPError (InvalidOption key)) →
  key = k ∧ head k = Some ch_underscore ∧ k ∉ reserved_keys.
Proof.
  destruct k as [|c k]; [done|].
  destruct (c =? ch_underscore)%N eqn:Hc.
  - apply N.eqb_eq in Hc as ->. unfold set_option.
    rewrite N.eqb_refl. change UNDERSCORE_OPTIONS with reserved_keys.
    destruct (decide (ch_underscore :: k ∈ reserved_keys)) as [Hin|Hout].
    + by rewrite (bool_decide_eq_true_2 _ Hin).
    + rewrite (bool_decide_eq_false_2 _ Hout). by intros [= <-].
  - intros H. by destruct (set_option_plain_accepts c k value Hc s key).
Qed.

Lemma set_option_loop_invalid (options : list (pystr * pyval)) (key : pystr)
    (s : step) :
  (for_each options (λ kv, set_option kv.1 kv.2) s).1
  = inl (UAPError (InvalidOption key)) →
  key ∈ dict_keys options ∧ head key = Some ch_underscore
  ∧ key ∉ reserved_keys.
Proof.
  revert s. induction options as [|[k v] options IH]; intros s; [done|].
  cbn [for_each fst snd]. unfold bind.
  destruct (set_option k v s) as [[x|[]] s1] eqn:Hk.
  - intros [= ->].
    destruct (set_option_invalid k key v s) as (-> & Hhead & Hout).
    { by rewrite Hk. }
    split; [by left|done].
  - intros H. destruct (IH _ H) as (Hin & Hhead & Hout).
    split; [by right|done].
Qed.

(** The reserved keys begin with an underscore. *)
Lemma reserved_key_underscore (key : pystr) :
  key ∈ reserved_keys → head key = Some ch_underscore.
Proof.
  intros H. unfold reserved_keys in H.
  repeat (apply elem_of_cons in H as [->|H]; [reflexivity|]).
  by apply elem_of_nil in H.
Qed.

Lemma set_option_reserved (key : pystr) (value : pyval) (s : step) :
  key ∈ reserved_keys →
  set_option key value s
  = (inr tt, with_options (dict_set key value (_options s)) s).
Proof.
  intros Hin. pose proof (reserved_key_underscore key Hin) as Hhead.
  destruct key as [|c key]; [done|]. injection Hhead as ->.
  unfold set_option. rewrite N.eqb_refl.
  change UNDERSCORE_OPTIONS with reserved_keys.
  by rewrite (bool_decide_eq_true_2 _ Hin).
Qed.

Lemma set_option_loop_reserved (options : list (pystr * pyval)) (s : step) :
  (∀ key, key ∈ dict_keys options → key ∈ reserved_keys) →
  ∃ s', for_each options (λ kv, set_option kv.1 kv.2) s = (inr tt, s').
Proof.
  revert s. induction options as [|[k v] options IH]; intros s Hkeys.
  { by exists s. }
  cbn [for_each fst snd].
  rewrite (bind_inr _ _ _ _ _ (set_option_reserved k v s
                                 (Hkeys k ltac:(by left)))).
  apply IH. intros key Hkey. apply Hkeys. by right.
Qed.

Lemma default_loop_optional (l : list (pystr * option_info)) (s : step) :
  (∀ key info, (key, info) ∈ l → is_true (optional info) = true) →
  ∃ s', for_each l (λ ki, default_option ki.1 ki.2) s = (inr tt, s').
Proof.
  revert s. induction l as [|[k info] l IH]; intros s Hopt.
  { by exists s. }
  cbn [for_each fst snd].
  assert (Hk : ∃ s1, default_option k info s = (inr tt, s1)).
  { unfold default_option, store_option. rewrite bind_get.
    destruct (dict_has k (_options s)); [by eexists|].
    rewrite (Hopt k info ltac:(by left)). by eexists. }
  destruct Hk as [s1 Hk]. rewrite (bind_inr _ _ _ _ _ Hk).
  apply IH. intros key i Hin. apply (Hopt key i). by right.
Qed.

Lemma implied_loop_strings (values : list pyval) (s : step)
    (deps : list pyval) :
  (∀ x, x ∈ values → ∃ pc, x = VStr pc) →
  dict_get (lit "_depends") (_options s) = Some (VList deps) →
  ∃ s', for_each values add_implied_dependency s = (inr tt, s').
Proof.
  revert s deps. induction values as [|v values IH]; intros s deps Hstr Hd.
  { by exists s. }
  cbn [for_each].
  destruct (Hstr v ltac:(by left)) as [pc ->].
  assert (Hv : ∃ s1 deps1,
            add_implied_dependency (VStr pc) s = (inr tt, s1)
            ∧ dict_get (lit "_depends") (_options s1) = Some (VList deps1)).
  { unfold add_implied_dependency, store_option. rewrite bind_get, Hd.
    destruct (negb _ && negb _).
    - eexists. eexists. split; [reflexivity|].
      destruct s. cbv beta iota delta [with_options _options].
      rewrite dict_get_set. by rewrite decide_True.
    - by exists s, deps. }
  destruct Hv as (s1 & deps1 & Hv & Hd1). rewrite (bind_inr _ _ _ _ _ Hv).
  apply (IH s1 deps1); [|done]. intros x Hx. apply Hstr. by right.
Qed.

Lemma dict_get_elem {V} (k : pystr) (v : V) (d : list (pystr * V)) :
  NoDup (dict_keys d) → (k, v) ∈ d → dict_get k d = Some v.
Proof.
  induction d as [|[k0 v0] d IH]; intros Hnd Hin.
  { by apply elem_of_nil in Hin. }
  apply NoDup_cons in Hnd as [Hk0 Hnd]. cbn [dict_get].
  apply elem_of_cons in Hin as [[= <- <-]|Hin].
  - by rewrite decide_True.
  - rewrite decide_False; [by apply IH|].
    intros ->. apply Hk0. apply list_elem_of_fmap. by exists (k, v).
Qed.

Lemma setdefault_option_keeps (key : pystr) (value : pyval) (k : pystr)
    (v : pyval) (s s' : step) :
  setdefault_option key value s = (inr tt, s') →
  dict_get k (_options s) = Some v → dict_get k (_options s') = Some v.
Proof.
  intros H Hk. by rewrite (setdefault_option_returns _ _ _ _ k H), Hk.
Qed.

Lemma setdefault_loop_keeps (l : list pystr) (value : pyval) (k : pystr)
    (v : pyval) (s s' : step) :
  for_each l (λ i, setdefault_option i value) s = (inr tt, s') →
  dict_get k (_options s) = Some v → dict_get k (_options s') = Some v.
Proof.
  revert s. induction l as [|i l IH]; intros s H Hk.
  - by injection H as <-.
  - apply for_each_cons_returns in H as (s1 & H1 & H).
    apply (IH _ H). by apply (setdefault_option_keeps _ _ _ _ _ _ H1).
Qed.

(** A configuration of reserved keys is accepted. *)
Lemma set_options_accepts_reserved (options : list (pystr * pyval))
    (s : step) :
  NoDup (dict_keys options) →
  (∀ key, key ∈ dict_keys options → key ∈ reserved_keys) →
  connect_bindable options →
  underscore_free (_defined_options s) →
  (∀ key info, (key, info) ∈ _defined_options s →
     is_true (optional info) = true) →
  ∃ s', set_options options s = (inr tt, s')
        ∧ ∀ key value, (key, value) ∈ options → key ≠ lit "_depends" →
            dict_get key (_options s') = Some value.
Proof.
  intros Hnd Hkeys Hconnect Hfree Hopt.
  unfold set_options. rewrite bind_modify.
  set (s0 := with_options [] s).
  assert (Hdef0 : _defined_options s0 = _defined_options s) by by destruct s.
  assert (Hopts0 : _options s0 = []) by by destruct s.
  destruct (set_option_loop_reserved options s0 Hkeys) as [s1 H1].
  rewrite (bind_inr _ _ _ _ _ H1).
  destruct (set_option_loop_returns _ _ _ H1) as [Hopts1 Hdef1].
  rewrite Hdef0 in Hdef1. rewrite Hopts0 in Hopts1.
  destruct (default_loop_optional (_defined_options s1) s1) as [s2 H2].
  { rewrite Hdef1. exact Hopt. }
  assert (H2' : (do s <- get;
                 for_each (_defined_options s)
                   (λ ki, default_option ki.1 ki.2))%py s1 = (inr tt, s2))
    by by rewrite bind_get.
  rewrite (bind_inr _ _ _ _ _ H2').
  assert (Hbound : ∀ k, head k = Some ch_underscore →
            dict_get k (_options s2) = dict_get k options).
  { intros k Hk.
    rewrite (default_option_loop_returns _ _ _ k H2)
      by (rewrite Hdef1; by apply literal_key_not_declared).
    rewrite Hopts1, (foldl_dict_set_get k options _ Hnd).
    by destruct (dict_get k options). }
  assert (H3 : ∃ s3, setdefault_option (lit "_volatile") (VBool false) s2
                     = (inr tt, s3)) by by eexists.
  destruct H3 as [s3 H3]. rewrite (bind_inr _ _ _ _ _ H3).
  assert (H4 : ∃ s4,
            for_each [ lit "_cluster_submit_options";
                       lit "_cluster_pre_job_command";
                       lit "_cluster_post_job_command" ]
              (λ i, setdefault_option i (VStr [])) s3 = (inr tt, s4))
    by by eexists.
  destruct H4 as [s4 H4]. rewrite (bind_inr _ _ _ _ _ H4).
  assert (H5 : ∃ s5, setdefault_option (lit "_cluster_job_quota") (VInt 0) s4
                     = (inr tt, s5)) by by eexists.
  destruct H5 as [s5 H5]. rewrite (bind_inr _ _ _ _ _ H5).
  assert (H6 : ∃ s6, setdefault_option (lit "_connect") (VDict []) s5
                     = (inr tt, s6)) by by eexists.
  destruct H6 as [s6 H6]. rewrite (bind_inr _ _ _ _ _ H6).
  assert (H7 : ∃ s7, setdefault_option (lit "_depends") (VList []) s6
                     = (inr tt, s7)) by by eexists.
  destruct H7 as [s7 H7]. rewrite (bind_inr _ _ _ _ _ H7).
  assert (Hdep7 : dict_get (lit "_depends") (_options s7)
                  = Some (default (VList [])
                            (dict_get (lit "_depends") options))).
  { rewrite (setdefault_option_returns _ _ _ _ _ H7).
    rewrite (setdefault_option_returns _ _ _ _ _ H6).
    rewrite (setdefault_option_returns _ _ _ _ _ H5).
    rewrite (setdefault_loop_returns _ _ _ _ (lit "_depends") H4)
      by (apply (bool_decide_unpack _); vm_compute; exact I).
    rewrite (setdefault_option_returns _ _ _ _ _ H3).
    rewrite (Hbound (lit "_depends") eq_refl).
    by destruct (dict_get (lit "_depends") options). }
  assert (Hcon7 : dict_get (lit "_connect") (_options s7)
                  = Some (default (VDict [])
                            (dict_get (lit "_connect") options))).
  { rewrite (setdefault_option_returns _ _ _ _ _ H7).
    rewrite (setdefault_option_returns _ _ _ _ _ H6).
    rewrite (setdefault_option_returns _ _ _ _ _ H5).
    rewrite (setdefault_loop_returns _ _ _ _ (lit "_connect") H4)
      by (apply (bool_decide_unpack _); vm_compute; exact I).
    rewrite (setdefault_option_returns _ _ _ _ _ H3).
    rewrite (Hbound (lit "_connect") eq_refl).
    by destruct (dict_get (lit "_connect") options). }
  assert (H8 : ∃ s8, wrap_depends s7 = (inr tt, s8)).
  { unfold wrap_depends, store_option. rewrite bind_get, Hdep7.
    destruct (default _ _); by eexists. }
  destruct H8 as [s8 H8]. rewrite (bind_inr _ _ _ _ _ H8).
  destruct (wrap_depends_returns _ _ _ H8 Hdep7) as [Hdep8 Hother8].
  assert (Hcon8 := Hother8 (lit "_connect")
                     ltac:(apply (bool_decide_unpack _); vm_compute; exact I)).
  rewrite Hcon7 in Hcon8.
  assert (Hbind : ∃ connect,
            default (VDict []) (dict_get (lit "_connect") options)
            = VDict connect
            ∧ ∀ x, x ∈ binding_values connect → ∃ pc, x = VStr pc).
  { destruct (dict_get (lit "_connect") options) as [v|] eqn:Hv.
    - exact (Hconnect v Hv).
    - exists []. split; [done|]. by intros x ?%elem_of_nil. }
  destruct Hbind as (connect & Hcon & Hstr). rewrite Hcon in Hcon8.
  assert (H9 : ∃ s9, add_implied_dependencies s8 = (inr tt, s9)).
  { unfold add_implied_dependencies. rewrite bind_get, Hcon8.
    rewrite (for_each_concat (dict_values connect) as_list).
    eapply implied_loop_strings; [|exact Hdep8].
    unfold dict_values. rewrite <- list_fmap_compose. exact Hstr. }
  destruct H9 as [s9 H9]. exists s9. split; [exact H9|].
  intros key value Hin Hne.
  assert (Hkey : key ∈ reserved_keys).
  { apply Hkeys. apply list_elem_of_fmap. by exists (key, value). }
  assert (H2k : dict_get key (_options s2) = Some value).
  { rewrite (Hbound key (reserved_key_underscore key Hkey)).
    by apply dict_get_elem. }
  assert (H7k : dict_get key (_options s7) = Some value).
  { apply (setdefault_option_keeps _ _ _ _ _ _ H7).
    apply (setdefault_option_keeps _ _ _ _ _ _ H6).
    apply (setdefault_option_keeps _ _ _ _ _ _ H5).
    apply (setdefault_loop_keeps _ _ _ _ _ _ H4).
    by apply (setdefault_option_keeps _ _ _ _ _ _ H3). }
  unfold add_implied_dependencies in H9. rewrite bind_get, Hcon8 in H9.
  rewrite (for_each_concat (dict_values connect) as_list) in H9.
  destruct (implied_loop_returns _ _ _ _ H9 Hdep8) as [_ Hother9].
  by rewrite (Hother9 key Hne), (Hother8 key Hne).
Qed.

(** C7: [UNDERSCORE_OPTIONS] are the eight reserved keys.  For a key that
    begins with an underscore the loop of [set_options] stores the value
    when the key is one of the eight and raises the error of an invalid
    option otherwise.  So [set_options] refuses a configuration that holds
    any other underscore key, and it ends with the error of an invalid
    option for such a key only; and it accepts a configuration of reserved
    keys (on a step without required options, and with bindings under
    [_connect] that the search for the dependencies can read), storing what
    is configured for each key but [_depends], which is completed. *)
Theorem set_options_underscore_keys :
  (UNDERSCORE_OPTIONS = reserved_keys ∧ length UNDERSCORE_OPTIONS = 8%nat
   ∧ NoDup UNDERSCORE_OPTIONS)
  ∧ (∀ key value s, head key = Some ch_underscore →
       (key ∈ reserved_keys →
          set_option key value s
          = (inr tt, with_options (dict_set key value (_options s)) s))
       ∧ (key ∉ reserved_keys →
          set_option key value s = (inl (UAPError (InvalidOption key)), s)))
  ∧ (∀ options key value s,
       (key, value) ∈ options → head key = Some ch_underscore →
       key ∉ reserved_keys →
       ∃ x, (set_options options s).1 = inl x)
  ∧ (∀ options key s,
       (set_options options s).1 = inl (UAPError (InvalidOption key)) →
       key ∈ dict_keys options ∧ head key = Some ch_underscore
       ∧ key ∉ reserved_keys)
  ∧ (∀ options s,
       NoDup (dict_keys options) →
       (∀ key, key ∈ dict_keys options → key ∈ reserved_keys) →
       connect_bindable options →
       underscore_free (_defined_options s) →
       (∀ key info, (key, info) ∈ _defined_options s →
          is_true (optional info) = true) →
       ∃ s', set_options options s = (inr tt, s')
             ∧ ∀ key value, (key, value) ∈ options → key ≠ lit "_depends" →
                 dict_get key (_options s') = Some value).
Proof.
  assert (Hkey : ∀ key value s, head key = Some ch_underscore →
       (key ∈ reserved_keys →
          set_option key value s
          = (inr tt, with_options (dict_set key value (_options s)) s))
       ∧ (key ∉ reserved_keys →
          set_option key value s = (inl (UAPError (InvalidOption key)), s))).
  { intros key value s Hhead. destruct key as [|c key]; [done|].
    simpl in Hhead. injection Hhead as ->.
    unfold set_option. simpl. change UNDERSCORE_OPTIONS with reserved_keys.
    split; intros Hk.
    - by rewrite bool_decide_eq_true_2.
    - by rewrite bool_decide_eq_false_2. }
  split; [|split; [exact Hkey|split; [|split]]].
  - split; [reflexivity|]. split; [reflexivity|].
    apply (bool_decide_unpack _). vm_compute. exact I.
  - intros options key value s Hin Hhead Hk.
    unfold set_options.
    set (body := λ kv : pystr * pyval, set_option kv.1 kv.2).
    destruct (for_each_raises options body (key, value) Hin)
      with (s := with_options [] s) as [x Hx].
    { intros s0. exists (UAPError (InvalidOption key)).
      unfold body. simpl. by rewrite (proj2 (Hkey key value s0 Hhead) Hk). }
    exists x. unfold bind at 1. unfold modify at 1.
    by apply bind_raises.
  - intros options key s. unfold set_options. rewrite bind_modify.
    unfold bind at 1.
    pose proof (set_option_loop_invalid options key (with_options [] s))
      as Hloop.
    destruct (for_each options _ (with_options [] s)) as [[x|[]] s1].
    + intros [= ->]. by apply Hloop.
    + intros H. by destruct (defaults_accept_keys s1 key).
  - exact set_options_accepts_reserved.
Qed.

Lemma set_options_underscore_keys_witness :
  let s := init (lit "cutadapt") (lit "/data") in
  (set_option (lit "_volatile") (VBool true) s
   = (inr tt, with_options [(lit "_volatile", VBool true)] s)
   ∧ set_option (lit "_cores") (VInt 4) s
     = (inl (UAPError (InvalidOption (lit "_cores"))), s))
  ∧ (∃ x, (set_options [(lit "_volatile", VBool true); (lit "_cores", VInt 4)]
             s).1 = inl x)
  ∧ (∃ s', set_options reserved_options s = (inr tt, s')
           ∧ ∀ key value, (key, value) ∈ reserved_options →
               key ≠ lit "_depends" →
               dict_get key (_options s') = Some value).
Proof.
  intros s.
  destruct set_options_underscore_keys as (_ & Hkey & Hall & _ & Haccepts).
  split; [split|split].
  - apply (Hkey (lit "_volatile")); [reflexivity|].
    apply (bool_decide_unpack _). vm_compute. exact I.
  - apply (Hkey (lit "_cores")); [reflexivity|].
    apply (bool_decide_unpack _). vm_compute. exact I.
  - apply (Hall _ (lit "_cores") (VInt 4)).
    + apply list_elem_of_further, list_elem_of_here.
    + reflexivity.
    + apply (bool_decide_unpack _). vm_compute. exact I.
  - apply Haccepts.
    + apply (bool_decide_unpack _). vm_compute. exact I.
    + apply Forall_forall. apply (bool_decide_unpack _). vm_compute. exact I.
    + intros v [= <-]. eexists. split; [reflexivity|].
      intros x Hx. apply list_elem_of_singleton in Hx as ->. by eexists.
    + intros k Hk. by apply elem_of_nil in Hk.
    + intros key info Hin. by apply elem_of_nil in Hin.
Defined.

(** ** [run]: an announced output file that is missing *)

(** *** Paths *)

Lemma rfind_from_absent c s i found :
  c ∉ s → rfind_from c s i found = found.
Proof.
  revert i found. induction s as [|x s IH]; intros i found Hc; [done|].
  apply not_elem_of_cons in Hc as [Hne Hc]. cbn [rfind_from].
  rewrite (IH _ _ Hc). destruct (N.eqb_spec x c); [congruence|done].
Qed.

Lemma basename_plain (name : pystr) : ch_slash ∉ name → basename name = name.
Proof.
  intros H. unfold basename, rfind. by rewrite rfind_from_absent.
Qed.

Lemma starts_with_slash_plain (name : pystr) :
  ch_slash ∉ name → starts_with_slash name = false.
Proof.
  destruct name as [|c name]; [done|]. intros H.
  apply not_elem_of_cons in H as [Hne _]. cbn.
  destruct (N.eqb_spec c ch_slash); [congruence|done].
Qed.


Lemma separator_cases (a : pystr) :
  separator a = [ch_slash]
  ∨ (separator a = [] ∧ (a = [] ∨ ends_with_slash a = true)).
Proof.
  unfold separator. destruct (bool_decide (a = [])) eqn:Ha; cbn [orb].
  - right. split; [done|]. left. by apply bool_decide_eq_true in Ha.
  - destruct (ends_with_slash a); [right|left]; auto.
Qed.

Lemma path_join_relative (a b : pystr) :
  starts_with_slash b = false → path_join a b = a ++ separator a ++ b.
Proof.
  intros Hb. unfold path_join, separator. rewrite Hb.
  by destruct (bool_decide (a = []) || ends_with_slash a).
Qed.

Lemma ends_with_slash_elem (a : pystr) :
  ends_with_slash a = true → ch_slash ∈ a.
Proof.
  unfold ends_with_slash. destruct (last a) as [c|] eqn:Hlast; [|done].
  intros Hc. apply N.eqb_eq in Hc as ->.
  apply last_Some in Hlast as [l ->]. apply elem_of_app. right. by left.
Qed.

Lemma ends_with_slash_app (a b : pystr) :
  b ≠ [] → ends_with_slash (a ++ b) = ends_with_slash b.
Proof.
  intros Hb. unfold ends_with_slash.
  destruct (exists_last Hb) as (b' & c & ->).
  by rewrite (assoc_L (++)), !last_snoc.
Qed.

(** A file in the temporary directory of the run is not a file of the
    output directory. *)
Lemma temp_path_not_final (r : Run.t) (stamp x y : pystr) :
  ch_slash ∉ x → ch_slash ∉ y →
  path_join (Run.get_temp_output_directory stamp r) x
  ≠ path_join (Run.get_output_directory r) y.
Proof.
  intros Hx Hy. unfold Run.get_temp_output_directory, Run.get_output_directory.
  set (out := Run.output_directory r).
  set (t := lit "temp-" ++ Run.run_id r ++ lit "-" ++ stamp).
  assert (Ht : starts_with_slash t = false) by done.
  assert (Htne : t ≠ []) by done.
  rewrite (path_join_relative out t Ht).
  rewrite (path_join_relative _ x (starts_with_slash_plain _ Hx)).
  rewrite (path_join_relative out y (starts_with_slash_plain _ Hy)).
  rewrite <- !(assoc_L (++)). intros Heq.
  apply app_inv_head in Heq. apply app_inv_head in Heq.
  assert (Hsl : ch_slash ∈ y); [|done].
  rewrite <- Heq.
  destruct (separator_cases (out ++ separator out ++ t)) as [->|[-> Hsep]].
  - apply elem_of_app. right. apply elem_of_app. left. by left.
  - apply elem_of_app. left. apply ends_with_slash_elem.
    destruct Hsep as [Hsep|Hsep].
    + apply app_eq_nil in Hsep as [_ Hsep].
      by apply app_eq_nil in Hsep as [_ Hsep].
    + rewrite (assoc_L (++)) in Hsep. by rewrite ends_with_slash_app in Hsep.
Qed.

(** *** What a step of the check leaves as it is *)

Lemma keeps_os_call {X} (proj : machine → X) (op : fs → result fs) :
  (∀ f m, proj (with_disk f m) = proj m) → keeps proj (os_call op).
Proof.
  intros H m. unfold os_call. destruct (op (disk m)); [done|]. apply H.
Qed.

Lemma keeps_fsc_method {X} (proj : machine → X) name path :
  (∀ c m, proj (with_fsc c m) = proj m) → keeps proj (fsc_method name path).
Proof. intros H m. unfold fsc_method. apply H. Qed.

Lemma keeps_kp_get {X} (proj : machine → X) path key :
  keeps proj (kp_get path key).
Proof. unfold kp_get. repeat keeps_step. Qed.

Lemma keeps_kp_set {X} (proj : machine → X) path key v :
  (∀ k m, proj (with_known_paths k m) = proj m) →
  keeps proj (kp_set path key v).
Proof.
  intros H. unfold kp_set. repeat keeps_step.
  apply keeps_modify. intros ?. apply H.
Qed.

Lemma check_output_outcome temp out out_file :
  keeps outcome (check_output temp out out_file).
Proof.
  unfold check_output.
  repeat (first
    [ apply keeps_os_call; intros ? []; reflexivity
    | apply keeps_fsc_method; intros ? []; reflexivity
    | apply keeps_kp_get
    | apply keeps_kp_set; intros ? []; reflexivity
    | apply keeps_modify; intros []; reflexivity
    | keeps_step ]).
Qed.

(** *** The records of [known_paths] *)

Lemma dict_get_pop_ne {V} (k k' : pystr) (d : list (pystr * V)) :
  k ≠ k' → dict_get k' (dict_pop k d) = dict_get k' d.
Proof.
  intros Hne. induction d as [|[k0 v0] d IH]; [done|]. cbn [dict_pop dict_get].
  destruct (decide (k0 = k)) as [->|].
  - by rewrite decide_False.
  - cbn [dict_get]. by rewrite IH.
Qed.

Lemma kp_full_set key v entry : kp_full entry → kp_full (dict_set key v entry).
Proof.
  intros [Hd Ht]. split; rewrite dict_get_set;
    by destruct (decide (key = _)).
Qed.

Lemma kp_known_pop kp k p : k ≠ p → kp_known kp p → kp_known (dict_pop k kp) p.
Proof.
  intros Hne (entry & Hget & Hfull). exists entry.
  by rewrite dict_get_pop_ne.
Qed.

Lemma kp_known_setdefault kp k p :
  kp_known kp p → kp_known (dict_setdefault k [] kp) p.
Proof.
  intros (entry & Hget & Hfull). exists entry.
  by rewrite dict_get_setdefault, Hget.
Qed.

Lemma kp_known_set kp k entry p :
  kp_full entry → kp_known kp p → kp_known (dict_set k entry kp) p.
Proof.
  intros Hfull (entry' & Hget & Hfull'). unfold kp_known.
  rewrite dict_get_set.
  destruct (decide (k = p)); eauto.
Qed.

Section CheckSteps.
Variables (K : list (pystr * list (pystr * pyval)) → Prop) (f : fs).

(** The state of the check between two steps: what is known, and the
    disk. *)
Definition checking (m : machine) : Prop := K (known_paths m) ∧ disk m = f.

Hypothesis K_set :
  ∀ kp k entry, kp_full entry → K kp → K (dict_set k entry kp).

Lemma kp_get_returns path key :
  (∀ kp, K kp → ∃ entry, dict_get path kp = Some entry
                        ∧ is_Some (dict_get (lit key) entry)) →
  returns checking (kp_get path key) (λ _, checking).
Proof.
  intros Hk m [HK Hd]. destruct (Hk _ HK) as (entry & Hget & [v Hv]).
  exists v, m. unfold kp_get. msimpl. by rewrite Hget, Hv.
Qed.

Lemma kp_set_returns path key v :
  (∀ kp, K kp → kp_known kp path) →
  returns checking (kp_set path key v) (λ _, checking).
Proof using K_set.
  intros Hk m [HK Hd]. destruct (Hk _ HK) as (entry & Hget & Hfull).
  eexists tt, _. unfold kp_set. msimpl. rewrite Hget. split; [done|].
  split; [|by destruct m]. destruct m. machine_fields.
  apply K_set; [by apply kp_full_set|done].
Qed.

Lemma fsc_method_returns (name : string) path :
  (∃ fn, FSCache.posix_ospath (lit name) = Some fn
         ∧ ∃ v, fn [path] f = inr v) →
  returns checking (fsc_method name path) (λ _, checking).
Proof.
  intros (fn & Hfn & v & Hv) m [HK Hd]. unfold fsc_method, FSCache.method.
  destruct (FSCache.cached _ _ _) as [w|].
  - exists w. eexists. split; [done|]. by destruct m.
  - rewrite Hfn, Hd, Hv. exists v. eexists. split; [done|]. by destruct m.
Qed.
End CheckSteps.

Lemma posix_stat_returns (name : string) (get : node → Z) (f : fs) (p : pystr) :
  FSCache.posix_ospath (lit name)
  = Some (λ args f, match args with
                    | [p] => match f !! p with
                             | Some n => inr (VInt (get n))
                             | None => inl (OSError FileNotFound)
                             end
                    | _ => inl TypeError
                    end) →
  path_exists f p = true →
  ∃ fn, FSCache.posix_ospath (lit name) = Some fn ∧ ∃ v, fn [p] f = inr v.
Proof.
  intros Hfn Hp. eexists. split; [exact Hfn|]. unfold path_exists in Hp.
  cbv beta iota. destruct (f !! p); [by eexists|done].
Qed.

Lemma posix_getsize :
  FSCache.posix_ospath (lit "getsize")
  = Some (λ args f, match args with
                    | [p] => match f !! p with
                             | Some n => inr (VInt (size n))
                             | None => inl (OSError FileNotFound)
                             end
                    | _ => inl TypeError
                    end).
Proof. reflexivity. Qed.

Lemma posix_getmtime :
  FSCache.posix_ospath (lit "getmtime")
  = Some (λ args f, match args with
                    | [p] => match f !! p with
                             | Some n => inr (VInt (mtime n))
                             | None => inl (OSError FileNotFound)
                             end
                    | _ => inl TypeError
                    end).
Proof. reflexivity. Qed.

(** *** One announced output file *)

Section CheckOutput.
Variables (r : Run.t) (stamp : pystr).

Local Abbreviation out := (Run.get_output_directory r).
Local Abbreviation temp := (Run.get_temp_output_directory stamp r).

Definition finals_known (kp : list (pystr * list (pystr * pyval))) : Prop :=
  ∀ name, declared_output r name → kp_known kp (path_join out name).

Lemma finals_known_set kp k entry :
  kp_full entry → finals_known kp → finals_known (dict_set k entry kp).
Proof. intros Hfull HK name Hname. by apply kp_known_set, HK. Qed.

Lemma placeholder_path (name : pystr) :
  ch_slash ∉ name →
  path_join out name ++ VOLATILE_SUFFIX
  = path_join out (name ++ VOLATILE_SUFFIX).
Proof.
  intros Hname.
  rewrite !path_join_relative, <- !(assoc_L (++)); [done| |].
  - destruct name as [|c name]; [done|].
    apply (starts_with_slash_plain (c :: name) Hname).
  - by apply starts_with_slash_plain.
Qed.

Lemma temp_path_not_placeholder (x y : pystr) :
  ch_slash ∉ x → ch_slash ∉ y →
  path_join temp x ≠ path_join out y ++ VOLATILE_SUFFIX.
Proof.
  intros Hx Hy. rewrite (placeholder_path y Hy).
  apply temp_path_not_final; [done|].
  intros Hin. apply elem_of_app in Hin as [Hin|Hin]; [done|].
  revert Hin. apply (bool_decide_unpack _). vm_compute. exact I.
Qed.

(** The file is in the temporary directory: the check goes on to the
    next file. *)
Lemma check_present_returns (name : pystr) (f : fs) :
  declared_output r name →
  path_exists f (path_join temp name) = true →
  returns (checking finals_known f)
    (modify (λ m, with_known_paths
                    (dict_pop (path_join temp name) (known_paths m)) m) ;;
     modify (λ m, with_known_paths
                    (dict_setdefault (path_join out name) []
                                     (known_paths m)) m) ;;
     (do designation <- kp_get (path_join out name) "designation";
      if py_eq designation (VStr (lit "output"))
      then
        modify (λ m, with_to_be_moved
                       (dict_set (path_join temp name) (path_join out name)
                                 (to_be_moved m)) m) ;;
        do size <- fsc_method "getsize" (path_join temp name);
        do mtime <- fsc_method "getmtime" (path_join temp name);
        kp_set (path_join out name) "size" size ;;
        kp_set (path_join out name) "modification time" mtime
      else ret tt) ;;
     do type <- kp_get (path_join out name) "type";
     if negb (py_eq type (VStr (lit "step_file")))
     then kp_set (path_join out name) "type" (VStr (lit "step_file"))
     else ret tt)%py
    (λ _, checking finals_known f).
Proof.
  intros Hname Hsrc.
  assert (Hknown : ∀ kp, finals_known kp → kp_known kp (path_join out name))
    by (intros kp HK; by apply HK).
  assert (Hget : ∀ key : string,
            key = "designation"%string ∨ key = "type"%string →
            returns (checking finals_known f)
              (kp_get (path_join out name) key)
              (λ _, checking finals_known f)).
  { intros key Hkey. apply kp_get_returns. intros kp HK.
    destruct (Hknown kp HK) as (entry & Hentry & Hd & Ht).
    exists entry. split; [done|]. by destruct Hkey as [->| ->]. }
  assert (Hset : ∀ key v,
            returns (checking finals_known f)
              (kp_set (path_join out name) key v)
              (λ _, checking finals_known f)).
  { intros key v. apply kp_set_returns; [apply finals_known_set|done]. }
  eapply (returns_bind _ (λ _, checking finals_known f)); [|intros ?].
  { apply returns_modify. intros m [HK Hd]. split; [|by destruct m].
    destruct m. machine_fields. intros name' Hname'.
    apply kp_known_pop; [|by apply HK].
    apply temp_path_not_final; [apply Hname|apply Hname']. }
  eapply (returns_bind _ (λ _, checking finals_known f)); [|intros ?].
  { apply returns_modify. intros m [HK Hd]. split; [|by destruct m].
    destruct m. machine_fields. intros name' Hname'.
    by apply kp_known_setdefault, HK. }
  eapply (returns_bind _ (λ _, checking finals_known f)); [|intros ?].
  { eapply (returns_bind _ (λ _, checking finals_known f)); [apply Hget; by left|intros designation].
    apply returns_if; [|apply returns_ret].
    eapply (returns_bind _ (λ _, checking finals_known f)); [|intros ?].
    { apply returns_modify. intros m [HK Hd]. by destruct m. }
    eapply (returns_bind _ (λ _, checking finals_known f)); [|intros size].
    { apply fsc_method_returns.
      by apply (posix_stat_returns _ _ _ _ posix_getsize). }
    eapply (returns_bind _ (λ _, checking finals_known f)); [|intros mtime].
    { apply fsc_method_returns.
      by apply (posix_stat_returns _ _ _ _ posix_getmtime). }
    eapply (returns_bind _ (λ _, checking finals_known f)); [apply Hset|intros ?]. apply Hset. }
  eapply (returns_bind _ (λ _, checking finals_known f)); [apply Hget; by right|intros type].
  apply returns_if; [apply Hset|apply returns_ret].
Qed.

Lemma placeholder_stage (pv : pystr) (m : machine) :
  path_isdir (disk m) pv = false →
  ∃ m1,
    (do m <- get;
     if path_exists (disk m) pv then os_call (os_unlink pv) else ret tt)%py m
    = (inr tt, m1)
    ∧ known_paths m1 = known_paths m
    ∧ (∀ p, p ≠ pv → disk m1 !! p = disk m !! p)
    ∧ (∀ p, path_isdir (disk m) p = false → path_isdir (disk m1) p = false).
Proof.
  intros Hdir. msimpl. unfold os_call, os_unlink.
  unfold path_exists, path_isdir in *.
  destruct (disk m !! pv) as [n|] eqn:Hpv.
  - cbv beta iota. rewrite Hpv. cbv beta iota. rewrite Hdir.
    eexists. split; [done|]. destruct m. machine_fields.
    split; [done|]. split.
    + intros p Hp. by rewrite lookup_delete_ne.
    + intros p Hp. destruct (decide (pv = p)) as [<-|Hne].
      * by rewrite lookup_delete_eq.
      * by rewrite lookup_delete_ne.
  - exists m. done.
Qed.

(** The step of the check for an announced output file: when the file
    is in the temporary directory the check goes on, with what it relies
    on intact; when it is not, the step raises the error that names the
    file. *)
Lemma check_output_declared (name : pystr) (f0 : fs) (m : machine) :
  declared_output r name → check_invariant r stamp f0 m →
  (path_exists f0 (path_join temp name) = true →
     ∃ m', check_output temp out (Some name) m = (inr tt, m')
           ∧ check_invariant r stamp f0 m')
  ∧ (path_exists f0 (path_join temp name) = false →
       ∃ m', check_output temp out (Some name) m
             = (inl (UAPError (AnnouncedOutputMissing name
                                 (path_join temp name))), m')).
Proof.
  intros Hname (Hknown & Hdirs & Htemp).
  assert (Hplain : ch_slash ∉ name) by apply Hname.
  unfold check_output. rewrite (bool_decide_eq_false_2 _ Hplain).
  rewrite (basename_plain _ Hplain).
  destruct (placeholder_stage
              (path_join out name ++ VOLATILE_SUFFIX) m (Hdirs _ Hname))
    as (m1 & Hstage & Hkp & Hdisk & Hdir1).
  assert (Hsrc : path_exists (disk m1) (path_join temp name)
                 = path_exists f0 (path_join temp name)).
  { rewrite <- (Htemp _ Hname). unfold path_exists.
    rewrite Hdisk; [done|]. by apply temp_path_not_placeholder. }
  cbv beta iota. rewrite (bind_inr _ _ _ _ _ Hstage), bind_get.
  cbv beta. rewrite Hsrc. split; intros Hf0; rewrite Hf0.
  - destruct (check_present_returns name (disk m1) Hname
                ltac:(by rewrite Hsrc) m1) as ([] & m' & Hrun & HK & Hd).
    { split; [|done]. rewrite Hkp. exact Hknown. }
    exists m'. split; [exact Hrun|]. split; [exact HK|]. rewrite Hd. split.
    + intros name' Hname'. by apply Hdir1, Hdirs.
    + intros name' Hname'. rewrite <- (Htemp _ Hname'). unfold path_exists.
      rewrite Hdisk; [done|]. apply temp_path_not_placeholder;
        [apply Hname'|done].
  - by exists m1.
Qed.
End CheckOutput.

(** *** The loop over the announced output files *)

Section CheckLoop.
Variables (r : Run.t) (stamp : pystr) (f0 : fs).

Local Abbreviation out := (Run.get_output_directory r).
Local Abbreviation temp := (Run.get_temp_output_directory stamp r).

Lemma check_loop_raises (files : list (option pystr)) (m : machine) :
  (∀ n, Some n ∈ files → ch_slash ∉ n → declared_output r n) →
  check_invariant r stamp f0 m →
  (∃ n, Some n ∈ files ∧ (ch_slash ∉ n)
        ∧ path_exists f0 (path_join temp n) = false) →
  ∃ b m',
    for_each files (check_output temp out) m
    = (inl (UAPError (AnnouncedOutputMissing b (path_join temp b))), m')
    ∧ declared_output r b
    ∧ path_exists f0 (path_join temp b) = false.
Proof.
  revert m. induction files as [|x files IH]; intros m Hdecl Hinv Hmiss.
  { destruct Hmiss as (n & Hn & _). by apply elem_of_nil in Hn. }
  assert (Hrest : ∀ n, Some n ∈ files → ch_slash ∉ n → declared_output r n).
  { intros n Hn. apply Hdecl. by right. }
  cbn [for_each].
  destruct x as [n|].
  - destruct (decide (ch_slash ∈ n)) as [Hslash|Hplain].
    + assert (Hskip : check_output temp out (Some n) m = (inr tt, m)).
      { unfold check_output. by rewrite (bool_decide_eq_true_2 _ Hslash). }
      rewrite (bind_inr _ _ _ _ _ Hskip). apply IH; [done..|].
      destruct Hmiss as (n' & Hn' & Hp' & Hf').
      exists n'. split; [|done].
      apply elem_of_cons in Hn' as [[= ->]|Hn']; done.
    + assert (Hn : declared_output r n) by (apply Hdecl; [by left|done]).
      destruct (check_output_declared r stamp n f0 m Hn Hinv)
        as [Hpresent Habsent].
      destruct (path_exists f0 (path_join temp n)) eqn:Hf.
      * destruct (Hpresent eq_refl) as (m' & Hrun & Hinv').
        rewrite (bind_inr _ _ _ _ _ Hrun). apply IH; [done..|].
        destruct Hmiss as (n' & Hn' & Hp' & Hf').
        exists n'. split; [|done].
        apply elem_of_cons in Hn' as [[= ->]|Hn']; [congruence|done].
      * destruct (Habsent eq_refl) as (m' & Hrun).
        exists n, m'. by rewrite (bind_inl _ _ _ _ _ Hrun).
  - assert (Hskip : check_output temp out None m = (inr tt, m)) by done.
    rewrite (bind_inr _ _ _ _ _ Hskip). apply IH; [done..|].
    destruct Hmiss as (n' & Hn' & Hp' & Hf').
    exists n'. split; [|done].
    apply elem_of_cons in Hn' as [[=]|Hn']; done.
Qed.

Lemma check_outputs_outcome : keeps (λ m, (moved m, caught_signal m))
                                    (check_outputs temp r).
Proof.
  unfold check_outputs, catch_exception.
  apply keeps_bind; [apply keeps_modify; by intros []|intros ?].
  apply keeps_bind; [apply keeps_get|intros ?].
  apply keeps_if; [|apply keeps_ret].
  apply keeps_try_catch.
  - apply keeps_for_each. intros tf. apply keeps_for_each. intros o m.
    pose proof (check_output_outcome temp out o m) as H.
    unfold outcome in H. by injection H as -> -> _.
  - intros x. apply keeps_modify. by intros [].
Qed.

(** The check catches the error of the first announced output file that
    is missing. *)
Lemma check_outputs_catches (m : machine) :
  undisturbed m = true →
  check_invariant r stamp f0 m →
  (∃ n, declared_output r n ∧ path_exists f0 (path_join temp n) = false) →
  ∃ b m',
    check_outputs temp r m = (inr tt, m')
    ∧ caught_exception m'
      = Some (UAPError (AnnouncedOutputMissing b (path_join temp b)))
    ∧ declared_output r b
    ∧ path_exists f0 (path_join temp b) = false
    ∧ moved m' = moved m ∧ caught_signal m' = caught_signal m.
Proof.
  intros Hund Hinv (n & Hn & Hf).
  assert (Hout : moved (check_outputs temp r m).2 = moved m
                 ∧ caught_signal (check_outputs temp r m).2
                   = caught_signal m).
  { pose proof (check_outputs_outcome m) as H. by injection H. }
  assert (Hund' : undisturbed (with_to_be_moved [] m) = true)
    by by destruct m.
  destruct (check_loop_raises
              (concat ((λ tf, dict_keys tf.2) <$> Run.get_output_files r))
              (with_to_be_moved [] m)) as (b & m' & Hrun & Hb & Hfb).
  - intros n' Hn' Hplain. split; [done|].
    apply elem_of_concat in Hn' as (keys & Hn' & Hkeys).
    apply list_elem_of_fmap in Hkeys as ([tag files] & -> & Hfiles).
    apply list_elem_of_fmap in Hn' as ([o ins] & Ho & Hins).
    cbn in Ho. subst o. by exists tag, files, ins.
  - by destruct m.
  - exists n. split; [|split; [apply Hn|done]].
    destruct Hn as (_ & tag & files & ins & Hfiles & Hins).
    apply elem_of_concat. exists (dict_keys files). split.
    + apply list_elem_of_fmap. by exists (Some n, ins).
    + apply list_elem_of_fmap. by exists (tag, files).
  - assert (Hall : check_outputs temp r m
                   = (inr tt, with_caught_exception
                                (Some (UAPError (AnnouncedOutputMissing b
                                                   (path_join temp b))))
                                m')).
    { unfold check_outputs. rewrite bind_modify, bind_get. cbv beta.
      rewrite Hund'.
      rewrite <- (for_each_concat (Run.get_output_files r)
                    (λ tf, dict_keys tf.2)) in Hrun.
      unfold try_catch. by rewrite Hrun. }
    rewrite Hall in Hout. destruct Hout as [Hm Hs].
    exists b. eexists. split; [exact Hall|].
    destruct m'. machine_fields. cbn [snd] in Hm, Hs. done.
Qed.
End CheckLoop.

(** *** What [run] knows before the exec groups *)

Lemma kp_full_literal (d l t : pyval) (more : list (pystr * pyval)) :
  kp_full ((lit "designation", d) :: (lit "label", l) :: (lit "type", t)
           :: more).
Proof. split; by eexists. Qed.

Lemma kp_known_here kp k entry :
  kp_full entry → kp_known (dict_set k entry kp) k.
Proof.
  intros Hfull. exists entry. by rewrite dict_get_set, decide_True.
Qed.

Lemma known_inputs_known kp (ins : list pystr) p :
  kp_known kp p →
  kp_known (foldl (λ kp input_path,
                     dict_set input_path
                       [ (lit "designation", VStr (lit "input"));
                         (lit "label", VStr (basename input_path));
                         (lit "type", VStr (lit "step_file")) ] kp)
                  kp ins) p.
Proof.
  revert kp. induction ins as [|i ins IH]; intros kp Hp; [done|].
  cbn [foldl]. apply IH. apply kp_known_set; [apply kp_full_literal|done].
Qed.

Lemma known_output_known temp tag o ins kp :
  kp_known (known_output temp tag o ins kp) o
  ∧ ∀ p, kp_known kp p → kp_known (known_output temp tag o ins kp) p.
Proof.
  unfold known_output. split.
  - apply known_inputs_known.
    apply kp_known_set; [apply kp_full_literal|].
    apply kp_known_here, kp_full_literal.
  - intros p Hp. apply known_inputs_known.
    apply kp_known_set; [apply kp_full_literal|].
    by apply kp_known_set; [apply kp_full_literal|].
Qed.

Lemma prepare_files_known temp tag
    (files : list (option pystr * option (list pystr))) kp :
  (∀ p, kp_known kp p →
        kp_known (foldl (λ kp (oi : option pystr * option (list pystr)),
                           match oi with
                           | (Some output_path, Some input_paths) =>
                               known_output temp tag output_path input_paths kp
                           | _ => kp
                           end) kp files) p)
  ∧ (∀ o ins, (Some o, Some ins) ∈ files →
        kp_known (foldl (λ kp (oi : option pystr * option (list pystr)),
                           match oi with
                           | (Some output_path, Some input_paths) =>
                               known_output temp tag output_path input_paths kp
                           | _ => kp
                           end) kp files) o).
Proof.
  revert kp. induction files as [|[o' ins'] files IH]; intros kp.
  - split; [done|]. intros o ins H. by apply elem_of_nil in H.
  - cbn [foldl]. split.
    + intros p Hp. apply (proj1 (IH _)).
      destruct o' as [o'|]; [|done]. destruct ins' as [ins'|]; [|done].
      by apply (proj2 (known_output_known _ _ _ _ _)).
    + intros o ins Hin. apply elem_of_cons in Hin as [[= <- <-]|Hin].
      * apply (proj1 (IH _)). apply (proj1 (known_output_known _ _ _ _ _)).
      * by apply (proj2 (IH _) o ins).
Qed.

Lemma prepare_known_paths_known temp
    (abspath : list (pystr * list (option pystr * option (list pystr))))
    tag files o ins :
  (tag, files) ∈ abspath → (Some o, Some ins) ∈ files →
  kp_known (prepare_known_paths temp abspath) o.
Proof.
  unfold prepare_known_paths. generalize ([] : list (pystr * list (pystr * pyval))).
  induction abspath as [|[tag' files'] abspath IH]; intros kp Hin Ho.
  - by apply elem_of_nil in Hin.
  - cbn [foldl]. apply elem_of_cons in Hin as [[= <- <-]|Hin].
    + cbn [fst snd].
      assert (Hmono : ∀ kp p, kp_known kp p →
                kp_known (foldl (λ kp tf,
                    foldl (λ kp (oi : option pystr * option (list pystr)),
                             match oi with
                             | (Some output_path, Some input_paths) =>
                                 known_output temp tf.1 output_path
                                   input_paths kp
                             | _ => kp
                             end) kp tf.2) kp abspath) p).
      { clear. induction abspath as [|tf abspath IH]; intros kp p Hp; [done|].
        cbn [foldl]. apply IH. by apply (proj1 (prepare_files_known _ _ _ _)). }
      apply Hmono. by apply (proj2 (prepare_files_known _ _ _ _) o ins).
    + by apply IH.
Qed.

Lemma prepared_finals_known (r : Run.t) (temp : pystr) :
  inputs_declared r →
  finals_known r (prepare_known_paths temp (Run.get_output_files_abspath r)).
Proof.
  intros Hins name (Hplain & tag & files & ins & Hfiles & Hname).
  destruct ins as [ins|]; [|by destruct (Hins _ _ _ Hfiles Hname)].
  apply (prepare_known_paths_known temp _ tag
           ((λ e : option pystr * option (list pystr),
               (path_join (Run.output_directory r) <$> e.1, e.2)) <$> files)
           _ ins).
  - unfold Run.get_output_files_abspath. apply list_elem_of_fmap.
    by exists (tag, files).
  - apply list_elem_of_fmap. by exists (Some name, Some ins).
Qed.

(** *** The pings *)

Lemma os_unlink_errors p : os_errors_only (os_unlink p).
Proof.
  intros f x. unfold os_unlink. repeat case_match; intros [= <-]; eauto.
Qed.

Lemma os_rename_errors a b : os_errors_only (os_rename a b).
Proof.
  intros f x. unfold os_rename. repeat case_match; intros [= <-]; eauto.
Qed.

Lemma copyfile_errors a b : os_errors_only (copyfile a b).
Proof.
  intros f x. unfold copyfile. repeat case_match; intros [= <-]; eauto.
Qed.

Lemma os_call_raises_os_error_only op :
  os_errors_only op → raises_os_error_only (os_call op).
Proof.
  intros Hop m. unfold os_call. destruct (op (disk m)) as [x|f] eqn:Hf.
  - right. destruct (Hop _ _ Hf) as [e ->]. eauto.
  - left. eauto.
Qed.

Lemma bind_raises_os_error_only (c : M machine unit) (k : unit → M machine unit) :
  raises_os_error_only c → (∀ a, raises_os_error_only (k a)) →
  raises_os_error_only (bind c k).
Proof.
  intros Hc Hk m. unfold bind.
  destruct (Hc m) as [[m' ->]|(e & m' & ->)]; [apply Hk|].
  right. eauto.
Qed.

Lemma ret_raises_os_error_only : raises_os_error_only (ret tt).
Proof. intros m. left. by exists m. Qed.

Lemma remove_ping_file_returns (e : env) (ping_path : pystr) (bad_copy : bool)
    (m : machine) :
  ∃ m', remove_ping_file e ping_path bad_copy m = (inr tt, m')
        ∧ outcome m' = outcome m.
Proof.
  assert (Hkeeps : keeps outcome (remove_ping_file e ping_path bad_copy)).
  { unfold remove_ping_file, pass_os_error.
    repeat (first [ apply keeps_os_call; intros ? []; reflexivity
                  | keeps_step ]). }
  assert (Hret : ∃ m', remove_ping_file e ping_path bad_copy m = (inr tt, m')).
  { unfold remove_ping_file. rewrite bind_get.
    destruct (path_exists (disk m) ping_path); [|by exists m].
    unfold pass_os_error, try_catch.
    match goal with
    | |- context [?c m] =>
        assert (Hc : raises_os_error_only c)
    end.
    { destruct bad_copy, (debugging e);
        repeat (first [ apply bind_raises_os_error_only; [|intros ?]
                      | apply ret_raises_os_error_only
                      | apply os_call_raises_os_error_only;
                        first [ apply os_rename_errors | apply copyfile_errors
                              | apply os_unlink_errors ] ]). }
    destruct (Hc m) as [[m' ->]|(x & m' & ->)]; eauto. }
  destruct Hret as [m' Hm']. exists m'. split; [done|].
  specialize (Hkeeps m). by rewrite Hm' in Hkeeps.
Qed.

Lemma disk_only_os_call op : os_errors_only op → disk_only (os_call op).
Proof.
  intros Hop m. unfold os_call. destruct (op (disk m)) as [x|f] eqn:Hf.
  - right. destruct (Hop _ _ Hf) as [e ->]. exists e, (disk m).
    by rewrite with_disk_same.
  - left. by exists f.
Qed.

Lemma disk_only_ret : disk_only (ret tt).
Proof. intros m. left. exists (disk m). by rewrite with_disk_same. Qed.

Lemma disk_only_bind (c : M machine unit) (k : unit → M machine unit) :
  disk_only c → (∀ a, disk_only (k a)) → disk_only (bind c k).
Proof.
  intros Hc Hk m. unfold bind.
  destruct (Hc m) as [[f ->]|(e & f & ->)].
  - destruct (Hk tt (with_disk f m)) as [[f' ->]|(e & f' & ->)];
      rewrite with_disk_twice; eauto.
  - right. eauto.
Qed.

Lemma pass_os_error_disk_only (c : M machine unit) (m : machine) :
  disk_only c → ∃ f, pass_os_error c m = (inr tt, with_disk f m).
Proof.
  intros Hc. unfold pass_os_error, try_catch.
  destruct (Hc m) as [[f ->]|(e & f & ->)]; by exists f.
Qed.

Lemma remove_ping_file_disk (e : env) (ping_path : pystr) (bad_copy : bool)
    (m : machine) :
  ∃ f, remove_ping_file e ping_path bad_copy m = (inr tt, with_disk f m).
Proof.
  unfold remove_ping_file. rewrite bind_get.
  destruct (path_exists (disk m) ping_path).
  - apply pass_os_error_disk_only.
    destruct bad_copy, (debugging e);
      repeat first
        [ apply disk_only_bind; [|intros ?]
        | apply disk_only_ret
        | apply disk_only_os_call;
          first [ apply os_rename_errors | apply copyfile_errors
                | apply os_unlink_errors ] ].
  - exists (disk m). by rewrite with_disk_same.
Qed.

(** *** The picture next to the annotation *)

Lemma list_to_map_rename_lookup {V} (g : pystr → pystr)
    (l : list (pystr * V)) (p : pystr) :
  g p = p → (∀ k, g k = p → k = p) →
  (list_to_map ((λ kv : pystr * V, (g kv.1, kv.2)) <$> l) : gmap pystr V) !! p
  = (list_to_map l : gmap pystr V) !! p.
Proof.
  intros Hp Hg. induction l as [|[k v] l IH]; [done|].
  rewrite fmap_cons, !list_to_map_cons. cbv beta iota delta [fst snd].
  destruct (decide (k = p)) as [->|Hne].
  - by rewrite Hp, !lookup_insert_eq.
  - rewrite !lookup_insert_ne; [done|done|].
    intros H. by apply Hne, Hg.
Qed.

Lemma apart_not_below (ping p : pystr) :
  (∀ t, ping ++ t ≠ p) → is_below ping p = false.
Proof.
  intros H. unfold is_below. apply bool_decide_eq_false_2. intros Hp.
  apply (H ([ch_slash] ++ drop (length ping + 1) p)).
  rewrite (assoc_L (++)), <- Hp. apply take_drop.
Qed.

Lemma move_tree_lookup (src dst p : pystr) (f : fs) :
  p ≠ src → is_below src p = false → (∀ t, dst ++ t ≠ p) →
  move_tree src dst f !! p = f !! p.
Proof.
  intros Hsrc Hbelow Hdst. unfold move_tree.
  rewrite (list_to_map_rename_lookup (move_key src dst) (map_to_list f) p).
  - by rewrite list_to_map_to_list.
  - unfold move_key. rewrite bool_decide_eq_false_2 by done.
    by rewrite Hbelow.
  - intros k. unfold move_key. destruct (bool_decide (k = src)).
    + intros H. destruct (Hdst []). by rewrite app_nil_r.
    + destruct (is_below src k); [|done]. intros H. by destruct (Hdst _ H).
Qed.

(** What the calls of [remove_ping_file] do to a path that does not begin
    with the path of the ping. *)
Lemma os_rename_lookup (src ext p : pystr) (f f' : fs) :
  (∀ t, src ++ t ≠ p) →
  os_rename src (src ++ ext) f = inr f' → f' !! p = f !! p.
Proof.
  intros Hp. unfold os_rename.
  assert (Hsrc : p ≠ src).
  { intros ->. apply (Hp []). by rewrite app_nil_r. }
  assert (Hdst : ∀ t, (src ++ ext) ++ t ≠ p).
  { intros t. rewrite <- (assoc_L (++)). apply Hp. }
  assert (Hne : src ++ ext ≠ p).
  { intros H. apply (Hdst []). by rewrite app_nil_r. }
  destruct (f !! src) as [n|]; [|done].
  destruct (bool_decide (src = src ++ ext)); [by intros [= ->]|].
  destruct (parent_check f (src ++ ext)); [done|].
  destruct (f !! (src ++ ext)) as [m|].
  - repeat (match goal with
            | |- context [if ?b then _ else _] => destruct b; [done|]
            end).
    intros [= <-].
    rewrite move_tree_lookup by (done || by apply apart_not_below).
    by apply lookup_delete_ne.
  - intros [= <-]. apply move_tree_lookup; [done| |done].
    by apply apart_not_below.
Qed.

Lemma copyfile_lookup (src dst p : pystr) (f f' : fs) :
  dst ≠ p → copyfile src dst f = inr f' → f' !! p = f !! p.
Proof.
  intros Hp. unfold copyfile.
  destruct (f !! src) as [n|]; [|done].
  destruct (bool_decide (src = dst)); [done|].
  destruct (is_dir n || path_isdir f dst); [done|].
  destruct (parent_check f dst); [done|].
  intros [= <-]. by apply lookup_insert_ne.
Qed.

Lemma os_unlink_lookup (q p : pystr) (f f' : fs) :
  q ≠ p → os_unlink q f = inr f' → f' !! p = f !! p.
Proof.
  intros Hp. unfold os_unlink.
  destruct (f !! q) as [n|]; [|done]. destruct (is_dir n); [done|].
  intros [= <-]. by apply lookup_delete_ne.
Qed.

Lemma lookup_os_call (p : pystr) (v : option node) (op : fs → result fs) :
  (∀ f f', op f = inr f' → f' !! p = f !! p) →
  preserves (λ m, disk m !! p = v) (os_call op).
Proof.
  intros H m Hm. unfold os_call.
  destruct (op (disk m)) as [x|f'] eqn:Hop; [done|].
  cbv beta iota delta [snd]. rewrite disk_of_with_disk.
  by rewrite (H _ _ Hop).
Qed.

Lemma remove_ping_file_lookup (e : env) (ping p : pystr) (bad_copy : bool)
    (v : option node) :
  (∀ t, ping ++ t ≠ p) →
  preserves (λ m, disk m !! p = v) (remove_ping_file e ping bad_copy).
Proof.
  intros Hp.
  assert (Hne : ping ≠ p).
  { intros H. apply (Hp []). by rewrite app_nil_r. }
  unfold remove_ping_file, pass_os_error. cbv zeta.
  apply preserves_bind; [apply preserves_get|intros m].
  apply preserves_if; [|apply preserves_ret].
  apply preserves_try_catch; [|intros []; preserves_step].
  destruct bad_copy, (debugging e);
    repeat first
      [ apply lookup_os_call; intros f f';
        first [ by apply os_rename_lookup
              | apply copyfile_lookup; apply Hp
              | by apply os_unlink_lookup ]
      | preserves_step ].
Qed.

Lemma dot_file_split (r : Run.t) (suffix : string) :
  Run.dot_file r suffix
  = Run.output_directory r ++ separator (Run.output_directory r)
    ++ lit "." ++ Run.run_id r ++ lit suffix.
Proof. unfold Run.dot_file. by rewrite path_join_relative. Qed.

(** The pings, the annotation and the placeholders are not the picture, and
    nothing that begins with the path of a ping is. *)
Lemma ping_apart_picture (r : Run.t) (suffix : string) (t : pystr) :
  (lit suffix ++ t) !! 1%nat ≠ Some 97%N →
  Run.dot_file r suffix ++ t ≠ picture r.
Proof.
  intros Hc H. apply Hc. unfold picture, Run.get_annotation_file in H.
  rewrite !dot_file_split, <- !(assoc_L (++)) in H.
  do 4 apply app_inv_head in H. by rewrite H.
Qed.

Lemma executing_ping_apart (r : Run.t) (t : pystr) :
  Run.get_executing_ping_file r ++ t ≠ picture r.
Proof. by apply ping_apart_picture. Qed.

Lemma queued_ping_apart (r : Run.t) (t : pystr) :
  Run.get_queued_ping_file r ++ t ≠ picture r.
Proof. by apply ping_apart_picture. Qed.

Lemma annotation_not_picture (r : Run.t) :
  Run.get_annotation_file r ≠ picture r.
Proof.
  unfold picture. intros H. apply (f_equal length) in H.
  rewrite length_app in H. cbn in H. lia.
Qed.

Lemma placeholder_not_picture (q : pystr) (r : Run.t) :
  q ++ VOLATILE_SUFFIX ≠ picture r.
Proof.
  unfold picture. intros H. apply (f_equal last) in H.
  rewrite !last_app in H. vm_compute in H. discriminate H.
Qed.

Lemma attachment_on_ext (e : env) (r : Run.t) (f f' : fs) :
  f' !! picture r = f !! picture r →
  attachment_on e r f' = attachment_on e r f.
Proof. intros H. unfold attachment_on, path_exists, open_read. by rewrite H. Qed.

Lemma read_attachment_on (e : env) (r : Run.t) (m : machine) :
  read_attachment e (Run.get_annotation_file r) m
  = (attachment_on e r (disk m), m).
Proof.
  unfold read_attachment, attachment_on, picture. rewrite bind_get.
  destruct (path_exists _ _); [|done]. by destruct (open_read _ _ _).
Qed.

(** *** From the call of [run] to the check *)

Lemma read_job_id_state (queued : pystr) (m : machine) :
  (read_job_id queued m).2 = m.
Proof. unfold read_job_id. msimpl. by repeat case_match. Qed.

Lemma os_call_returns op (m m' : machine) :
  os_call op m = (inr tt, m') → ∃ f, m' = with_disk f m.
Proof.
  unfold os_call. destruct (op (disk m)) as [|f]; [done|].
  intros [= <-]. by exists f.
Qed.

Lemma preflight_returns (e : env) (s : step) (run_id : pystr) (r : Run.t)
    (job_id : pyval) (m0 m1 : machine) :
  preflight e s run_id m0 = (inr (r, job_id), m1) →
  get_run run_id s = inr (Some r)
  ∧ known_paths m1
    = prepare_known_paths (Run.get_temp_output_directory (temp_stamp e) r)
        (Run.get_output_files_abspath r)
  ∧ caught_exception m1 = None
  ∧ moved m1 = moved m0
  ∧ caught_signal m1 = caught_signal m0.
Proof.
  unfold preflight. destruct (get_run run_id s) as [|[run|]]; [done| |done].
  intros H. apply bind_returns in H as ([] & ma & Ha & H).
  rewrite bind_get in H. cbv beta in H.
  destruct (path_exists (disk ma) (Run.get_executing_ping_file run)); [done|].
  apply bind_returns in H as (job & mb & Hb & H).
  apply bind_returns in H as ([] & mc & Hc & H).
  rewrite bind_modify in H.
  apply bind_returns in H as ([] & md & Hd & H).
  unfold notify in H. rewrite !bind_modify in H.
  injection H as <- <- <-.
  assert (Hma : ∃ f, ma = with_disk f m0).
  { rewrite bind_get in Ha. cbv beta in Ha.
    destruct (negb _); [by apply os_call_returns in Ha|].
    injection Ha as <-. exists (disk m0). by destruct m0. }
  destruct Hma as [fa ->].
  pose proof (read_job_id_state (Run.get_queued_ping_file run)
                (with_disk fa m0)) as Hmb.
  rewrite Hb in Hmb. cbn [snd] in Hmb. subst mb.
  apply os_call_returns in Hc as [fc ->].
  apply os_call_returns in Hd as [fd ->].
  split; [done|]. by destruct m0.
Qed.

Lemma execute_run_executed (e : env) (r : Run.t) (m : machine) (f : fs) :
  execute e (disk m) = Executed f →
  execute_run e r m = (inr tt, with_state DEFAULT (with_disk f m)).
Proof.
  intros He. unfold execute_run. msimpl. unfold modify.
  assert (Hd : disk (with_state EXECUTING m) = disk m) by by destruct m.
  rewrite Hd, He. by destruct m.
Qed.

(** *** After the check *)

Lemma hash_outputs_skipped (e : env) (s : step) (m : machine) (x : exn) :
  caught_exception m = Some x → hash_outputs e s m = (inr tt, m).
Proof. intros Hx. unfold hash_outputs. rewrite bind_get. by rewrite Hx. Qed.

Lemma publish_skipped (m : machine) (x : exn) :
  caught_exception m = Some x → publish m = (inr tt, m).
Proof.
  intros Hx. unfold publish. rewrite bind_get.
  assert (Hund : undisturbed m = false).
  { unfold undisturbed. rewrite Hx. apply andb_false_r. }
  by rewrite Hund.
Qed.

(** The end of [run] after an exception was caught: it is raised again
    after the notification of the failure, unless the picture next to the
    annotation cannot be read; then the error of reading it comes out
    before anything is notified. *)
Lemma finish_after_error (e : env) (r : Run.t) (job_id : pyval)
    (temp_directory : pystr) (m : machine) (x : exn) :
  caught_exception m = Some x →
  ∃ m',
    finish e r job_id temp_directory m
    = (match attachment_on e r (disk m) with
       | inl y => inl y
       | inr _ => inl x
       end, m')
    ∧ outcome m' = outcome m
    ∧ state m' = DEFAULT
    ∧ notified m'
      = notified m ++ match attachment_on e r (disk m) with
                      | inl _ => []
                      | inr a => [NotifyBad a]
                      end.
Proof.
  intros Hexc. unfold finish. rewrite bind_get. cbv beta zeta.
  assert (Herr : ∃ t, error_of m = Some t).
  { unfold error_of. rewrite Hexc. destruct (caught_signal m); eauto. }
  destruct Herr as [t ->].
  unfold write_annotation_file at 1. unfold bind at 1. rewrite bind_modify.
  unfold ret at 1. cbv beta iota.
  match goal with
  | |- context [bind (remove_ping_file e ?p false) ?k ?m1] =>
      destruct (remove_ping_file_disk e p false m1) as (f2 & Hrm2);
      pose proof (remove_ping_file_lookup e p (picture r) false
                    (disk m !! picture r) (executing_ping_apart r) m1) as Hl;
      rewrite (bind_inr _ _ _ _ _ Hrm2)
  end.
  rewrite Hrm2 in Hl. cbv beta iota delta [snd] in Hl.
  rewrite !disk_of_with_disk in Hl.
  assert (Hf2 : f2 !! picture r = disk m !! picture r).
  { apply Hl. apply lookup_insert_ne, annotation_not_picture. }
  clear Hl Hrm2. rewrite bind_modify.
  unfold bind at 1. rewrite read_attachment_on.
  match goal with
  | |- context [attachment_on e r (disk ?m3)] =>
      assert (Hd : disk m3 = f2) by (by destruct m); rewrite Hd; clear Hd
  end.
  rewrite (attachment_on_ext e r _ _ Hf2).
  destruct (attachment_on e r (disk m)) as [y|a].
  - eexists. split; [reflexivity|]. rewrite app_nil_r. by destruct m.
  - unfold notify at 1. rewrite bind_modify.
    match goal with
    | |- context [bind (remove_ping_file e ?p true) ?k ?m4] =>
        destruct (remove_ping_file_disk e p true m4) as (f5 & Hrm5);
        rewrite (bind_inr _ _ _ _ _ Hrm5)
    end.
    rewrite Hexc. eexists. split; [reflexivity|]. by destruct m.
Qed.

(** The check of the output files removes placeholders only. *)
Lemma preserves_fsc_method (P : machine → Prop) (name : string)
    (path : pystr) :
  (∀ c m, P m → P (with_fsc c m)) → preserves P (fsc_method name path).
Proof. intros H m Hm. unfold fsc_method. cbv zeta. cbn [snd]. by apply H. Qed.

Lemma check_output_lookup (temp out p : pystr) (o : option pystr)
    (v : option node) :
  (∀ q, q ++ VOLATILE_SUFFIX ≠ p) →
  preserves (λ m, disk m !! p = v) (check_output temp out o).
Proof.
  intros Hp. unfold check_output, kp_get, kp_set. cbv zeta.
  repeat first
    [ apply lookup_os_call; intros f f'; apply os_unlink_lookup, Hp
    | apply preserves_fsc_method; intros c [] Hm; exact Hm
    | preserves_step ].
Qed.

Lemma check_outputs_lookup (temp p : pystr) (r : Run.t) (v : option node) :
  (∀ q, q ++ VOLATILE_SUFFIX ≠ p) →
  preserves (λ m, disk m !! p = v) (check_outputs temp r).
Proof.
  intros Hp. unfold check_outputs, catch_exception.
  repeat first
    [ apply preserves_for_each; intros ? _
    | apply check_output_lookup, Hp
    | preserves_step ].
Qed.

(** *** The run *)



Lemma announcing_run_inputs_declared : inputs_declared announcing_run.
Proof.
  intros tag files name Htag Hname.
  apply list_elem_of_singleton in Htag. injection Htag as -> ->.
  apply list_elem_of_singleton in Hname. discriminate Hname.
Qed.

Lemma announcing_run_declared (name : pystr) :
  declared_output announcing_run name → name = lit "foo.out".
Proof.
  intros (_ & tag & files & ins & Htag & Hname).
  apply list_elem_of_singleton in Htag. injection Htag as -> ->.
  apply list_elem_of_singleton in Hname. by injection Hname as -> _.
Qed.


(** ** Declared options and their values *)

Lemma add_option_returns key option_types optional default description
    choices s s1 :
  add_option key option_types optional default description choices s
  = (inr tt, s1) →
  ∃ desc,
    s1 = with_defined_options
           (dict_set key
              (OptionInfo option_types optional default desc choices)
              (_defined_options s)) s
    ∧ dict_get key (_defined_options s) = None
    ∧ head key ≠ Some ch_underscore
    ∧ key ≠ []
    ∧ (truthy optional = true →
       default = VNone ∨ py_type default ∈ option_types).
Proof.
  unfold add_option. destruct key as [|c key]; [done|]. msimpl.
  destruct (c =? ch_underscore)%N eqn:Hc; [done|].
  unfold dict_has.
  destruct (dict_get (c :: key) (_defined_options s)) eqn:Hget; [done|].
  destruct (bool_decide (option_types = [])); [done|].
  destruct (bool_decide (1 < length option_types)%nat && negb (is_none choices));
    [done|].
  destruct (existsb _ option_types); [done|].
  destruct (truthy optional && negb (is_none default)
            && negb (bool_decide (py_type default ∈ option_types)))
    eqn:Hdefault; [done|].
  intros H.
  assert (Hhead : head (c :: key) ≠ Some ch_underscore).
  { cbn. intros [= ->]. by rewrite N.eqb_refl in Hc. }
  assert (Htyped : truthy optional = true →
                   default = VNone ∨ py_type default ∈ option_types).
  { intros Ho. rewrite Ho in Hdefault. cbn [andb] in Hdefault.
    apply andb_false_iff in Hdefault as [Hd|Hd].
    - left. by destruct default.
    - right. apply negb_false_iff in Hd. by apply bool_decide_eq_true_1 in Hd. }
  destruct description; try done; injection H as <-; eauto 10.
Qed.

(** X1: an option that [add_option] has declared is found under its key
    with the types, the optional flag, the default and the choices that were
    given, the other declarations stay as they were, the key was not
    declared before, and any further [add_option] with that key raises the
    error that the option is already defined and changes nothing. *)
Theorem add_option_defines_once
    (key : pystr) (option_types : list pytype)
    (optional default description choices : pyval) (s s1 : step) :
  add_option key option_types optional default description choices s
  = (inr tt, s1) →
  (∃ info, dict_get key (_defined_options s1) = Some info
           ∧ types info = option_types ∧ AbstractStep.optional info = optional
           ∧ default_value info = default
           ∧ AbstractStep.choices info = choices)
  ∧ (∀ k, k ≠ key →
       dict_get k (_defined_options s1) = dict_get k (_defined_options s))
  ∧ dict_get key (_defined_options s) = None
  ∧ (∀ option_types' optional' default' description' choices',
       add_option key option_types' optional' default' description' choices' s1
       = (inl (UAPError (OptionAlreadyDefined key)), s1)).
Proof.
  intros H.
  apply add_option_returns in H as (desc & -> & Hnew & Hhead & Hkey & _).
  assert (Hdef : ∀ d, _defined_options (with_defined_options d s) = d)
    by (intros d; by destruct s).
  rewrite Hdef. split; [|split; [|split]].
  - eexists. rewrite dict_get_set, decide_True by done.
    split; [reflexivity|]. by repeat split.
  - intros k Hk. rewrite dict_get_set. by rewrite decide_False.
  - exact Hnew.
  - intros t o d de ch. unfold add_option.
    destruct key as [|c key]; [done|]. msimpl.
    destruct (c =? ch_underscore)%N eqn:Hc.
    { apply N.eqb_eq in Hc as ->. by destruct Hhead. }
    unfold dict_has. rewrite Hdef, dict_get_set, decide_True by done. done.
Qed.

Lemma add_option_defines_once_witness :
  let s := init (lit "cutadapt") (lit "/data") in
  let s1 := (add_option (lit "adapter") [TStr] (VBool false) VNone VNone VNone
               s).2 in
  dict_get (lit "adapter") (_defined_options s) = None
  ∧ add_option (lit "adapter") [TInt; TStr] (VBool true) (VInt 3) VNone VNone s1
    = (inl (UAPError (OptionAlreadyDefined (lit "adapter"))), s1).
Proof.
  intros s s1.
  destruct (add_option_defines_once (lit "adapter") [TStr] (VBool false)
              VNone VNone VNone s s1 eq_refl) as (_ & _ & Hnew & Hagain).
  split; [exact Hnew|apply Hagain].
Defined.

(** *** What the calls of the set-up keep *)

Lemma dict_keys_set {V} (k k' : pystr) (v : V) (d : list (pystr * V)) :
  k' ∈ dict_keys (dict_set k v d) → k' = k ∨ k' ∈ dict_keys d.
Proof.
  induction d as [|[k0 v0] d IH]; cbn [dict_set].
  - intros Hk. apply list_elem_of_singleton in Hk. by left.
  - destruct (decide (k0 = k)) as [->|Hne]; cbn [dict_keys fmap list_fmap fst].
    + intros Hk. by right.
    + intros Hk. apply elem_of_cons in Hk as [->|Hk]; [right; by left|].
      destruct (IH Hk) as [->|Hin]; [by left|]. right. by right.
Qed.

Lemma dict_get_key {V} (k : pystr) (v : V) (d : list (pystr * V)) :
  dict_get k d = Some v → k ∈ dict_keys d.
Proof.
  intros H. destruct (decide (k ∈ dict_keys d)) as [|Hno]; [done|].
  by rewrite (dict_get_not_key _ _ Hno) in H.
Qed.

Lemma add_option_raises key option_types optional default description
    choices s x s1 :
  add_option key option_types optional default description choices s
  = (inl x, s1) → s1 = s.
Proof.
  unfold add_option. destruct key as [|c key]; [by intros [= _ <-]|]. msimpl.
  repeat (match goal with
          | |- context [if ?b then _ else _] =>
              destruct b; [by intros [= _ <-]|]
          end).
  destruct description; try done; by intros [= _ <-].
Qed.

Lemma set_cores_keeps_defined cores : keeps _defined_options (set_cores cores).
Proof. unfold set_cores. repeat keeps_step. Qed.

Lemma add_connection_keeps_defined c o f d :
  keeps _defined_options (add_connection c o f d).
Proof. unfold add_connection. repeat keeps_step. Qed.

Lemma set_option_keeps_defined key value :
  keeps _defined_options (set_option key value).
Proof. unfold set_option, store_option, log. repeat keeps_step. Qed.

Lemma set_options_keeps_defined options :
  keeps _defined_options (set_options options).
Proof.
  unfold set_options, setdefault_option, wrap_depends,
    add_implied_dependencies, add_implied_dependency, default_option,
    store_option.
  repeat (keeps_step || apply set_option_keeps_defined).
Qed.

Lemma declare_run_keeps_defined r : keeps _defined_options (declare_run r).
Proof. unfold declare_run, add_run. repeat keeps_step. Qed.

Lemma perform_options_wellformed (s : step) (c : setup_call) :
  underscore_free (_defined_options s) ∧ defaults_typed (_defined_options s) →
  underscore_free (_defined_options (perform s c))
  ∧ defaults_typed (_defined_options (perform s c)).
Proof.
  intros [Hfree Htyped].
  destruct c as [cores|c o f d|key option_types opt default descr ch
                |options|run_id]; cbn [perform].
  - by rewrite set_cores_keeps_defined.
  - by rewrite add_connection_keeps_defined.
  - destruct (add_option key option_types opt default descr ch s)
      as [[x|[]] s1] eqn:Hadd; cbn [snd].
    + by rewrite (add_option_raises _ _ _ _ _ _ _ _ _ Hadd).
    + apply add_option_returns in Hadd
        as (desc & -> & Hnew & Hhead & _ & Hdefault).
      assert (Hdef : ∀ d, _defined_options (with_defined_options d s) = d)
        by (intros d; by destruct s).
      rewrite Hdef. split.
      * intros k Hk. apply dict_keys_set in Hk as [->|Hk]; [done|].
        by apply Hfree.
      * intros k info. rewrite dict_get_set.
        destruct (decide (key = k)) as [->|Hne]; [|apply Htyped].
        intros [= <-]. cbn [AbstractStep.optional default_value types].
        intros Ho. apply Hdefault. by destruct opt as [|[]| | | | |].
  - by rewrite set_options_keeps_defined.
  - by rewrite declare_run_keeps_defined.
Qed.

Lemma setup_options_wellformed (module destination : pystr)
    (calls : list setup_call) :
  underscore_free (_defined_options (foldl perform (init module destination)
                                       calls))
  ∧ defaults_typed (_defined_options (foldl perform (init module destination)
                                        calls)).
Proof.
  assert (H : ∀ s, underscore_free (_defined_options s)
                   ∧ defaults_typed (_defined_options s) →
               underscore_free (_defined_options (foldl perform s calls))
               ∧ defaults_typed (_defined_options (foldl perform s calls))).
  { induction calls as [|c calls IH]; intros s Hs; [done|].
    cbn [foldl]. apply IH. by apply perform_options_wellformed. }
  apply H. split.
  - intros k Hk. by apply elem_of_nil in Hk.
  - intros k info Hk. done.
Qed.

(** X2: whatever calls a step class makes on itself while it is set up, no
    declared option begins with an underscore, and the default of every
    option that is declared optional is [None] or a value of one of the
    types the option was declared with. *)
Theorem setup_keeps_options_wellformed (module destination : pystr)
    (calls : list setup_call) :
  let s := foldl perform (init module destination) calls in
  underscore_free (_defined_options s) ∧ defaults_typed (_defined_options s).
Proof. apply setup_options_wellformed. Qed.

(** *** The stages of [set_options] *)

Lemma options_of_with_options o s : _options (with_options o s) = o.
Proof. by destruct s. Qed.

Lemma keeps_store_option (k key : pystr) (value : pyval) :
  key ≠ k → keeps (λ s, dict_get k (_options s)) (store_option key value).
Proof.
  intros Hne s. unfold store_option, modify. cbn [snd].
  rewrite options_of_with_options, dict_get_set. by rewrite decide_False.
Qed.

Lemma keeps_setdefault_option (k key : pystr) (value : pyval) :
  key ≠ k → keeps (λ s, dict_get k (_options s)) (setdefault_option key value).
Proof.
  intros Hne s. rewrite setdefault_option_get.
  destruct (dict_get k (_options s)); [done|]. by rewrite decide_False.
Qed.

(** What follows the two loops of [set_options] changes underscore keys
    only. *)
Lemma set_options_returns (options : list (pystr * pyval)) (s s' : step) :
  set_options options s = (inr tt, s') →
  ∃ s1 s2,
    for_each options (λ kv, set_option kv.1 kv.2) (with_options [] s)
    = (inr tt, s1)
    ∧ for_each (_defined_options s) (λ ki, default_option ki.1 ki.2) s1
      = (inr tt, s2)
    ∧ _defined_options s1 = _defined_options s
    ∧ _defined_options s' = _defined_options s
    ∧ ∀ k, head k ≠ Some ch_underscore →
           dict_get k (_options s') = dict_get k (_options s2).
Proof.
  intros H.
  assert (Hdef : _defined_options s' = _defined_options s).
  { pose proof (set_options_keeps_defined options s) as Hk.
    by rewrite H in Hk. }
  unfold set_options in H.
  apply bind_returns in H as ([] & s0 & H0 & H). injection H0 as <-.
  apply bind_returns in H as ([] & s1 & H1 & H).
  apply bind_returns in H as ([] & s2 & H2 & H).
  pose proof (set_option_loop_returns _ _ _ H1) as [_ Hdef1].
  assert (Hdef0 : _defined_options (with_options [] s) = _defined_options s)
    by by destruct s.
  rewrite Hdef0 in Hdef1.
  unfold bind at 1, get in H2. rewrite Hdef1 in H2.
  exists s1, s2. do 4 (split; [done|]).
  intros k Hk.
  match type of H with
  | ?c s2 = _ =>
      assert (Hkeeps : keeps (λ s, dict_get k (_options s)) c)
  end.
  { assert (Hlit : ∀ key, head key = Some ch_underscore → key ≠ k)
      by (intros key Hkey ->; done).
    cbn [for_each]. unfold wrap_depends, add_implied_dependencies,
      add_implied_dependency.
    repeat first
      [ apply keeps_setdefault_option; apply Hlit; reflexivity
      | apply keeps_store_option; apply Hlit; reflexivity
      | keeps_step ]. }
  specialize (Hkeeps s2). by rewrite H in Hkeeps.
Qed.

Lemma set_option_checked key value s s1 :
  set_option key value s = (inr tt, s1) →
  head key = Some ch_underscore
  ∨ ∃ info, dict_get key (_defined_options s) = Some info
            ∧ value_typed info value.
Proof.
  unfold set_option. destruct key as [|c key]; [done|]. msimpl.
  destruct (c =? ch_underscore)%N eqn:Hc.
  { apply N.eqb_eq in Hc as ->. by left. }
  unfold log. msimpl.
  destruct (dict_get (c :: key) (_defined_options s)) as [info|]; [|done].
  destruct (negb (is_none value)
            && negb (bool_decide (py_type value ∈ types info))) eqn:Ht;
    [done|].
  intros _. right. exists info. split; [done|].
  apply andb_false_iff in Ht as [Ht|Ht].
  - left. by destruct value.
  - right. apply negb_false_iff in Ht. by apply bool_decide_eq_true_1 in Ht.
Qed.

Lemma set_option_loop_checked options s s1 :
  for_each options (λ kv, set_option kv.1 kv.2) s = (inr tt, s1) →
  ∀ key value, (key, value) ∈ options →
    head key = Some ch_underscore
    ∨ ∃ info, dict_get key (_defined_options s) = Some info
              ∧ value_typed info value.
Proof.
  revert s. induction options as [|[k v] options IH]; intros s H key value Hin.
  { by apply elem_of_nil in Hin. }
  apply for_each_cons_returns in H as (s0 & H0 & H).
  apply elem_of_cons in Hin as [[= -> ->]|Hin].
  - by apply (set_option_checked _ _ _ _ H0).
  - pose proof (set_option_keeps_defined k v s) as Hk.
    cbn [fst snd] in H0. rewrite H0 in Hk. cbn [snd] in Hk.
    rewrite <- Hk. by apply (IH s0).
Qed.

Lemma foldl_dict_set_elem (k : pystr) (v : pyval)
    (options d : list (pystr * pyval)) :
  dict_get k (foldl (λ d kv, dict_set kv.1 kv.2 d) d options) = Some v →
  (k, v) ∈ options ∨ dict_get k d = Some v.
Proof.
  revert d. induction options as [|[k0 v0] options IH]; intros d H.
  { by right. }
  cbn [foldl fst snd] in H. destruct (IH _ H) as [Hin|Hget].
  - left. by right.
  - rewrite dict_get_set in Hget.
    destruct (decide (k0 = k)) as [->|Hne]; [|by right].
    injection Hget as ->. left. by left.
Qed.

Lemma dict_get_split {V} (k : pystr) (v : V) (d : list (pystr * V)) :
  dict_get k d = Some v →
  ∃ pre rest, d = pre ++ (k, v) :: rest ∧ k ∉ dict_keys pre.
Proof.
  induction d as [|[k0 v0] d IH]; [done|]. cbn [dict_get].
  destruct (decide (k0 = k)) as [->|Hne].
  - intros [= ->]. exists [], d. split; [done|]. apply not_elem_of_nil.
  - intros H. destruct (IH H) as (pre & rest & -> & Hpre).
    exists ((k0, v0) :: pre), rest. split; [done|].
    cbn. apply not_elem_of_cons. split; [congruence|done].
Qed.

Lemma for_each_app_returns {S A} (l l' : list A) (body : A → M S unit) s s' :
  for_each (l ++ l') body s = (inr tt, s') →
  ∃ s1, for_each l body s = (inr tt, s1) ∧ for_each l' body s1 = (inr tt, s').
Proof.
  rewrite for_each_app. intros H.
  apply bind_returns in H as ([] & s1 & ? & ?). eauto.
Qed.

Lemma default_loop_keeps_present (l : list (pystr * option_info)) s s' k v :
  for_each l (λ ki, default_option ki.1 ki.2) s = (inr tt, s') →
  dict_get k (_options s) = Some v → dict_get k (_options s') = Some v.
Proof.
  revert s. induction l as [|[k0 info] l IH]; intros s H Hk.
  - by injection H as <-.
  - apply for_each_cons_returns in H as (s1 & H1 & H).
    apply (IH _ H). clear IH H.
    unfold default_option, store_option in H1. msimpl. cbn [fst snd] in H1.
    unfold dict_has in H1.
    destruct (dict_get k0 (_options s)) eqn:Hk0; [by injection H1 as <-|].
    destruct (negb _); [done|]. injection H1 as <-.
    rewrite options_of_with_options, dict_get_set.
    destruct (decide (k0 = k)) as [->|]; [congruence|done].
Qed.

(** The second loop of [set_options]: an option that is declared and was
    not set gets its default, and then it is declared optional. *)
Lemma default_loop_get (defined : list (pystr * option_info)) s1 s2 key info :
  for_each defined (λ ki, default_option ki.1 ki.2) s1 = (inr tt, s2) →
  dict_get key defined = Some info →
  dict_get key (_options s2)
  = Some (default (default_value info) (dict_get key (_options s1)))
  ∧ (dict_get key (_options s1) = None → is_true (optional info) = true).
Proof.
  intros H Hget.
  apply dict_get_split in Hget as (pre & rest & -> & Hpre).
  apply for_each_app_returns in H as (sa & Hpre_run & H).
  apply for_each_cons_returns in H as (sb & Hkey & Hrest).
  pose proof (default_option_loop_returns _ _ _ key Hpre_run Hpre) as Ha.
  rewrite <- Ha.
  unfold default_option, store_option in Hkey. msimpl. cbn [fst snd] in Hkey.
  unfold dict_has in Hkey.
  destruct (dict_get key (_options sa)) as [v|] eqn:Hsa.
  - injection Hkey as <-. cbn [default]. split; [|done].
    by apply (default_loop_keeps_present _ _ _ _ _ Hrest).
  - destruct (is_true (optional info)) eqn:Hopt; [|done]. cbn [negb] in Hkey.
    injection Hkey as <-. cbn [default]. split; [|done].
    apply (default_loop_keeps_present _ _ _ _ _ Hrest).
    rewrite options_of_with_options, dict_get_set. by rewrite decide_True.
Qed.

(** The value in effect after [set_options]. *)
Lemma set_options_value (options : list (pystr * pyval)) (s s' : step)
    (key : pystr) (info : option_info) :
  set_options options s = (inr tt, s') →
  dict_get key (_defined_options s) = Some info →
  head key ≠ Some ch_underscore →
  ∃ s1,
    for_each options (λ kv, set_option kv.1 kv.2) (with_options [] s)
    = (inr tt, s1)
    ∧ _defined_options s' = _defined_options s
    ∧ dict_get key (_options s')
      = Some (default (default_value info) (dict_get key (_options s1)))
    ∧ (dict_get key (_options s1) = None → is_true (optional info) = true)
    ∧ _options s1 = foldl (λ d kv, dict_set kv.1 kv.2 d) [] options.
Proof.
  intros H Hinfo Hkey.
  apply set_options_returns in H as (s1 & s2 & H1 & H2 & Hdef1 & Hdef & Htail).
  exists s1. split; [done|]. split; [done|].
  destruct (default_loop_get _ _ _ _ _ H2 Hinfo) as [Hget Hopt].
  rewrite (Htail key Hkey). split; [done|]. split; [done|].
  apply set_option_loop_returns in H1 as [-> _].
  by rewrite options_of_with_options.
Qed.

Lemma set_options_effective (options : list (pystr * pyval)) (s s' : step)
    (key : pystr) (info : option_info) :
  NoDup (dict_keys options) →
  set_options options s = (inr tt, s') →
  dict_get key (_defined_options s) = Some info →
  head key ≠ Some ch_underscore →
  dict_has key (_defined_options s') = true
  ∧ dict_get key (_options s')
    = Some (default (default_value info) (dict_get key options)).
Proof.
  intros Hnd H Hinfo Hkey.
  destruct (set_options_value _ _ _ _ _ H Hinfo Hkey)
    as (s1 & _ & Hdef & Hget & _ & Hs1).
  split.
  - unfold dict_has. by rewrite Hdef, Hinfo.
  - rewrite Hget, Hs1, (foldl_dict_set_get key options [] Hnd).
    by destruct (dict_get key options).
Qed.

(** X3: when [set_options] has returned on a step whose declarations are
    as [add_option] leaves them, every declared option can be queried with
    [get_option], and what it returns is [None] or a value of one of the
    types the option was declared with. *)
Theorem set_options_values_typed
    (options : list (pystr * pyval)) (s s' : step) :
  underscore_free (_defined_options s) →
  defaults_typed (_defined_options s) →
  set_options options s = (inr tt, s') →
  ∀ key info, dict_get key (_defined_options s') = Some info →
    ∃ v, get_option key s' = inr v ∧ value_typed info v.
Proof.
  intros Hfree Htyped H key info Hinfo.
  assert (Hdef : _defined_options s' = _defined_options s).
  { pose proof (set_options_keeps_defined options s) as Hk.
    by rewrite H in Hk. }
  rewrite Hdef in Hinfo.
  assert (Hkey : head key ≠ Some ch_underscore).
  { apply Hfree. by apply (dict_get_key _ info). }
  destruct (set_options_value _ _ _ _ _ H Hinfo Hkey)
    as (s1 & H1 & _ & Hget & Hopt & Hs1).
  exists (default (default_value info) (dict_get key (_options s1))).
  split.
  - unfold get_option, dict_has. by rewrite Hdef, Hinfo, Hget.
  - destruct (dict_get key (_options s1)) as [v|] eqn:Hv; cbn [default].
    + rewrite Hs1 in Hv. apply foldl_dict_set_elem in Hv as [Hin|Hv]; [|done].
      destruct (set_option_loop_checked _ _ _ H1 _ _ Hin)
        as [Hu|(info' & Hinfo' & Hok)]; [done|].
      assert (Hdef0 : _defined_options (with_options [] s)
                      = _defined_options s) by by destruct s.
      rewrite Hdef0, Hinfo in Hinfo'. injection Hinfo' as <-. exact Hok.
    + apply (Htyped key info Hinfo). by apply Hopt.
Qed.

Lemma trimming_step_wellformed :
  underscore_free (_defined_options trimming_step)
  ∧ defaults_typed (_defined_options trimming_step).
Proof. apply setup_options_wellformed. Qed.

Lemma set_options_values_typed_witness :
  let s' := (set_options [(lit "adapter", VStr (lit "AGT"))]
               trimming_step).2 in
  ∃ v, get_option (lit "minimum-length") s' = inr v
       ∧ value_typed (OptionInfo [TInt] (VBool true) (VInt 20)
                        (VStr (lit "shortest read kept")) VNone) v.
Proof.
  intros s'.
  apply (set_options_values_typed [(lit "adapter", VStr (lit "AGT"))]
           trimming_step s'
           (proj1 trimming_step_wellformed) (proj2 trimming_step_wellformed)).
  - unfold s'. rewrite (surjective_pairing (set_options _ _)) at 1.
    apply (f_equal2 pair); [vm_compute|]; reflexivity.
  - vm_compute. reflexivity.
Defined.

(** X4: a declared option that is not declared optional has to be in the
    configuration: without it [set_options] raises an error. *)
Theorem set_options_requires_required_options
    (options : list (pystr * pyval)) (s : step) (key : pystr)
    (info : option_info) :
  dict_get key (_defined_options s) = Some info →
  is_true (optional info) = false →
  key ∉ dict_keys options →
  ∃ x, (set_options options s).1 = inl x.
Proof.
  intros Hinfo Hreq Hkey.
  destruct (set_options options s) as [[x|[]] s'] eqn:H; [by exists x|].
  exfalso.
  apply set_options_returns in H as (s1 & s2 & H1 & H2 & _ & _ & _).
  destruct (default_loop_get _ _ _ _ _ H2 Hinfo) as [_ Hopt].
  apply set_option_loop_returns in H1 as [Hs1 _].
  rewrite options_of_with_options in Hs1.
  destruct (dict_get key (_options s1)) as [v|] eqn:Hv.
  - rewrite Hs1 in Hv. apply foldl_dict_set_elem in Hv as [Hin|Hv]; [|done].
    apply Hkey. unfold dict_keys. apply list_elem_of_fmap.
    by exists (key, v).
  - rewrite Hopt in Hreq; done.
Qed.

Lemma set_options_requires_required_options_witness :
  ∃ x, (set_options [(lit "minimum-length", VInt 30)] trimming_step).1
       = inl x.
Proof.
  apply (set_options_requires_required_options
           [(lit "minimum-length", VInt 30)] trimming_step (lit "adapter")
           (OptionInfo [TStr] (VBool false) VNone VNone VNone)).
  - vm_compute. reflexivity.
  - reflexivity.
  - apply (bool_decide_unpack _). vm_compute. exact I.
Defined.

(** X5: after [set_options], [get_option] returns for a declared option
    the value the configuration gives it, and the declared default when the
    configuration does not hold the option. *)
Theorem get_option_after_set_options
    (options : list (pystr * pyval)) (s s' : step) (key : pystr)
    (info : option_info) :
  NoDup (dict_keys options) →
  set_options options s = (inr tt, s') →
  dict_get key (_defined_options s) = Some info →
  head key ≠ Some ch_underscore →
  get_option key s'
  = inr (default (default_value info) (dict_get key options)).
Proof.
  intros Hnd H Hinfo Hkey.
  destruct (set_options_effective _ _ _ _ _ Hnd H Hinfo Hkey) as [Hhas Hget].
  unfold get_option. by rewrite Hhas, Hget.
Qed.

Lemma get_option_after_set_options_witness :
  let s' := (set_options [(lit "adapter", VStr (lit "AGT"))]
               trimming_step).2 in
  get_option (lit "adapter") s' = inr (VStr (lit "AGT"))
  ∧ get_option (lit "minimum-length") s' = inr (VInt 20).
Proof.
  intros s'.
  assert (Hnd : NoDup (dict_keys [(lit "adapter", VStr (lit "AGT"))]))
    by (apply (bool_decide_unpack _); vm_compute; exact I).
  assert (Hrun : set_options [(lit "adapter", VStr (lit "AGT"))] trimming_step
                 = (inr tt, s')).
  { unfold s'. rewrite (surjective_pairing (set_options _ _)) at 1.
    apply (f_equal2 pair); [vm_compute|]; reflexivity. }
  split.
  - apply (get_option_after_set_options _ trimming_step s' (lit "adapter")
             (OptionInfo [TStr] (VBool false) VNone VNone VNone) Hnd Hrun);
      [vm_compute; reflexivity|discriminate].
  - apply (get_option_after_set_options _ trimming_step s'
             (lit "minimum-length")
             (OptionInfo [TInt] (VBool true) (VInt 20)
                (VStr (lit "shortest read kept")) VNone) Hnd Hrun);
      [vm_compute; reflexivity|discriminate].
Defined.

(** X6: an underscore option cannot be queried: on a step that is set up
    by calls on itself, [get_option] and [is_option_set_in_config] raise the
    error of an undefined option for every key that begins with an
    underscore, whether the configuration has set it or not. *)
Theorem underscore_options_not_queryable (module destination : pystr)
    (calls : list setup_call) (key : pystr) :
  head key = Some ch_underscore →
  let s := foldl perform (init module destination) calls in
  get_option key s = inl (UAPError (UndefinedOptionQuery key))
  ∧ is_option_set_in_config key s = inl (UAPError (UndefinedOptionQuery key)).
Proof.
  intros Hkey s.
  destruct (setup_options_wellformed module destination calls) as [Hfree _].
  fold s in Hfree.
  assert (Hno : dict_has key (_defined_options s) = false).
  { unfold dict_has. rewrite dict_get_not_key; [done|].
    intros Hin. by apply (Hfree key Hin). }
  unfold get_option, is_option_set_in_config. by rewrite Hno.
Qed.

Lemma underscore_options_not_queryable_witness :
  let s := foldl perform (init (lit "cutadapt") (lit "/data"))
             [ CallSetOptions [(lit "_depends", VStr (lit "fastqc"))] ] in
  dict_get (lit "_depends") (get_options s) = Some (VList [VStr (lit "fastqc")])
  ∧ get_option (lit "_depends") s
    = inl (UAPError (UndefinedOptionQuery (lit "_depends"))).
Proof.
  intros s. split; [vm_compute; reflexivity|].
  apply (underscore_options_not_queryable (lit "cutadapt") (lit "/data")
           [ CallSetOptions [(lit "_depends", VStr (lit "fastqc"))] ]
           (lit "_depends") eq_refl).
Defined.

(** X7: after [set_options], [is_option_set_in_config] reports on the value
    in effect and not on the configuration: for a declared option it returns
    whether the configured value, or the declared default when the
    configuration does not hold the option, is not [None] (for a list:
    whether some element is not [None]). *)
Theorem is_option_set_in_config_reports_value
    (options : list (pystr * pyval)) (s s' : step) (key : pystr)
    (info : option_info) :
  NoDup (dict_keys options) →
  set_options options s = (inr tt, s') →
  dict_get key (_defined_options s) = Some info →
  head key ≠ Some ch_underscore →
  is_option_set_in_config key s'
  = inr (counts_as_set
           (default (default_value info) (dict_get key options))).
Proof.
  intros Hnd H Hinfo Hkey.
  destruct (set_options_effective _ _ _ _ _ Hnd H Hinfo Hkey) as [Hhas Hget].
  unfold is_option_set_in_config. rewrite Hhas, Hget. cbn [negb].
  by destruct (default (default_value info) (dict_get key options)).
Qed.

Lemma is_option_set_in_config_reports_value_witness :
  let options := [(lit "adapter", VStr (lit "AGT"))] in
  let s' := (set_options options trimming_step).2 in
  dict_get (lit "minimum-length") options = None
  ∧ is_option_set_in_config (lit "minimum-length") s' = inr true.
Proof.
  intros options s'. split; [reflexivity|].
  assert (Hnd : NoDup (dict_keys options))
    by (apply (bool_decide_unpack _); vm_compute; exact I).
  assert (Hrun : set_options options trimming_step = (inr tt, s')).
  { unfold s'. rewrite (surjective_pairing (set_options _ _)) at 1.
    apply (f_equal2 pair); [vm_compute|]; reflexivity. }
  apply (is_option_set_in_config_reports_value options trimming_step s'
           (lit "minimum-length")
           (OptionInfo [TInt] (VBool true) (VInt 20)
              (VStr (lit "shortest read kept")) VNone) Hnd Hrun);
    [vm_compute; reflexivity|discriminate].
Defined.

(** ** Connections: what the set-up keeps *)

Lemma add_connection_fields (connection : pystr)
    (optional format description : pyval) (s : step) :
  let s1 := (add_connection connection optional format description s).2 in
  s1 = s
  ∨ ((take 3 connection = lit "in/" ∨ take 4 connection = lit "out/")
     ∧ get_connections true s1 = {[connection]} ∪ get_connections true s
     ∧ get_connections false s1
       = (if is_true optional then get_connections false s
          else {[connection]} ∪ get_connections false s)
     ∧ needs_parents s1
       = bool_decide (take 3 connection = lit "in/") || needs_parents s).
Proof.
  unfold add_connection.
  destruct (negb _) eqn:Hp; [by left|]. right.
  split.
  { apply negb_false_iff, orb_true_iff in Hp as [Hp|Hp];
      apply bool_decide_eq_true_1 in Hp; [by left|by right]. }
  clear Hp.
  replace (match optional with
           | VBool true =>
               modify (λ s, with_optional_connections
                              ({[connection]} ∪ _optional_connections s) s)
           | _ => modify (λ s, with_connections
                                 ({[connection]} ∪ _connections s) s)
           end)
    with (if is_true optional
          then modify (λ s, with_optional_connections
                              ({[connection]} ∪ _optional_connections s) s)
          else modify (λ s, with_connections
                              ({[connection]} ∪ _connections s) s))
    by (by destruct optional as [| [] | | | | |]).
  replace (match format with
           | VNone => ret tt
           | _ => modify (λ s, with_connection_formats
                                 (<[connection := format]>
                                    (_connection_formats s)) s)
           end)
    with (if is_none format then ret tt
          else modify (λ s, with_connection_formats
                              (<[connection := format]>
                                 (_connection_formats s)) s))
    by (by destruct format).
  destruct s as [n mo de dp op ru co cs ocs cf cd dopt np lg].
  msimpl.
  destruct (bool_decide (take 3 connection = lit "in/"));
    destruct (is_true optional); destruct (is_none format);
    destruct description; cbv beta iota delta [snd]; step_fields;
    (split; [|split; reflexivity]);
    apply set_eq; intros x; rewrite !elem_of_union; tauto.
Qed.

Lemma set_cores_keeps_connections cores :
  keeps (λ s, (_connections s, _optional_connections s, needs_parents s))
    (set_cores cores).
Proof. unfold set_cores. repeat keeps_step. Qed.

Lemma add_option_keeps_connections k t o d de ch :
  keeps (λ s, (_connections s, _optional_connections s, needs_parents s))
    (add_option k t o d de ch).
Proof. unfold add_option. repeat keeps_step. Qed.

Lemma set_option_keeps_connections key value :
  keeps (λ s, (_connections s, _optional_connections s, needs_parents s))
    (set_option key value).
Proof. unfold set_option, store_option, log. repeat keeps_step. Qed.

Lemma set_options_keeps_connections options :
  keeps (λ s, (_connections s, _optional_connections s, needs_parents s))
    (set_options options).
Proof.
  unfold set_options, setdefault_option, wrap_depends,
    add_implied_dependencies, add_implied_dependency, default_option,
    store_option.
  repeat (keeps_step || apply set_option_keeps_connections).
Qed.

Lemma declare_run_keeps_connections r :
  keeps (λ s, (_connections s, _optional_connections s, needs_parents s))
    (declare_run r).
Proof. unfold declare_run, add_run. repeat keeps_step. Qed.

Lemma same_connections (s s1 : step) :
  (_connections s1, _optional_connections s1, needs_parents s1)
  = (_connections s, _optional_connections s, needs_parents s) →
  (∀ b, get_connections b s1 = get_connections b s)
  ∧ needs_parents s1 = needs_parents s.
Proof.
  intros [= H1 H2 H3]. split; [|done].
  intros b. unfold get_connections. by rewrite H1, H2.
Qed.

(** What a call of the set-up does to the connections. *)
Lemma perform_connections (s : step) (c : setup_call) :
  ((∀ b, get_connections b (perform s c) = get_connections b s)
   ∧ needs_parents (perform s c) = needs_parents s)
  ∨ ∃ connection,
      (take 3 connection = lit "in/" ∨ take 4 connection = lit "out/")
      ∧ get_connections true (perform s c)
        = {[connection]} ∪ get_connections true s
      ∧ get_connections false (perform s c)
        ⊆ {[connection]} ∪ get_connections false s
      ∧ needs_parents (perform s c)
        = bool_decide (take 3 connection = lit "in/") || needs_parents s.
Proof.
  destruct c as [cores|c o f d|key option_types opt default descr ch
                |options|run_id]; cbn [perform].
  - left. apply same_connections, set_cores_keeps_connections.
  - destruct (add_connection_fields c o f d s)
      as [->|(Hprefix & Hall & Hreq & Hneeds)]; [by left|].
    right. exists c. split; [done|]. split; [done|]. split; [|done].
    rewrite Hreq. destruct (is_true o); [|done].
    intros x Hx. apply elem_of_union. by right.
  - left. apply same_connections, add_option_keeps_connections.
  - left. apply same_connections, set_options_keeps_connections.
  - left. apply same_connections, declare_run_keeps_connections.
Qed.

Lemma in_out_exclusive (c : pystr) :
  take 3 c = lit "in/" → take 4 c = lit "out/" → False.
Proof. destruct c as [|a c]; [done|]. intros [= -> _] [= ? _]. Qed.

Lemma required_among_all (s : step) :
  get_connections false s ⊆ get_connections true s.
Proof.
  unfold get_connections. intros x Hx. apply elem_of_union. by left.
Qed.

Lemma perform_connections_prefixed (s : step) (c : setup_call) :
  connections_prefixed s → connections_prefixed (perform s c).
Proof.
  intros Hs.
  destruct (perform_connections s c)
    as [[Hsame _]|(connection & Hprefix & Hall & _)].
  - intros x. rewrite Hsame. apply Hs.
  - intros x. rewrite Hall. intros [Hx|Hx]%elem_of_union; [|by apply Hs].
    by apply elem_of_singleton in Hx as ->.
Qed.

Lemma setup_connections_prefixed (module destination : pystr)
    (calls : list setup_call) :
  connections_prefixed (foldl perform (init module destination) calls).
Proof.
  assert (H : ∀ s, connections_prefixed s →
                   connections_prefixed (foldl perform s calls)).
  { induction calls as [|c calls IH]; intros s Hs; [done|].
    cbn [foldl]. apply IH. by apply perform_connections_prefixed. }
  apply H. intros x Hx. unfold get_connections, init in Hx.
  cbv beta iota delta [_connections _optional_connections] in Hx.
  apply elem_of_union in Hx as [Hx|Hx]; by apply elem_of_empty in Hx.
Qed.

(** X8: whatever calls a step class makes on itself while it is set up,
    every connection of the step begins with [in/] or with [out/], so
    [get_in_connections] and [get_out_connections] split
    [get_connections] in two: together they give all connections, and no
    connection is in both. *)
Theorem connections_split_in_out (module destination : pystr)
    (calls : list setup_call) (with_optional : bool) :
  let s := foldl perform (init module destination) calls in
  connections_prefixed s
  ∧ get_in_connections with_optional s ∪ get_out_connections with_optional s
    = get_connections with_optional s
  ∧ get_in_connections with_optional s ## get_out_connections with_optional s.
Proof.
  intros s.
  pose proof (setup_connections_prefixed module destination calls) as Hs.
  fold s in Hs. split; [exact Hs|]. split.
  - apply set_eq. intros x. unfold get_in_connections, get_out_connections.
    rewrite elem_of_union, !elem_of_filter. split; [tauto|].
    intros Hx.
    assert (Hall : x ∈ get_connections true s).
    { destruct with_optional; [done|]. by apply required_among_all. }
    destruct (Hs x Hall); [by left|by right].
  - apply elem_of_disjoint. intros x.
    unfold get_in_connections, get_out_connections.
    rewrite !elem_of_filter. intros [H3 _] [H4 _].
    exact (in_out_exclusive x H3 H4).
Qed.

Lemma perform_needs_parents_faithful (s : step) (c : setup_call) :
  needs_parents_faithful s → needs_parents_faithful (perform s c).
Proof.
  unfold needs_parents_faithful, get_in_connections. intros Hs.
  destruct (perform_connections s c)
    as [[Hsame Hneeds]|(connection & Hprefix & Hall & _ & Hneeds)].
  - by rewrite Hneeds, Hsame.
  - rewrite Hneeds, Hall, orb_true_iff, Hs. split.
    + intros [Hin|[x Hx]].
      * apply bool_decide_eq_true_1 in Hin. exists connection.
        apply elem_of_filter. split; [done|].
        apply elem_of_union. left. by apply elem_of_singleton.
      * exists x. apply elem_of_filter in Hx as [H3 Hx].
        apply elem_of_filter. split; [done|]. apply elem_of_union. by right.
    + intros [x Hx]. apply elem_of_filter in Hx as [H3 Hx].
      apply elem_of_union in Hx as [Hx|Hx].
      * apply elem_of_singleton in Hx as ->. left.
        by apply bool_decide_eq_true_2.
      * right. exists x. by apply elem_of_filter.
Qed.

(** X9: whatever calls a step class makes on itself while it is set up,
    [needs_parents] is true exactly when the step has an input connection,
    required or optional. *)
Theorem needs_parents_iff_input_connection (module destination : pystr)
    (calls : list setup_call) :
  let s := foldl perform (init module destination) calls in
  needs_parents s = true ↔ ∃ c, c ∈ get_in_connections true s.
Proof.
  assert (H : ∀ s, needs_parents_faithful s →
                   needs_parents_faithful (foldl perform s calls)).
  { induction calls as [|c calls IH]; intros s Hs; [done|].
    cbn [foldl]. apply IH. by apply perform_needs_parents_faithful. }
  apply H. unfold needs_parents_faithful, get_in_connections, get_connections.
  unfold init. cbv beta iota delta [needs_parents _connections
                                     _optional_connections].
  split; [done|]. intros [x Hx]. apply elem_of_filter in Hx as [_ Hx].
  apply elem_of_union in Hx as [Hx|Hx]; by apply elem_of_empty in Hx.
Qed.

(** ** The required output connections of the runs *)

Lemma with_logged_twice l l' s : with_logged l' (with_logged l s) = with_logged l' s.
Proof. by destruct s. Qed.

Lemma with_logged_same s : with_logged (logged s) s = s.
Proof. by destruct s. Qed.

Lemma check_runs_spec (required_out : gset pystr)
    (runs : list (pystr * Run.t)) (n : nat) (s : step) :
  (n < 5)%nat →
  let bad := filter (misses_connection required_out) runs in
  check_runs required_out runs n s
  = (inr (Nat.min 5 (n + length bad)),
     with_logged
       (logged s
        ++ (run_warning (get_step_name s) required_out <$> take (5 - n) bad)
        ++ (if bool_decide (5 ≤ n + length bad)%nat
            then [WarnOmittingConnectionTest (get_step_name s)] else [])) s).
Proof.
  revert n s. induction runs as [|[run_id run] runs IH]; intros n s Hn bad.
  { subst bad. rewrite filter_nil. cbn [check_runs length]. unfold ret.
    rewrite Nat.add_0_r, Nat.min_r by lia. rewrite take_nil, fmap_nil.
    rewrite bool_decide_eq_false_2 by lia.
    by rewrite !app_nil_r, with_logged_same. }
  subst bad. rewrite filter_cons. cbn [check_runs].
  destruct (decide (misses_connection required_out (run_id, run)))
    as [Hbad|Hgood].
  - unfold misses_connection in Hbad. cbn [snd] in Hbad.
    rewrite (bool_decide_eq_false_2 _ Hbad). unfold log. msimpl.
    cbn [length]. destruct (decide (S n = 5%nat)) as [H5|H5].
    + rewrite (bool_decide_eq_true_2 _ H5).
      assert (Hn4 : n = 4%nat) by lia. subst n.
      rewrite Nat.min_l by lia. rewrite bool_decide_eq_true_2 by lia.
      f_equal. rewrite with_logged_twice. f_equal.
      assert (Hl : ∀ l, logged (with_logged l s) = l) by (by destruct s).
      assert (Hname : ∀ l, get_step_name (with_logged l s) = get_step_name s)
        by (by destruct s).
      rewrite Hl, Hname. cbn [take fmap list_fmap].
      unfold run_warning. cbn [fst snd]. by rewrite <- !(assoc_L (++)).
    + rewrite (bool_decide_eq_false_2 _ H5).
      rewrite (IH (S n) _ ltac:(lia)).
      assert (Hl : ∀ l, logged (with_logged l s) = l) by (by destruct s).
      assert (Hname : ∀ l, get_step_name (with_logged l s) = get_step_name s)
        by (by destruct s).
      rewrite Hl, Hname, with_logged_twice.
      replace (5 - n)%nat with (S (5 - S n)) by lia.
      cbn [take fmap list_fmap].
      replace (n + S (length (filter (misses_connection required_out) runs)))%nat
        with (S n + length (filter (misses_connection required_out) runs))%nat
        by lia.
      unfold run_warning at 3. cbn [fst snd].
      by rewrite <- !(assoc_L (++)).
  - assert (Hempty : required_out ∖ used_connections run = ∅).
    { unfold misses_connection in Hgood. cbn [snd] in Hgood.
      by destruct (decide (required_out ∖ used_connections run = ∅)). }
    rewrite (bool_decide_eq_true_2 _ Hempty). msimpl.
    rewrite bool_decide_eq_false_2 by lia.
    by apply IH.
Qed.

(** X10: once the runs of a step are declared,
    [check_required_out_connections] returns normally and changes nothing
    but the log; it warns about each of the first five runs that leave a
    required output connection without a file, says that it leaves out the
    others when there are five, and adds the deprecation notice when
    there is such a run; it logs nothing exactly when every run serves
    every required output connection. *)
Theorem check_required_out_connections_reports
    (s : step) (runs : list (pystr * Run.t)) :
  _runs s = Some runs →
  check_required_out_connections s
  = (inr tt, with_logged (logged s ++ connection_warnings s runs) s)
  ∧ (connection_warnings s runs = []
     ↔ ∀ ir, ir ∈ runs → get_out_connections false s ⊆ used_connections ir.2).
Proof.
  intros Hruns. split.
  - unfold check_required_out_connections. rewrite bind_get, Hruns.
    cbv beta iota.
    rewrite (bind_inr _ _ _ _ _
               (check_runs_spec (get_out_connections false s) runs 0 s
                  ltac:(lia))).
    unfold connection_warnings. cbv zeta. rewrite Nat.sub_0_r, Nat.add_0_l.
    destruct (filter (misses_connection (get_out_connections false s)) runs)
      as [|ir bad] eqn:Hbad.
    + cbn [length take fmap list_fmap app Nat.min].
      rewrite bool_decide_eq_true_2 by done.
      rewrite bool_decide_eq_false_2 by lia. done.
    + rewrite bool_decide_eq_false_2
        by (destruct (length (ir :: bad)) eqn:Hl; [done|]; cbn; lia).
      unfold log, modify.
      assert (Hl : ∀ l, logged (with_logged l s) = l) by (by destruct s).
      rewrite Hl, with_logged_twice. by rewrite <- !(assoc_L (++)).
  - unfold connection_warnings. cbv zeta.
    set (required_out := get_out_connections false s).
    split.
    + intros Hnil ir Hir.
      destruct (decide (misses_connection required_out ir)) as [Hbad|Hgood].
      * assert (Hin : ir ∈ filter (misses_connection required_out) runs)
          by by apply list_elem_of_filter.
        destruct (filter (misses_connection required_out) runs) as [|x l];
          [by apply elem_of_nil in Hin|].
        apply (f_equal length) in Hnil. rewrite !length_app in Hnil.
        cbn in Hnil. lia.
      * unfold misses_connection in Hgood.
        destruct (decide (required_out ∖ used_connections ir.2 = ∅))
          as [He|]; [|done].
        intros x Hx. destruct (decide (x ∈ used_connections ir.2)); [done|].
        assert (Hd : x ∈ required_out ∖ used_connections ir.2)
          by by apply elem_of_difference.
        rewrite He in Hd. by apply elem_of_empty in Hd.
    + intros Hall.
      assert (Hnone : filter (misses_connection required_out) runs = []).
      { destruct (filter (misses_connection required_out) runs)
          as [|ir l] eqn:Hf; [done|].
        assert (Hir : ir ∈ filter (misses_connection required_out) runs)
          by (rewrite Hf; by left).
        apply list_elem_of_filter in Hir as [Hbad Hir]. destruct Hbad.
        apply set_eq. intros x. split.
        - intros [Hx Hno]%elem_of_difference. destruct Hno.
          by apply (Hall ir Hir).
        - by intros ?%elem_of_empty. }
      rewrite Hnone. cbn [take fmap list_fmap length app].
      by rewrite bool_decide_eq_false_2 by lia.
Qed.

Lemma check_required_out_connections_reports_witness :
  check_required_out_connections mapping_step
  = (inr tt,
     with_logged
       (logged mapping_step
        ++ connection_warnings mapping_step
             (default [] (_runs mapping_step))) mapping_step)
  ∧ connection_warnings mapping_step (default [] (_runs mapping_step))
    = [ WarnRunMissesConnections (lit "s2") (lit "mapper") [lit "out/log"];
        WarnDeprecationUnmetConnections ].
Proof.
  split.
  - apply (check_required_out_connections_reports mapping_step
             (default [] (_runs mapping_step)) eq_refl).
  - vm_compute. reflexivity.
Defined.

(** ** Binding the parents: what stops it *)

Lemma setdefault_option_present key value s v :
  dict_get key (_options s) = Some v →
  setdefault_option key value s = (inr tt, s).
Proof.
  intros H. unfold setdefault_option, modify, dict_setdefault, dict_has.
  rewrite H. by destruct s.
Qed.

Lemma collect_set_connections_fails (s : step)
    (connect : list (pystr * pyval)) (acc : gset pystr * list pyval)
    (in_conn : pystr) (out_conn : pyval) :
  (in_conn, out_conn) ∈ connect →
  in_conn ∉ get_in_connections true s →
  ∃ x, collect_set_connections s connect acc = inl x
       ∧ (x = TypeError
          ∨ ∃ k, x = UAPError (UnknownInputConnection k)
                 ∧ k ∈ dict_keys connect
                 ∧ k ∉ get_in_connections true s).
Proof.
  intros Hin Hno. revert acc.
  induction connect as [|[k v] connect IH]; intros acc.
  { by apply elem_of_nil in Hin. }
  cbn [collect_set_connections].
  destruct (decide (k ∈ get_in_connections true s)) as [Hk|Hk].
  - rewrite (bool_decide_eq_true_2 _ Hk). cbn [negb].
    destruct (existsb _ (as_list v)).
    { exists TypeError. split; [done|by left]. }
    apply elem_of_cons in Hin as [[= -> ->]|Hin]; [done|].
    match goal with
    | |- context [collect_set_connections s connect ?a] =>
        destruct (IH Hin a) as (x & -> & Hx)
    end.
    exists x. split; [done|].
    destruct Hx as [->|(k' & -> & Hk' & Hno')]; [by left|].
    right. exists k'. split; [done|]. split; [by right|done].
  - rewrite (bool_decide_eq_false_2 _ Hk). cbn [negb].
    eexists. split; [done|]. right. exists k.
    split; [done|]. split; [by left|done].
Qed.

(** X11: when the [_connect] option binds an input connection that the step
    does not have, [get_run_ids_in_connections_input_files] raises an error
    before it turns to any parent, and leaves the step as it is; the error
    names a bound connection that the step does not have, unless a
    binding with an unhashable value has raised a [TypeError] before. *)
Theorem connect_unknown_input_rejected (col : collector) (s : step)
    (connect : list (pystr * pyval)) (in_conn : pystr) (out_conn : pyval) :
  dict_get (lit "_connect") (_options s) = Some (VDict connect) →
  (in_conn, out_conn) ∈ connect →
  in_conn ∉ get_in_connections true s →
  ∃ x, get_run_ids_in_connections_input_files col s = (inl x, s)
       ∧ (x = TypeError
          ∨ ∃ k, x = UAPError (UnknownInputConnection k)
                 ∧ k ∈ dict_keys connect
                 ∧ k ∉ get_in_connections true s).
Proof.
  intros Hconnect Hin Hno.
  destruct (collect_set_connections_fails s connect (∅, []) _ _ Hin Hno)
    as (x & Hx & Hcases).
  exists x. split; [|done].
  unfold get_run_ids_in_connections_input_files. rewrite bind_get.
  cbv beta zeta.
  rewrite (bind_inr _ _ _ _ _ (setdefault_option_present _ _ _ _ Hconnect)).
  rewrite bind_get, Hconnect, Hx. done.
Qed.

Lemma connect_unknown_input_rejected_witness :
  get_run_ids_in_connections_input_files simple_collector misbound_step
  = (inl (UAPError (UnknownInputConnection (lit "in/reads"))), misbound_step).
Proof.
  destruct (connect_unknown_input_rejected simple_collector misbound_step
              [ (lit "in/reads", VStr (lit "mapper/alignments")) ]
              (lit "in/reads") (VStr (lit "mapper/alignments")) eq_refl
              (list_elem_of_here _ _)) as (x & Hrun & [->|(k & -> & Hk & _)]).
  - apply (bool_decide_unpack _). vm_compute. exact I.
  - exfalso. revert Hrun. vm_compute. discriminate.
  - apply list_elem_of_singleton in Hk as ->. exact Hrun.
Defined.

Lemma connect_parents_fails (col : collector) (ps : list parent)
    (connect : pyval) (p : parent) :
  p ∈ ps → parent_get_runs p = inr [] →
  ∀ c used s, ∃ x, (connect_parents col ps connect c used s).1 = inl x.
Proof.
  intros Hin Hp. induction ps as [|q ps IH]; intros c used s.
  { by apply elem_of_nil in Hin. }
  cbn [connect_parents]. apply elem_of_cons in Hin as [<-|Hin].
  - eexists. apply bind_raises. unfold connect_parent. by rewrite Hp.
  - unfold bind at 1.
    destruct (connect_parent col q connect c s) as [[x|uc] s1];
      [by exists x|]. by apply IH.
Qed.

(** X12: a dependency that has declared no run stops the binding of the
    parents: [get_run_ids_in_connections_input_files] raises an error
    whenever one of the dependencies of the step has no run. *)
Theorem dependency_without_runs_rejected (col : collector) (s : step)
    (p : parent) :
  p ∈ dependencies s → parent_get_runs p = inr [] →
  ∃ x, (get_run_ids_in_connections_input_files col s).1 = inl x.
Proof.
  intros Hin Hp.
  unfold get_run_ids_in_connections_input_files. rewrite bind_get.
  cbv beta zeta. unfold setdefault_option at 1. rewrite bind_modify, bind_get.
  set (s0 := with_options _ s).
  assert (Hdeps : dependencies s0 = dependencies s) by by destruct s.
  destruct (dict_get (lit "_connect") (_options s0)) as [v|];
    [|by eexists].
  destruct v as [| | | | | |connect]; try by eexists.
  destruct (collect_set_connections s0 connect (∅, [])) as [x|[set_out others]];
    [by eexists|].
  match goal with
  | |- ∃ x, (bind ?c ?k s0).1 = inl x =>
      remember (c s0) as r eqn:Hc; symmetry in Hc;
      destruct r as [[x|set_out'] s1]
  end.
  { exists x. by rewrite (bind_inl _ _ _ _ _ Hc). }
  rewrite (bind_inr _ _ _ _ _ Hc).
  rewrite Hdeps.
  destruct (connect_parents_fails col (dependencies s) (VDict connect) p
              Hin Hp (cc_init col (get_step_name s)) ∅ s1) as [x Hx].
  exists x. by apply bind_raises.
Qed.

Lemma dependency_without_runs_rejected_witness :
  ∃ x, (get_run_ids_in_connections_input_files simple_collector
          orphan_step).1 = inl x.
Proof.
  apply (dependency_without_runs_rejected simple_collector orphan_step
           (Parent (lit "mapper") (inr []) {[ lit "out/alignments" ]})).
  - apply list_elem_of_here.
  - reflexivity.
Defined.

(** ** The ping files *)

(** X13: [remove_ping_file] never raises an error and changes nothing but
    the disk; it changes nothing at all when there is no ping file, and
    without [bad_copy] and outside the debugging mode it removes just the
    ping file, which stays when it is a directory. *)
Theorem remove_ping_file_never_raises (e : env) (ping_path : pystr)
    (bad_copy : bool) (m : machine) :
  ∃ f, remove_ping_file e ping_path bad_copy m = (inr tt, with_disk f m)
       ∧ (path_exists (disk m) ping_path = false → f = disk m)
       ∧ (bad_copy = false → debugging e = false →
          f = if path_isdir (disk m) ping_path then disk m
              else delete ping_path (disk m)).
Proof.
  destruct (remove_ping_file_disk e ping_path bad_copy m) as [f Hf].
  exists f. split; [done|].
  unfold remove_ping_file in Hf. rewrite bind_get in Hf.
  assert (Hdisk : ∀ m', (inr tt : result unit, m') = (inr tt, with_disk f m) →
                        f = disk m').
  { intros m' [= ->]. by rewrite disk_of_with_disk. }
  split.
  - intros Hno. rewrite Hno in Hf. by apply Hdisk in Hf.
  - intros -> Hdebug. rewrite Hdebug in Hf.
    unfold path_exists, path_isdir in *.
    unfold pass_os_error, try_catch, os_call, os_unlink in Hf.
    destruct (disk m !! ping_path) as [n|] eqn:Hn.
    + rewrite Hn in Hf. destruct (is_dir n); apply Hdisk in Hf;
        by rewrite ?disk_of_with_disk in Hf.
    + apply Hdisk in Hf. rewrite Hf. symmetry. by apply delete_id.
Qed.

Lemma remove_ping_file_never_raises_witness :
  let m := Machine ({[ lit "/d" := new_dir 0;
                       lit "/d/.a.queued.yaml" := new_file (VDict []) 1 ]})
             DEFAULT ∅ [] None [] [] [] [] None in
  ∃ f, remove_ping_file idle_env (lit "/d/.a.queued.yaml") false m
       = (inr tt, with_disk f m)
       ∧ f = (if path_isdir (disk m) (lit "/d/.a.queued.yaml") then disk m
              else delete (lit "/d/.a.queued.yaml") (disk m)).
Proof.
  intros m.
  destruct (remove_ping_file_never_raises idle_env (lit "/d/.a.queued.yaml")
              false m) as (f & Hrun & _ & Hgone).
  exists f. split; [exact Hrun|]. by apply Hgone.
Defined.

(** ** A run whose execution fails *)

Lemma preflight_notified (e : env) (s : step) (run_id : pystr) (r : Run.t)
    (job_id : pyval) (m0 m1 : machine) :
  preflight e s run_id m0 = (inr (r, job_id), m1) →
  notified m1 = notified m0 ++ [NotifyStart job_id]
  ∧ state m1 = state m0.
Proof.
  unfold preflight. destruct (get_run run_id s) as [|[run|]]; [done| |done].
  intros H. apply bind_returns in H as ([] & ma & Ha & H).
  rewrite bind_get in H. cbv beta in H.
  destruct (path_exists (disk ma) (Run.get_executing_ping_file run)); [done|].
  apply bind_returns in H as (job & mb & Hb & H).
  apply bind_returns in H as ([] & mc & Hc & H).
  rewrite bind_modify in H.
  apply bind_returns in H as ([] & md & Hd & H).
  unfold notify in H. rewrite !bind_modify in H.
  injection H as <- <- <-.
  assert (Hma : ∃ f, ma = with_disk f m0).
  { rewrite bind_get in Ha. cbv beta in Ha.
    destruct (negb _); [by apply os_call_returns in Ha|].
    injection Ha as <-. exists (disk m0). by destruct m0. }
  destruct Hma as [fa ->].
  pose proof (read_job_id_state (Run.get_queued_ping_file run)
                (with_disk fa m0)) as Hmb.
  rewrite Hb in Hmb. cbn [snd] in Hmb. subst mb.
  apply os_call_returns in Hc as [fc ->].
  apply os_call_returns in Hd as [fd ->].
  by destruct m0.
Qed.

Lemma check_outputs_disturbed (temp_directory : pystr) (r : Run.t)
    (m : machine) :
  undisturbed m = false →
  check_outputs temp_directory r m = (inr tt, with_to_be_moved [] m).
Proof.
  intros Hund. unfold check_outputs. rewrite bind_modify, bind_get.
  assert (H : undisturbed (with_to_be_moved [] m) = undisturbed m)
    by by destruct m.
  by rewrite H, Hund.
Qed.

(** What follows the execution when it has left an exception. *)
Lemma run_tail_reraises (e : env) (s : step) (r : Run.t) (job_id : pyval)
    (temp_directory : pystr) (m : machine) (x : exn) :
  caught_exception m = Some x →
  ∃ m',
    (check_outputs temp_directory r ;;
     hash_outputs e s ;;
     modify (λ m, with_run_known_paths
                    (foldl (λ d kv, dict_set kv.1 kv.2 d) (run_known_paths m)
                           (known_paths m)) m) ;;
     publish ;;
     finish e r job_id temp_directory)%py m
    = (match attachment_on e r (disk m) with
       | inl y => inl y
       | inr _ => inl x
       end, m')
    ∧ moved m' = moved m
    ∧ caught_signal m' = caught_signal m
    ∧ state m' = DEFAULT
    ∧ notified m'
      = notified m ++ match attachment_on e r (disk m) with
                      | inl _ => []
                      | inr a => [NotifyBad a]
                      end.
Proof.
  intros Hexc.
  assert (Hund : undisturbed m = false).
  { unfold undisturbed. rewrite Hexc. apply andb_false_r. }
  rewrite (bind_inr _ _ _ _ _ (check_outputs_disturbed _ _ _ Hund)).
  set (m1 := with_to_be_moved [] m).
  assert (Hexc1 : caught_exception m1 = Some x) by by destruct m.
  rewrite (bind_inr _ _ _ _ _ (hash_outputs_skipped e s m1 x Hexc1)).
  rewrite bind_modify.
  set (m2 := with_run_known_paths _ m1).
  assert (Hexc2 : caught_exception m2 = Some x) by by destruct m.
  rewrite (bind_inr _ _ _ _ _ (publish_skipped m2 x Hexc2)).
  destruct (finish_after_error e r job_id temp_directory m2 x Hexc2)
    as (m' & Hfin & Hout & Hstate & Hnot).
  assert (Hm2 : disk m2 = disk m ∧ outcome m2 = outcome m
                ∧ notified m2 = notified m) by by destruct m.
  destruct Hm2 as (Hdisk2 & Hout2 & Hnot2).
  rewrite Hdisk2 in Hfin, Hnot. rewrite Hout2 in Hout. rewrite Hnot2 in Hnot.
  exists m'. split; [done|].
  unfold outcome in Hout. injection Hout as Hmoved Hsig _. done.
Qed.

Lemma execute_run_raised (e : env) (r : Run.t) (m : machine) (f : fs)
    (x : exn) :
  execute e (disk m) = ExecRaised f x →
  execute_run e r m
  = (inr tt, with_state DEFAULT (with_caught_exception (Some x)
                                   (with_disk f m))).
Proof.
  intros He. unfold execute_run. msimpl. unfold modify.
  assert (Hd : disk (with_state EXECUTING m) = disk m) by by destruct m.
  rewrite Hd, He. by destruct m.
Qed.



Lemma execute_run_signalled (e : env) (r : Run.t) (m : machine) (f : fs)
    (term : bool) :
  execute e (disk m) = ExecSignalled f term →
  ∃ f',
    execute_run e r m
    = (inr tt,
       with_state DEFAULT
         (with_caught_exception
            (Some (UAPError (if term then ReceivedTERM else ReceivedINT)))
            (with_caught_signal (Some (if term then SIGTERM else SIGINT))
               (with_disk f' m))))
    ∧ f' !! picture r = f !! picture r.
Proof.
  intros He. unfold execute_run. rewrite bind_modify.
  unfold bind at 1. rewrite bind_get.
  assert (Hd : disk (with_state EXECUTING m) = disk m) by by destruct m.
  rewrite Hd, He. msimpl.
  match goal with
  | |- context [remove_ping_file e ?p false ?m1] =>
      destruct (remove_ping_file_disk e p false m1) as (f2 & Hrm2);
      pose proof (remove_ping_file_lookup e p (picture r) false
                    (f !! picture r) (executing_ping_apart r) m1) as Hl2;
      rewrite Hrm2 in Hl2 |- *
  end.
  match goal with
  | |- context [remove_ping_file e ?p true ?m4] =>
      destruct (remove_ping_file_disk e p true m4) as (f5 & Hrm5);
      pose proof (remove_ping_file_lookup e p (picture r) true
                    (f !! picture r) (queued_ping_apart r) m4) as Hl5;
      rewrite Hrm5 in Hl5 |- *
  end.
  cbv beta iota delta [snd] in Hl2, Hl5.
  rewrite !disk_of_with_disk in Hl2, Hl5.
  exists f5. split; [by destruct m|]. by apply Hl5, Hl2.
Qed.



(** ** What a run moves *)

Lemma check_output_announced (r : Run.t) (stamp : pystr)
    (out_file : option pystr) :
  (∀ name, out_file = Some name → ch_slash ∉ name → declared_output r name) →
  preserves (moves_announced r stamp)
    (check_output (Run.get_temp_output_directory stamp r)
       (Run.get_output_directory r) out_file).
Proof.
  intros Hdecl. unfold check_output.
  destruct out_file as [name|]; [|apply preserves_ret].
  destruct (decide (ch_slash ∈ name)) as [Hslash|Hplain].
  { rewrite (bool_decide_eq_true_2 _ Hslash). apply preserves_ret. }
  rewrite (bool_decide_eq_false_2 _ Hplain).
  specialize (Hdecl name eq_refl Hplain).
  rewrite (basename_plain name Hplain). cbv zeta.
  unfold kp_get, kp_set, fsc_method.
  repeat first
    [ apply preserves_os_call; intros ? [] Hm; exact Hm
    | apply preserves_modify; intros m Hm sn Hsn;
      assert (Hsn' : sn ∈ dict_set
                       (path_join (Run.get_temp_output_directory stamp r) name)
                       (path_join (Run.get_output_directory r) name)
                       (to_be_moved m)) by (by destruct m);
      apply elem_of_dict_set in Hsn' as [->|Hin];
      [by exists name|by apply Hm]
    | preserves_step
    | intros [] Hm; exact Hm ].
Qed.

Lemma check_outputs_announced (r : Run.t) (stamp : pystr) (m : machine) :
  moves_announced r stamp
    (check_outputs (Run.get_temp_output_directory stamp r) r m).2.
Proof.
  unfold check_outputs. rewrite bind_modify.
  match goal with
  | |- moves_announced _ _ (?c ?m1).2 =>
      assert (Hc : preserves (moves_announced r stamp) c)
  end.
  { apply preserves_bind; [apply preserves_get|intros m'].
    apply preserves_if; [|apply preserves_ret].
    apply preserves_try_catch.
    - apply preserves_for_each. intros [tag files] Hfiles.
      apply preserves_for_each. intros o Ho.
      apply check_output_announced. intros name -> Hplain.
      split; [done|].
      apply list_elem_of_fmap in Ho as ([o ins] & Ho & Hins).
      cbn in Ho. subst o. by exists tag, files, ins.
    - intros x. unfold catch_exception. apply preserves_modify.
      intros [] Hm. exact Hm. }
  apply Hc. intros sn Hsn.
  assert (Hnil : sn ∈ ([] : list (pystr * pystr))) by by destruct m.
  by apply elem_of_nil in Hnil.
Qed.

Ltac keeps_machine :=
  repeat first
    [ apply keeps_os_call; intros ? []; reflexivity
    | apply keeps_fsc_method; intros ? []; reflexivity
    | apply keeps_kp_get
    | apply keeps_kp_set; intros ? []; reflexivity
    | keeps_step ].

Lemma keeps_remove_ping_file {X} (proj : machine → X) (e : env)
    (ping_path : pystr) (bad_copy : bool) :
  (∀ f m, proj (with_disk f m) = proj m) →
  keeps proj (remove_ping_file e ping_path bad_copy).
Proof.
  intros H m.
  destruct (remove_ping_file_disk e ping_path bad_copy m) as [f ->].
  apply H.
Qed.

Lemma preflight_keeps_moved (e : env) (s : step) (run_id : pystr) :
  keeps moved (preflight e s run_id).
Proof. unfold preflight, read_job_id, notify. keeps_machine. Qed.

Lemma execute_run_keeps_moved (e : env) (r : Run.t) :
  keeps moved (execute_run e r).
Proof.
  unfold execute_run.
  repeat first
    [ apply keeps_remove_ping_file; intros ? []; reflexivity
    | keeps_step ].
Qed.

Lemma hash_loop_keeps_moves (e : env) (i : nat)
    (files : list (pystr * pystr)) :
  keeps (λ m, (moved m, to_be_moved m)) (hash_loop e i files).
Proof.
  revert i. induction files as [|[path new_path] files IH]; intros i;
    cbn [hash_loop]; [apply keeps_ret|].
  repeat first
    [ apply IH
    | apply keeps_kp_set; intros ? []; reflexivity
    | keeps_step
    | intros []; reflexivity ].
Qed.

Lemma hash_outputs_keeps_moves (e : env) (s : step) :
  keeps (λ m, (moved m, to_be_moved m)) (hash_outputs e s).
Proof.
  unfold hash_outputs, notify, catch_exception.
  repeat first [ apply hash_loop_keeps_moves | keeps_step ].
Qed.

Lemma finish_keeps_moved (e : env) (r : Run.t) (job_id : pyval)
    (temp_directory : pystr) :
  keeps moved (finish e r job_id temp_directory).
Proof.
  unfold finish, write_annotation_file, notify, pass_os_error.
  repeat first
    [ apply keeps_remove_ping_file; intros ? []; reflexivity
    | apply keeps_os_call; intros ? []; reflexivity
    | keeps_step ].
Qed.

Lemma publish_loop_moves (l : list (pystr * pystr)) (m : machine) :
  ∃ new,
    moved (for_each l (λ sn, os_call (os_rename sn.1 sn.2) ;; record_move sn)
             m).2
    = moved m ++ new
    ∧ ∀ sn, sn ∈ new → sn ∈ l.
Proof.
  revert m. induction l as [|sn l IH]; intros m; cbn [for_each].
  { exists []. split; [by rewrite app_nil_r|]. by intros ? ?%elem_of_nil. }
  unfold bind at 1. unfold bind at 1. unfold os_call at 1.
  destruct (os_rename sn.1 sn.2 (disk m)) as [x|f].
  { exists []. split; [by rewrite app_nil_r|]. by intros ? ?%elem_of_nil. }
  unfold record_move at 1, modify at 1.
  match goal with
  | |- context [for_each l _ ?m1] => destruct (IH m1) as (new & -> & Hnew)
  end.
  exists (sn :: new). split.
  - destruct m. cbn. by rewrite <- (assoc_L (++)).
  - intros sn' [->|Hin]%elem_of_cons; [by left|]. right. by apply Hnew.
Qed.

Lemma publish_moves (m : machine) :
  ∃ new, moved (publish m).2 = moved m ++ new
         ∧ ∀ sn, sn ∈ new → sn ∈ to_be_moved m.
Proof.
  unfold publish. rewrite bind_get.
  destruct (undisturbed m).
  - destruct (publish_loop_moves (to_be_moved m) m) as (new & Hmoved & Hnew).
    exists new. split; [|done].
    unfold try_catch.
    destruct (for_each (to_be_moved m) _ m) as [[x|[]] m'];
      cbn [snd] in *; [|done].
    unfold catch_exception, modify. cbn [snd]. rewrite <- Hmoved.
    by destruct m'.
  - exists []. split; [by rewrite app_nil_r|]. by intros ? ?%elem_of_nil.
Qed.

(** X16: however a run ends, [run] moves announced output files only: what
    it adds to the moves are moves of a file that the run has announced
    under a name without a slash, from the temporary directory of the run
    to its output directory. *)
Theorem run_moves_announced_files_only (e : env) (s : step) (run_id : pystr)
    (r : Run.t) (m0 : machine) :
  get_run run_id s = inr (Some r) →
  ∃ new, moved (run e s run_id m0).2 = moved m0 ++ new
         ∧ ∀ sn, sn ∈ new → announced_move r (temp_stamp e) sn.
Proof.
  intros Hrun.
  assert (Hnone : ∀ m, moved m = moved m0 →
            ∃ new, moved m = moved m0 ++ new
                   ∧ ∀ sn, sn ∈ new → announced_move r (temp_stamp e) sn).
  { intros m Hm. exists []. split; [by rewrite app_nil_r|].
    by intros ? ?%elem_of_nil. }
  unfold run.
  pose proof (preflight_keeps_moved e s run_id m0) as Hmoved1.
  destruct (preflight e s run_id m0) as [[x|[r' job_id]] m1] eqn:Hpre.
  { rewrite (bind_inl _ _ _ _ _ Hpre). by apply Hnone. }
  rewrite (bind_inr _ _ _ _ _ Hpre). cbv beta zeta. cbn [fst snd] in *.
  destruct (preflight_returns _ _ _ _ _ _ _ Hpre) as (Hrun' & _).
  assert (r' = r) by congruence. subst r'. clear Hrun'.
  pose proof (execute_run_keeps_moved e r m1) as Hmoved2.
  destruct (execute_run e r m1) as [[x|[]] m2] eqn:Hexec.
  { rewrite (bind_inl _ _ _ _ _ Hexec). apply Hnone. cbn [snd] in *.
    congruence. }
  rewrite (bind_inr _ _ _ _ _ Hexec), bind_modify. cbn [snd] in Hmoved2.
  set (m3 := with_fsc FSCache.init m2).
  assert (Hmoved3 : moved m3 = moved m2) by by destruct m2.
  set (temp := Run.get_temp_output_directory (temp_stamp e) r).
  pose proof (check_outputs_outcome r (temp_stamp e) m3) as Hmoved4.
  pose proof (check_outputs_announced r (temp_stamp e) m3) as Hann4.
  fold temp in Hmoved4, Hann4.
  destruct (check_outputs temp r m3) as [[x|[]] m4] eqn:Hcheck;
    cbn [snd] in Hmoved4, Hann4; injection Hmoved4 as Hmoved4 _.
  { rewrite (bind_inl _ _ _ _ _ Hcheck). apply Hnone. cbn [snd].
    congruence. }
  rewrite (bind_inr _ _ _ _ _ Hcheck).
  pose proof (hash_outputs_keeps_moves e s m4) as Hmoved5.
  destruct (hash_outputs e s m4) as [[x|[]] m5] eqn:Hhash;
    cbn [snd] in Hmoved5; injection Hmoved5 as Hmoved5 Htbm5.
  { rewrite (bind_inl _ _ _ _ _ Hhash). apply Hnone. cbn [snd].
    congruence. }
  rewrite (bind_inr _ _ _ _ _ Hhash), bind_modify.
  set (m6 := with_run_known_paths _ m5).
  assert (Hm6 : moved m6 = moved m5 ∧ to_be_moved m6 = to_be_moved m5)
    by by destruct m5.
  destruct Hm6 as [Hmoved6 Htbm6].
  destruct (publish_moves m6) as (new & Hmoved7 & Hnew).
  assert (Hann : ∀ sn, sn ∈ new → announced_move r (temp_stamp e) sn).
  { intros sn Hsn. apply Hann4. rewrite <- Htbm5, <- Htbm6. by apply Hnew. }
  assert (Hfrom : moved m6 = moved m0) by congruence.
  rewrite Hfrom in Hmoved7.
  destruct (publish m6) as [[x|[]] m7] eqn:Hpub; cbn [snd] in Hmoved7.
  { rewrite (bind_inl _ _ _ _ _ Hpub). by exists new. }
  rewrite (bind_inr _ _ _ _ _ Hpub).
  exists new. split; [|done].
  by rewrite (finish_keeps_moved e r job_id temp m7).
Qed.

Lemma run_moves_announced_files_only_witness :
  moved (run producing_env announcing_step (lit "a") fresh_machine).2
  = [(lit "/d/S/temp-a-T/foo.out", lit "/d/S/foo.out")]
  ∧ announced_move announcing_run (lit "T")
      (lit "/d/S/temp-a-T/foo.out", lit "/d/S/foo.out").
Proof.
  destruct (run_moves_announced_files_only producing_env announcing_step
              (lit "a") announcing_run fresh_machine eq_refl)
    as (new & Hmoved & Hnew).
  assert (Hrun : moved (run producing_env announcing_step (lit "a")
                          fresh_machine).2
                 = [(lit "/d/S/temp-a-T/foo.out", lit "/d/S/foo.out")])
    by (vm_compute; reflexivity).
  split; [exact Hrun|]. apply Hnew.
  rewrite Hrun in Hmoved. cbn [moved fresh_machine app] in Hmoved.
  rewrite <- Hmoved. by left.
Defined.

(** ** The start of a run *)

Lemma os_mkdir_returns (now : Z) (p : pystr) (f f' : fs) :
  os_mkdir now p f = inr f' → f !! p = None ∧ f' = <[p := new_dir now]> f.
Proof.
  unfold os_mkdir, path_exists. destruct (f !! p) eqn:Hp; [done|].
  destruct (parent_check f p); [done|]. by intros [= <-].
Qed.

Lemma path_isdir_weaken (f f' : fs) (p : pystr) :
  f ⊆ f' → path_isdir f p = true → path_isdir f' p = true.
Proof.
  unfold path_isdir. intros Hsub. destruct (f !! p) as [n|] eqn:Hp; [|done].
  by rewrite (lookup_weaken _ _ _ _ Hp Hsub).
Qed.

Lemma makedirs_fuel_returns (fuel : nat) (now : Z) (exist_ok : bool)
    (p : pystr) (f f' : fs) :
  makedirs_fuel fuel now exist_ok p f = inr f' →
  f ⊆ f' ∧ path_isdir f' p = true.
Proof.
  revert exist_ok p f f'.
  assert (Hlast : ∀ exist_ok p f1 f',
            match os_mkdir now p f1 with
            | inl e => if exist_ok && path_isdir f1 p then inr f1 else inl e
            | inr f'' => inr f''
            end = inr f' →
            f1 ⊆ f' ∧ path_isdir f' p = true).
  { intros exist_ok p f1 f'.
    destruct (os_mkdir now p f1) as [x|f2] eqn:Hmk.
    - destruct (exist_ok && path_isdir f1 p) eqn:Hok; [|done].
      intros [= <-]. split; [done|]. by apply andb_true_iff in Hok as [_ ?].
    - intros [= <-]. apply os_mkdir_returns in Hmk as [Hnone ->]. split.
      + by apply insert_subseteq.
      + unfold path_isdir. by rewrite lookup_insert_eq. }
  induction fuel as [|fuel IH]; intros exist_ok p f f'; cbn [makedirs_fuel];
    cbv zeta.
  - apply Hlast.
  - match goal with
    | |- context [if ?c then _ else _] => destruct c
    end; [|apply Hlast].
    match goal with
    | |- context [makedirs_fuel fuel now true ?h f] =>
        destruct (makedirs_fuel fuel now true h f) as [x|f1] eqn:Hrec
    end.
    + destruct x as [| | | | | | | |[]|]; try done; apply Hlast.
    + apply IH in Hrec as [Hsub _]. intros H.
      apply Hlast in H as [Hsub' Hdir]. split; [|done].
      by transitivity f1.
Qed.

Lemma os_call_inv (op : fs → result fs) (m m' : machine) :
  os_call op m = (inr tt, m') →
  ∃ f, op (disk m) = inr f ∧ m' = with_disk f m.
Proof.
  unfold os_call. destruct (op (disk m)) as [|f]; [done|].
  intros [= <-]. by exists f.
Qed.

(** X17: when the first part of [run] is through, the output directory and
    the temporary directory of the run are directories, the executing
    ping holds the host, the process, the user and the temporary
    directory, and a further call of [run] for this run on that disk
    raises the error that the run seems to be running already, and changes
    nothing. *)
Theorem preflight_locks_run (e : env) (s : step) (run_id : pystr)
    (r : Run.t) (job_id : pyval) (m0 m1 : machine) :
  preflight e s run_id m0 = (inr (r, job_id), m1) →
  path_isdir (disk m1) (Run.get_output_directory r) = true
  ∧ path_isdir (disk m1) (Run.get_temp_output_directory (temp_stamp e) r)
    = true
  ∧ read_yaml (Run.get_executing_ping_file r) (disk m1)
    = inr (executing_ping_info e
             (Run.get_temp_output_directory (temp_stamp e) r) job_id)
  ∧ ∀ e' m, disk m = disk m1 →
      run e' s run_id m
      = (inl (UAPError (AlreadyRunning (get_step_name s) run_id)), m).
Proof.
  intros Hpre.
  destruct (preflight_returns _ _ _ _ _ _ _ Hpre) as (Hrun & _).
  unfold preflight in Hpre. rewrite Hrun in Hpre.
  apply bind_returns in Hpre as ([] & ma & Ha & H).
  rewrite bind_get in H. cbv beta in H.
  destruct (path_exists (disk ma) (Run.get_executing_ping_file r)); [done|].
  apply bind_returns in H as (job & mb & Hb & H).
  apply bind_returns in H as ([] & mc & Hc & H).
  rewrite bind_modify in H.
  apply bind_returns in H as ([] & md & Hd & H).
  unfold notify in H. rewrite !bind_modify in H.
  injection H as <- <-.
  set (out := Run.get_output_directory r) in *.
  set (temp := Run.get_temp_output_directory (temp_stamp e) r) in *.
  set (ping := Run.get_executing_ping_file r) in *.
  assert (Hout : path_isdir (disk ma) out = true).
  { rewrite bind_get in Ha. cbv beta in Ha.
    destruct (path_isdir (disk m0) out) eqn:Hdir; cbn [negb] in Ha.
    - by injection Ha as <-.
    - apply os_call_inv in Ha as (f & Hmk & ->).
      rewrite disk_of_with_disk.
      by apply makedirs_fuel_returns in Hmk as [_ ?]. }
  pose proof (read_job_id_state (Run.get_queued_ping_file r) ma) as Hmb.
  rewrite Hb in Hmb. cbn [snd] in Hmb. subst mb.
  apply os_call_inv in Hc as (fc & Hmk & ->).
  apply makedirs_fuel_returns in Hmk as [Hsub Htemp].
  apply os_call_inv in Hd as (fd & Hwrite & ->).
  assert (Hdisk : disk (with_known_paths
                          (prepare_known_paths temp
                             (Run.get_output_files_abspath r))
                          (with_disk fc ma)) = fc) by by destruct ma.
  rewrite Hdisk in Hwrite. clear Hdisk.
  unfold write_yaml in Hwrite.
  destruct (path_isdir fc ping) eqn:Hping; [done|].
  destruct (parent_check fc ping); [done|]. injection Hwrite as <-.
  assert (Hout' : path_isdir fc out = true)
    by by apply (path_isdir_weaken (disk ma)).
  assert (Hfinal : ∀ m', disk (with_caught_exception None m') = disk m')
    by (by intros []).
  assert (Hfinal' : ∀ n m', disk (Machine (disk m') (state m') (fsc m')
                                    (run_known_paths m') (caught_signal m')
                                    n (moved m') (known_paths m')
                                    (to_be_moved m') (caught_exception m'))
                            = disk m') by done.
  rewrite Hfinal, Hfinal', disk_of_with_disk.
  assert (Hkeep : ∀ p, path_isdir fc p = true →
            path_isdir (<[ping := new_file
                                    (executing_ping_info e temp job) (now e)]>
                          fc) p = true).
  { intros p Hp. unfold path_isdir.
    rewrite lookup_insert_ne; [done|]. intros ->. congruence. }
  assert (Hdir : path_isdir
                   (<[ping := new_file (executing_ping_info e temp job)
                                (now e)]> fc) out = true) by by apply Hkeep.
  split; [done|]. split; [by apply Hkeep|]. split.
  - unfold read_yaml. subst ping. by rewrite lookup_insert_eq.
  - intros e' m Hm. unfold run.
    assert (Hagain : preflight e' s run_id m
              = (inl (UAPError (AlreadyRunning (get_step_name s) run_id)), m)).
    { unfold preflight. rewrite Hrun. msimpl. rewrite Hm.
      fold out. rewrite Hdir. cbn [negb]. rewrite Hm.
      unfold path_exists. subst ping. by rewrite lookup_insert_eq. }
    by rewrite (bind_inl _ _ _ _ _ Hagain).
Qed.

Lemma preflight_locks_run_witness :
  run failing_env announcing_step (lit "a")
    (preflight idle_env announcing_step (lit "a") fresh_machine).2
  = (inl (UAPError (AlreadyRunning (lit "S") (lit "a"))),
     (preflight idle_env announcing_step (lit "a") fresh_machine).2).
Proof.
  assert (Hpre : preflight idle_env announcing_step (lit "a") fresh_machine
                 = (inr (announcing_run, VNone),
                    (preflight idle_env announcing_step (lit "a")
                       fresh_machine).2)).
  { transitivity
      ((preflight idle_env announcing_step (lit "a") fresh_machine).1,
       (preflight idle_env announcing_step (lit "a") fresh_machine).2).
    - apply surjective_pairing.
    - f_equal. }
  destruct (preflight_locks_run idle_env announcing_step (lit "a")
              announcing_run VNone fresh_machine _ Hpre) as (_ & _ & _ & H).
  apply (H failing_env). reflexivity.
Defined.

(** ** [FSCache]: further properties *)

Section FSCacheMore.
Import FSCache.
Implicit Types (c : cache) (k : ckey).

Lemma load_yaml_stores (path : pystr) (f : fs) c (data : pyval) c1 :
load_yaml_from_file path f c = (inr data, c1) →
cached c1 name_load_yaml (KPath path) = Some data.
Proof.
unfold load_yaml_from_file. cbv zeta.
destruct (cached (ensure name_load_yaml c) name_load_yaml (KPath path))
  eqn:Hc.
- by intros [= <- <-].
- destruct (read_yaml path f); [done|]. intros [= <- <-].
  apply cached_store_eq.
Qed.

Lemma load_yaml_hit (path : pystr) (f : fs) c (data : pyval) :
cached c name_load_yaml (KPath path) = Some data →
load_yaml_from_file path f c = (inr data, c).
Proof.
intros H. unfold load_yaml_from_file. cbv zeta.
assert (He : ensure name_load_yaml c = c).
{ unfold ensure. unfold cached in H.
  destruct (c !! name_load_yaml); [done|]. done. }
by rewrite He, H.
Qed.

Lemma names_differ : name_sha256sums ≠ name_load_yaml.
Proof. apply (bool_decide_unpack _). vm_compute. exact I. Qed.

(** No call but [clear] removes or changes a document that
  [load_yaml_from_file] cached. *)
Lemma step_op_keeps_yaml
  (ospath : pystr → option (list pystr → fs → result pyval))
  (sha : pystr → fs → result pyval) (o : op) c (path : pystr)
  (data : pyval) :
is_clear o = false →
cached c name_load_yaml (KPath path) = Some data →
cached (step_op ospath sha o c) name_load_yaml (KPath path) = Some data.
Proof.
intros Hclear Hc.
destruct o as [n a f|p value f|p f|]; cbn [step_op]; [| | |done].
- unfold method. destruct (cached c n (KArgs a)) eqn:Hna; [done|].
  destruct (ospath n) as [fn|]; [|done]. destruct (fn a f); [done|].
  cbn [snd]. rewrite cached_store_ne, cached_ensure; [done|]. congruence.
- unfold sha256sum_of. cbv zeta.
  assert (He : cached (ensure name_sha256sums c) name_load_yaml (KPath path)
               = Some data) by by rewrite cached_ensure.
  assert (Hne : ∀ q, (name_sha256sums, KPath q)
                     ≠ (name_load_yaml, KPath path)).
  { intros q Hq. injection Hq as Hn _. by apply names_differ. }
  destruct value; cbn [snd]; try (by rewrite cached_store_ne).
  destruct (cached _ name_sha256sums (KPath p)); [done|].
  destruct (sha p f); [done|]. cbn [snd]. by rewrite cached_store_ne.
- unfold load_yaml_from_file. cbv zeta.
  assert (He : cached (ensure name_load_yaml c) name_load_yaml (KPath path)
               = Some data) by by rewrite cached_ensure.
  destruct (cached _ name_load_yaml (KPath p)) eqn:Hp; [done|].
  destruct (read_yaml p f); [done|]. cbn [snd].
  rewrite cached_store_ne; [done|]. intros [= ->]. congruence.
Qed.

(** X18: the document that [load_yaml_from_file] has read from a file is
  what every later call for that path returns, whatever has become of
  the file and whatever other calls were made, as long as [clear] was
  not among them. *)
Theorem load_yaml_memoizes
  (ospath : pystr → option (list pystr → fs → result pyval))
  (sha : pystr → fs → result pyval) (path : pystr) (f : fs) c
  (data : pyval) c1 (ops : list op) (f' : fs) :
load_yaml_from_file path f c = (inr data, c1) →
forallb (λ o, negb (is_clear o)) ops = true →
let c2 := run_ops ospath sha ops c1 in
load_yaml_from_file path f' c2 = (inr data, c2).
Proof.
intros Hload Hops c2. apply load_yaml_hit. subst c2.
apply load_yaml_stores in Hload. clear c f.
revert c1 Hload. induction ops as [|o ops IH]; intros c1 Hload; [done|].
cbn [forallb] in Hops. apply andb_prop in Hops as [Ho Hops].
unfold run_ops. cbn [foldl]. apply (IH Hops).
apply step_op_keeps_yaml; [|done]. by destruct (is_clear o).
Qed.

Lemma load_yaml_memoizes_witness :
let before : fs := {[ lit "/a.yaml" := new_file (VInt 7) 0 ]} in
let c1 := (load_yaml_from_file (lit "/a.yaml") before init).2 in
let c2 := run_ops posix_ospath (λ _ _, inr (VStr (lit "0a")))
            [ Method (lit "exists") [lit "/a.yaml"] ∅;
              Sha256sumOf (lit "/a.yaml") VNone ∅ ] c1 in
load_yaml_from_file (lit "/a.yaml") ∅ c2 = (inr (VInt 7), c2).
Proof.
intros before c1 c2.
apply (load_yaml_memoizes posix_ospath (λ _ _, inr (VStr (lit "0a")))
         (lit "/a.yaml") before init (VInt 7) c1).
- unfold c1. rewrite (surjective_pairing (load_yaml_from_file _ _ _)) at 1.
  apply (f_equal2 pair); [vm_compute|]; reflexivity.
- reflexivity.
Defined.

(** X19: a call of an [os.path] function through the cache touches the
  entry of its name and arguments only, and a call that raises an error
  caches nothing: it leaves the cache as it is, so that the same call on
  a later file system is made again. *)
Theorem method_touches_its_entry_only
  (ospath : pystr → option (list pystr → fs → result pyval))
  (name : pystr) (args : list pystr) (f : fs) c :
(∀ name' k', (name', k') ≠ (name, KArgs args) →
   cached (method ospath name args f c).2 name' k' = cached c name' k')
∧ (∀ x, (method ospath name args f c).1 = inl x →
     (method ospath name args f c).2 = c
     ∧ ∀ ospath' f', method ospath' name args f' c
                     = match ospath' name with
                       | None => (inl AttributeError, c)
                       | Some fn =>
                           match fn args f' with
                           | inl x' => (inl x', c)
                           | inr v =>
                               (inr v, store name (KArgs args) v
                                         (ensure name c))
                           end
                       end).
Proof.
split.
- intros name' k' Hne. unfold method.
  destruct (cached c name (KArgs args)) eqn:Hc; [done|].
  destruct (ospath name) as [fn|]; [|done].
  destruct (fn args f); [done|]. cbn [snd].
  rewrite cached_store_ne, cached_ensure; [done|]. congruence.
- intros x. unfold method.
  destruct (cached c name (KArgs args)) eqn:Hc; [done|].
  intros Hx. split.
  + destruct (ospath name) as [fn|]; [|done].
    by destruct (fn args f).
  + done.
Qed.

Lemma method_touches_its_entry_only_witness :
(method posix_ospath (lit "getsize") [lit "/x"] ∅ init).2 = init
∧ cached (method posix_ospath (lit "exists") [lit "/x"] ∅ init).2
    (lit "isdir") (KArgs [lit "/x"])
  = cached init (lit "isdir") (KArgs [lit "/x"]).
Proof.
split.
- apply (proj2 (method_touches_its_entry_only posix_ospath (lit "getsize")
                  [lit "/x"] ∅ init) (OSError FileNotFound)).
  reflexivity.
- apply (proj1 (method_touches_its_entry_only posix_ospath (lit "exists")
                  [lit "/x"] ∅ init)).
  discriminate.
Defined.
End FSCacheMore.

(** ** [RawUrlSource]: what a download has to be like *)

Section Downloads.
Variable urlparse_path : pyval → result pystr.

Lemma filter_nil_all {A} (P : A → Prop) `{∀ x, Decision (P x)} (l : list A) :
filter P l = [] → ∀ x, x ∈ l → ¬ P x.
Proof. intros Hnil x Hx HP. by apply (filter_nil_not_elem_of P l x). Qed.

Lemma filter_not_nil {A} (P : A → Prop) `{∀ x, Decision (P x)} (l : list A)
  (x : A) :
x ∈ l → P x → filter P l ≠ [].
Proof.
intros Hx HP Hnil. by apply (filter_nil_not_elem_of P l x).
Qed.

(** X20: a download that the loop of [runs] accepts is consistent: it has
  no key but the five known ones, it has a URL and a file name, its
  hashing algorithm is a known one or [None], a secure hash comes with a
  hashing algorithm, and when it is to be uncompressed the name in the
  URL ends on [.gz] or [.gzip] and the file name does not. *)
Theorem download_run_accepts_consistent (files : pystr) (downloads : pyval)
  (s s' : step) :
RawUrlSource.download_run urlparse_path files downloads s = (inr tt, s') →
∃ d url name path,
  downloads = VDict d
  ∧ (∀ k, k ∈ dict_keys d → k ∈ RawUrlSource.download_opts)
  ∧ dict_get (lit "url") d = Some url
  ∧ dict_get (lit "filename") d = Some (VStr name)
  ∧ urlparse_path url = inr path
  ∧ py_in (hashing_algorithm_of d) RawUrlSource.hash_algos = true
  ∧ (isinstance_str (secure_hash_of d) = true →
     truthy (hashing_algorithm_of d) = true)
  ∧ (truthy (uncompress_of d) = true →
     (splitext (basename path)).2 ∈ RawUrlSource.gz_endings
     ∧ (splitext (basename name)).2 ∉ RawUrlSource.gz_endings).
Proof.
unfold RawUrlSource.download_run.
destruct downloads as [| | | | | |d]; try done. cbv zeta.
fold (hashing_algorithm_of d) (secure_hash_of d) (uncompress_of d).
destruct (bool_decide (filter (λ k, k ∉ RawUrlSource.download_opts)
                         (dict_keys d) = [])) eqn:Hknown; [|done].
cbn [negb]. apply bool_decide_eq_true_1 in Hknown.
destruct (negb (bool_decide (filter _ RawUrlSource.mandatory_opts = [])));
  [done|].
match goal with
| |- context [RawUrlSource.write_back files ?d'] =>
    destruct (write_back_fields files d' s) as [o Hwb]
end.
rewrite (bind_inr _ _ _ _ _ Hwb), !download_defaults_get by done.
destruct (py_in (hashing_algorithm_of d) RawUrlSource.hash_algos) eqn:Halgo;
  [|done]. cbn [negb].
destruct (isinstance_str (secure_hash_of d)
          && negb (truthy (hashing_algorithm_of d))) eqn:Hsecure; [done|].
destruct (dict_get (lit "url") d) as [url|] eqn:Hurl; [|done].
destruct (dict_get (lit "filename") d) as [filename|] eqn:Hfile; [|done].
destruct (urlparse_path url) as [x|path] eqn:Hpath; [done|].
destruct (splitext (basename path)) as [root ext] eqn:Hext.
destruct (negb (bool_decide (ext ∈ RawUrlSource.gz_endings))
          && truthy (uncompress_of d)) eqn:Hgz; [done|].
destruct filename as [| | | |name| |]; try done.
destruct (splitext (basename name)) as [root' ext'] eqn:Hext'.
destruct (bool_decide (ext ∈ RawUrlSource.gz_endings)
          && truthy (uncompress_of d)
          && bool_decide (ext' ∈ RawUrlSource.gz_endings)) eqn:Hname;
  [done|].
intros _. exists d, url, name, path.
split; [done|]. split.
{ intros k Hk. destruct (decide (k ∈ RawUrlSource.download_opts)); [done|].
  by destruct (filter_nil_all _ _ Hknown k Hk). }
do 4 (split; [done|]). split.
- intros Hs. rewrite Hs in Hsecure. cbn [andb] in Hsecure.
  by apply negb_false_iff in Hsecure.
- intros Hu. rewrite Hu in Hgz, Hname. rewrite Hext, Hext'. cbn [snd].
  rewrite andb_true_r in Hgz, Hname. apply negb_false_iff in Hgz.
  rewrite Hgz in Hname. cbn [andb] in Hname.
  split; [by apply bool_decide_eq_true_1 in Hgz|].
  by apply bool_decide_eq_false_1 in Hname.
Qed.

(** X21: of the downloads whose option names are strings, one with a name
  that is not among the five known ones is refused with the error of
  unknown options, and one of known names without a file name or without
  a URL with the error of missing mandatory options; the step stays as
  it is. *)
Theorem download_run_checks_keys (files : pystr) (d : list (pystr * pyval))
  (s : step) :
(∀ k, k ∈ dict_keys d → k ∉ RawUrlSource.download_opts →
   RawUrlSource.download_run urlparse_path files (VDict d) s
   = (inl (StepError (UnknownDownloadOptions files)), s))
∧ ((∀ k, k ∈ dict_keys d → k ∈ RawUrlSource.download_opts) →
   ∀ k, k ∈ RawUrlSource.mandatory_opts → k ∉ dict_keys d →
     RawUrlSource.download_run urlparse_path files (VDict d) s
     = (inl (StepError (MissingMandatoryOptions files)), s)).
Proof.
split.
- intros k Hk Hunknown. unfold RawUrlSource.download_run. cbv zeta.
  rewrite bool_decide_eq_false_2; [done|].
  by apply (filter_not_nil _ _ k).
- intros Hknown k Hk Hmissing. unfold RawUrlSource.download_run. cbv zeta.
  rewrite bool_decide_eq_true_2.
  + cbn [negb]. rewrite bool_decide_eq_false_2; [done|].
    by apply (filter_not_nil _ _ k).
  + destruct (filter (λ k, k ∉ RawUrlSource.download_opts) (dict_keys d))
      as [|k' l] eqn:Hf; [done|].
    assert (Hin : k' ∈ filter (λ k, k ∉ RawUrlSource.download_opts)
                        (dict_keys d)) by (rewrite Hf; by left).
    apply list_elem_of_filter in Hin as [Hno Hin].
    by destruct (Hno (Hknown k' Hin)).
Qed.

(** X22: a hashing algorithm that is not among the known ones does not get
  the error message that is meant for it: the message joins the list of
  the algorithms, which ends with [None], so that the download ends with
  a [TypeError]. *)
Theorem unknown_hashing_algorithm_raises_type_error (files : pystr)
  (d : list (pystr * pyval)) (s : step) :
(∀ k, k ∈ dict_keys d → k ∈ RawUrlSource.download_opts) →
(∀ k, k ∈ RawUrlSource.mandatory_opts → k ∈ dict_keys d) →
py_in (hashing_algorithm_of d) RawUrlSource.hash_algos = false →
(RawUrlSource.download_run urlparse_path files (VDict d) s).1
= inl TypeError.
Proof.
intros Hknown Hmandatory Halgo. unfold RawUrlSource.download_run. cbv zeta.
fold (hashing_algorithm_of d).
rewrite bool_decide_eq_true_2.
- cbn [negb]. rewrite bool_decide_eq_true_2.
  + cbn [negb].
    match goal with
    | |- context [RawUrlSource.write_back files ?d'] =>
        destruct (write_back_fields files d' s) as [o Hwb]
    end.
    rewrite (bind_inr _ _ _ _ _ Hwb). by rewrite Halgo.
  + destruct (filter (λ k, k ∉ dict_keys d) RawUrlSource.mandatory_opts)
      as [|k' l] eqn:Hf; [done|].
    assert (Hin : k' ∈ filter (λ k, k ∉ dict_keys d)
                        RawUrlSource.mandatory_opts) by (rewrite Hf; by left).
    apply list_elem_of_filter in Hin as [Hno Hin].
    by destruct (Hno (Hmandatory k' Hin)).
- destruct (filter (λ k, k ∉ RawUrlSource.download_opts) (dict_keys d))
    as [|k' l] eqn:Hf; [done|].
  assert (Hin : k' ∈ filter (λ k, k ∉ RawUrlSource.download_opts)
                      (dict_keys d)) by (rewrite Hf; by left).
  apply list_elem_of_filter in Hin as [Hno Hin].
  by destruct (Hno (Hknown k' Hin)).
Qed.

Lemma download_tail_keeps_options (files name : pystr) :
keeps _options
  (do run <- declare_run files;
   RawUrlSource.add_output_file (Run.get_run_id run) (lit "raw") name [])%py.
Proof.
unfold declare_run, add_run, RawUrlSource.add_output_file.
repeat keeps_step.
Qed.

End Downloads.

Lemma download_run_accepts_consistent_witness :
  ∃ d url name path,
    VDict gzipped_download = VDict d
    ∧ (∀ k, k ∈ dict_keys d → k ∈ RawUrlSource.download_opts)
    ∧ dict_get (lit "url") d = Some url
    ∧ dict_get (lit "filename") d = Some (VStr name)
    ∧ simple_urlparse_path url = inr path
    ∧ py_in (hashing_algorithm_of d) RawUrlSource.hash_algos = true
    ∧ (isinstance_str (secure_hash_of d) = true →
       truthy (hashing_algorithm_of d) = true)
    ∧ (truthy (uncompress_of d) = true →
       (splitext (basename path)).2 ∈ RawUrlSource.gz_endings
       ∧ (splitext (basename name)).2 ∉ RawUrlSource.gz_endings).
Proof.
  apply (download_run_accepts_consistent simple_urlparse_path (lit "my run")
           (VDict gzipped_download) empty_source_step
           (RawUrlSource.download_run simple_urlparse_path (lit "my run")
              (VDict gzipped_download) empty_source_step).2).
  rewrite (surjective_pairing (RawUrlSource.download_run _ _ _ _)) at 1.
  apply (f_equal2 pair); [vm_compute|]; reflexivity.
Defined.

Lemma download_run_checks_keys_witness :
  RawUrlSource.download_run simple_urlparse_path (lit "my run")
    (VDict [ (lit "url", VStr (lit "http://host.org/a.fq"));
             (lit "path", VStr (lit "/tmp")) ]) empty_source_step
  = (inl (StepError (UnknownDownloadOptions (lit "my run"))),
     empty_source_step)
  ∧ RawUrlSource.download_run simple_urlparse_path (lit "my run")
      (VDict [ (lit "url", VStr (lit "http://host.org/a.fq")) ])
      empty_source_step
    = (inl (StepError (MissingMandatoryOptions (lit "my run"))),
       empty_source_step).
Proof.
  split.
  - apply (proj1 (download_run_checks_keys simple_urlparse_path (lit "my run")
                    _ empty_source_step) (lit "path")).
    + apply (bool_decide_unpack _). vm_compute. exact I.
    + apply (bool_decide_unpack _). vm_compute. exact I.
  - apply (proj2 (download_run_checks_keys simple_urlparse_path (lit "my run")
                    _ empty_source_step)) with (k := lit "filename").
    + apply Forall_forall. apply (bool_decide_unpack _). vm_compute. exact I.
    + apply (bool_decide_unpack _). vm_compute. exact I.
    + apply (bool_decide_unpack _). vm_compute. exact I.
Defined.

Lemma unknown_hashing_algorithm_raises_type_error_witness :
  (RawUrlSource.download_run simple_urlparse_path (lit "my run")
     (VDict whirlpool_download) empty_source_step).1
  = inl TypeError.
Proof.
  apply (unknown_hashing_algorithm_raises_type_error simple_urlparse_path
           (lit "my run") whirlpool_download empty_source_step).
  - apply Forall_forall. apply (bool_decide_unpack _). vm_compute. exact I.
  - apply Forall_forall. apply (bool_decide_unpack _). vm_compute. exact I.
  - reflexivity.
Defined.


(** ** [RawUrlSource.runs]: the runs it declares *)

Lemma dict_get_none_not_key {V} (k : pystr) (d : list (pystr * V)) :
  dict_get k d = None → k ∉ dict_keys d.
Proof.
  induction d as [|[k0 v0] d IH]; cbn [dict_get]; [intros _; apply not_elem_of_nil|].
  destruct (decide (k0 = k)) as [->|Hne]; [done|].
  intros H. cbn. apply not_elem_of_cons. split; [congruence|by apply IH].
Qed.

Lemma download_loop_declares (urlparse_path : pyval → result pystr)
    (fd : list (pystr * pyval)) (s s' : step) (runs0 : list (pystr * Run.t)) :
  for_each fd (λ x, RawUrlSource.download_run urlparse_path x.1 x.2) s
  = (inr tt, s') →
  _runs s = Some runs0 →
  ∃ runs',
    _runs s' = Some runs'
    ∧ dict_keys runs'
      = dict_keys runs0 ++ (re_sub_space (lit "_") <$> dict_keys fd)
    ∧ (∀ id, id ∈ (re_sub_space (lit "_") <$> dict_keys fd) →
         id ∉ dict_keys runs0)
    ∧ NoDup (re_sub_space (lit "_") <$> dict_keys fd).
Proof.
  revert s runs0. induction fd as [|[files downloads] fd IH];
    intros s runs0 H Hruns.
  { injection H as <-. exists runs0. split; [done|].
    split; [by rewrite app_nil_r|]. split; [|apply NoDup_nil_2].
    by intros ? ?%elem_of_nil. }
  apply for_each_cons_returns in H as (s1 & H1 & H). cbn [fst snd] in H1.
  apply download_run_declares in H1
    as (d & name & runs & _ & _ & Hruns' & Hnone & Hs1).
  assert (runs = runs0) by congruence. subst runs.
  destruct (IH _ _ H Hs1) as (runs' & Hfinal & Hkeys & Hfresh & Hnd).
  exists runs'. split; [done|].
  unfold dict_keys in *. rewrite fmap_app in Hkeys, Hfresh.
  cbn [fmap list_fmap fst] in *.
  set (id := re_sub_space (lit "_") files) in *.
  set (ids := list_fmap _ _ (re_sub_space (lit "_")) (list_fmap _ _ fst fd))
    in *.
  split; [by rewrite Hkeys, <- (assoc_L (++))|]. split.
  - intros id' [->|Hin]%elem_of_cons.
    + by apply dict_get_none_not_key.
    + intros Hold. apply (Hfresh id' Hin). apply elem_of_app. by left.
  - apply NoDup_cons. split; [|done].
    intros Hin. apply (Hfresh id Hin). apply elem_of_app. right. by left.
Qed.

(** X23: when [runs] returns, it has declared one run for each entry of
    [run-download-info], in the order of the entries and after the runs
    that were there; the run of an entry has the name of the entry with an
    underscore for each white-space character as its id, so these ids
    differ from each other and from the ids of the runs that were there. *)
Theorem runs_declares_one_run_per_entry
    (urlparse_path : pyval → result pystr) (s s' : step)
    (file_download : list (pystr * pyval)) (runs0 : list (pystr * Run.t)) :
  get_option (lit "run-download-info") s = inr (VDict file_download) →
  _runs s = Some runs0 →
  RawUrlSource.runs urlparse_path s = (inr tt, s') →
  ∃ runs',
    _runs s' = Some runs'
    ∧ dict_keys runs'
      = dict_keys runs0
        ++ (re_sub_space (lit "_") <$> dict_keys file_download)
    ∧ (∀ id, id ∈ (re_sub_space (lit "_") <$> dict_keys file_download) →
         id ∉ dict_keys runs0)
    ∧ NoDup (re_sub_space (lit "_") <$> dict_keys file_download).
Proof.
  intros Hopt Hruns H. unfold RawUrlSource.runs in H.
  rewrite bind_get, Hopt in H.
  by apply (download_loop_declares urlparse_path file_download s s' runs0).
Qed.

Lemma runs_declares_one_run_per_entry_witness :
  ∃ runs',
    _runs (RawUrlSource.runs simple_urlparse_path download_step).2
    = Some runs'
    ∧ dict_keys runs' = [] ++ [lit "my_run"].
Proof.
  destruct (runs_declares_one_run_per_entry simple_urlparse_path download_step
              (RawUrlSource.runs simple_urlparse_path download_step).2
              [ (lit "my run",
                 VDict [ (lit "filename", VStr (lit "reads.fastq"));
                         (lit "url",
                          VStr (lit "http://host.org/pub/lane1.fq.gz"));
                         (lit "uncompress", VBool true) ]) ] [])
    as (runs' & Hruns & Hkeys & _).
  - vm_compute. reflexivity.
  - vm_compute. reflexivity.
  - rewrite (surjective_pairing (RawUrlSource.runs _ _)) at 1.
    apply (f_equal2 pair); [vm_compute|]; reflexivity.
  - exists runs'. split; [exact Hruns|exact Hkeys].
Defined.

(** ** How a run ends *)

Lemma os_rmdir_errors p : os_errors_only (os_rmdir p).
Proof.
  intros f x. unfold os_rmdir. repeat case_match; intros [= <-]; eauto.
Qed.

(** The end of [run]: the annotation, the executing ping, the picture,
    the notification and the queued ping; the exception that was caught is
    raised again, unless reading the picture fails first. *)
Lemma finish_ends (e : env) (r : Run.t) (job_id : pyval)
    (temp_directory : pystr) (m : machine) :
  ∃ res m',
    finish e r job_id temp_directory m = (res, m')
    ∧ state m' = DEFAULT
    ∧ caught_exception m' = caught_exception m
    ∧ caught_signal m' = caught_signal m
    ∧ ((∃ a,
          res = match caught_exception m with
                | Some x => inl x
                | None => inr tt
                end
          ∧ notified m'
            = notified m ++ [match error_of m with
                             | Some _ => NotifyBad a
                             | None => NotifyOk a
                             end])
       ∨ (∃ y, res = inl y
               ∧ attachment_on e r (disk m') = inl y
               ∧ notified m' = notified m)).
Proof.
  unfold finish. rewrite bind_get. cbv beta zeta.
  unfold write_annotation_file at 1. unfold bind at 1. rewrite bind_modify.
  unfold ret at 1. cbv beta iota.
  match goal with
  | |- context [bind (remove_ping_file e ?p false) ?k ?m1] =>
      destruct (remove_ping_file_disk e p false m1) as (f2 & Hrm2);
      rewrite (bind_inr _ _ _ _ _ Hrm2)
  end.
  rewrite bind_modify. clear Hrm2.
  destruct (error_of m) as [t|] eqn:Herr.
  - unfold bind at 1. rewrite read_attachment_on.
    match goal with
    | |- context [attachment_on e r (disk ?m3)] =>
        destruct (attachment_on e r (disk m3)) as [y|a] eqn:Hatt
    end.
    + eexists. eexists. split; [reflexivity|].
      do 3 (split; [by destruct m|]). right. exists y.
      split; [done|]. split; [exact Hatt|]. by destruct m.
    + unfold notify at 1. rewrite bind_modify.
      match goal with
      | |- context [bind (remove_ping_file e ?p true) ?k ?m4] =>
          destruct (remove_ping_file_disk e p true m4) as (f5 & Hrm5);
          rewrite (bind_inr _ _ _ _ _ Hrm5)
      end.
      clear Hrm5 Herr Hatt. destruct m as [d st c rk cs nt mv kp tbm ce].
      machine_fields.
      destruct ce; eexists; eexists; (split; [reflexivity|]);
        (do 3 (split; [done|])); left; exists a; by split.
  - assert (Hnone : caught_exception m = None ∧ caught_signal m = None).
    { unfold error_of in Herr.
      by destruct (caught_signal m), (caught_exception m). }
    destruct Hnone as [Hexc Hsig].
    match goal with
    | |- context [bind (pass_os_error ?c) ?k ?m1] =>
        destruct (pass_os_error_disk_only c m1
                    (disk_only_os_call _ (os_rmdir_errors _))) as (f3 & H3);
        rewrite (bind_inr _ _ _ _ _ H3)
    end.
    match goal with
    | |- context [bind (pass_os_error ?c) ?k ?m1] =>
        destruct (pass_os_error_disk_only c m1
                    (disk_only_os_call _ (os_rmdir_errors _))) as (f4 & H4);
        rewrite (bind_inr _ _ _ _ _ H4)
    end.
    clear H3 H4.
    unfold bind at 1. rewrite read_attachment_on.
    match goal with
    | |- context [attachment_on e r (disk ?m3)] =>
        destruct (attachment_on e r (disk m3)) as [y|a] eqn:Hatt
    end.
    + eexists. eexists. split; [reflexivity|].
      do 3 (split; [by destruct m|]). right. exists y.
      split; [done|]. split; [exact Hatt|]. by destruct m.
    + unfold notify at 1. rewrite bind_modify.
      match goal with
      | |- context [remove_ping_file e ?p false ?m4] =>
          destruct (remove_ping_file_disk e p false m4) as (f5 & Hrm5);
          rewrite Hrm5
      end.
      clear Hrm5 Herr Hatt. destruct m as [d st c rk cs nt mv kp tbm ce].
      machine_fields. subst.
      eexists; eexists; (split; [reflexivity|]);
        (do 3 (split; [done|])); left; exists a; by split.
Qed.

Lemma quiet_try_catch (c : M machine unit) (h : exn → M machine unit) :
  keeps notified c → (∀ x, quiet (h x)) → quiet (try_catch c h).
Proof.
  intros Hc Hh m. unfold try_catch. specialize (Hc m).
  destruct (c m) as [[x|[]] m1]; cbn [snd] in Hc.
  - destruct (Hh x m1) as (m' & -> & Hn). exists m'. split; [done|].
    congruence.
  - by exists m1.
Qed.

Lemma quiet_catch_exception (x : exn) : quiet (catch_exception x).
Proof.
  intros m. unfold catch_exception, modify. eexists. split; [done|].
  by destruct m.
Qed.

Lemma check_output_keeps_notified temp out o :
  keeps notified (check_output temp out o).
Proof. unfold check_output. keeps_machine. Qed.

Lemma quiet_check_outputs (temp_directory : pystr) (r : Run.t) :
  quiet (check_outputs temp_directory r).
Proof.
  intros m. unfold check_outputs. rewrite bind_modify, bind_get.
  set (m1 := with_to_be_moved [] m).
  assert (Hn : notified m1 = notified m) by by destruct m.
  rewrite <- Hn. destruct (undisturbed m1).
  - apply quiet_try_catch; [|apply quiet_catch_exception].
    apply keeps_for_each. intros tf. apply keeps_for_each. intros o.
    apply check_output_keeps_notified.
  - by exists m1.
Qed.

Lemma quiet_publish : quiet publish.
Proof.
  intros m. unfold publish. rewrite bind_get. destruct (undisturbed m).
  - apply quiet_try_catch; [|apply quiet_catch_exception].
    unfold record_move. keeps_machine.
  - by exists m.
Qed.

Lemma quiet_execute_run (e : env) (r : Run.t) : quiet (execute_run e r).
Proof.
  intros m. destruct (execute e (disk m)) as [f|f x|f term] eqn:He.
  - rewrite (execute_run_executed e r m f He). eexists. split; [done|].
    by destruct m.
  - rewrite (execute_run_raised e r m f x He). eexists. split; [done|].
    by destruct m.
  - destruct (execute_run_signalled e r m f term He) as (f' & -> & _).
    eexists. split; [done|]. by destruct m.
Qed.

Lemma hash_loop_keeps_notified (e : env) (i : nat)
    (files : list (pystr * pystr)) :
  keeps notified (hash_loop e i files).
Proof.
  revert i. induction files as [|[path new_path] files IH]; intros i;
    cbn [hash_loop]; [apply keeps_ret|].
  repeat first
    [ apply IH
    | apply keeps_kp_set; intros ? []; reflexivity
    | keeps_step
    | intros []; reflexivity ].
Qed.

Lemma hash_outputs_notifies (e : env) (s : step) (m : machine) :
  ∃ m' mid,
    hash_outputs e s m = (inr tt, m')
    ∧ notified m' = notified m ++ mid
    ∧ ∀ n, n ∈ mid → ∃ k, n = NotifyHashing k.
Proof.
  unfold hash_outputs. rewrite bind_get.
  destruct (_ && _).
  - unfold notify at 1. rewrite bind_modify.
    match goal with
    | |- context [try_catch ?c ?h ?m1] =>
        destruct (quiet_try_catch c h) with (m := m1) as (m' & -> & Hn)
    end.
    + repeat first [ apply hash_loop_keeps_notified | keeps_step ].
    + intros x m1. unfold catch_exception. rewrite bind_modify.
      destruct x; unfold ret, modify; eexists; (split; [done|]);
        by destruct m1.
    + exists m', [NotifyHashing (length (to_be_moved m))].
      split; [done|]. split; [rewrite Hn; by destruct m|].
      intros n ->%list_elem_of_singleton. by eexists.
  - exists m, []. split; [done|]. split; [by rewrite app_nil_r|].
    by intros ? ?%elem_of_nil.
Qed.



(** ** The values that [set_options] accepts *)

Lemma set_option_accepts key value s s1 :
  set_option key value s = (inr tt, s1) →
  head key = Some ch_underscore
  ∨ ∃ info, dict_get key (_defined_options s) = Some info
            ∧ value_typed info value
            ∧ (choices info = VNone
               ∨ py_contains value (choices info) = inr true).
Proof.
  unfold set_option. destruct key as [|c key]; [done|]. msimpl.
  destruct (c =? ch_underscore)%N eqn:Hc.
  { apply N.eqb_eq in Hc as ->. by left. }
  unfold log. msimpl.
  destruct (dict_get (c :: key) (_defined_options s)) as [info|]; [|done].
  destruct (negb (is_none value)
            && negb (bool_decide (py_type value ∈ types info))) eqn:Ht;
    [done|].
  intros H. right. exists info. split; [done|]. split.
  - apply andb_false_iff in Ht as [Ht|Ht].
    + left. by destruct value.
    + right. apply negb_false_iff in Ht.
      by apply bool_decide_eq_true_1 in Ht.
  - destruct (choices info) eqn:Hch; [by left|..];
      right; by destruct (py_contains value _) as [|[]].
Qed.

(** X25: when [set_options] returns, every option of the configuration
    whose key does not begin with an underscore is a declared option, its
    value is [None] or of one of the declared types, and when the option
    was declared with choices the value is one of them. *)
Theorem set_options_checks_configured_values
    (options : list (pystr * pyval)) (s s' : step) (key : pystr)
    (value : pyval) :
  set_options options s = (inr tt, s') →
  (key, value) ∈ options →
  head key ≠ Some ch_underscore →
  ∃ info, dict_get key (_defined_options s) = Some info
          ∧ value_typed info value
          ∧ (choices info = VNone
             ∨ py_contains value (choices info) = inr true).
Proof.
  intros H Hin Hkey.
  apply set_options_returns in H as (s1 & _ & H1 & _).
  assert (Hdef0 : _defined_options (with_options [] s) = _defined_options s)
    by by destruct s.
  rewrite <- Hdef0. clear Hdef0.
  revert H1. generalize (with_options [] s). clear s.
  induction options as [|[k v] options IH]; intros s H.
  { by apply elem_of_nil in Hin. }
  apply for_each_cons_returns in H as (s0 & H0 & H). cbn [fst snd] in H0.
  apply elem_of_cons in Hin as [[= -> ->]|Hin].
  - by destruct (set_option_accepts _ _ _ _ H0).
  - pose proof (set_option_keeps_defined k v s) as Hk.
    rewrite H0 in Hk. cbn [snd] in Hk. rewrite <- Hk. by apply (IH Hin s0).
Qed.

Lemma set_options_checks_configured_values_witness :
  ∃ info, dict_get (lit "mode") (_defined_options choosing_step) = Some info
          ∧ value_typed info (VStr (lit "exact"))
          ∧ (choices info = VNone
             ∨ py_contains (VStr (lit "exact")) (choices info) = inr true).
Proof.
  apply (set_options_checks_configured_values
           [(lit "mode", VStr (lit "exact"))] choosing_step
           (set_options [(lit "mode", VStr (lit "exact"))] choosing_step).2).
  - rewrite (surjective_pairing (set_options _ _)) at 1.
    apply (f_equal2 pair); [vm_compute|]; reflexivity.
  - apply list_elem_of_here.
  - discriminate.
Defined.

(** ** The id under which a run is found *)

(** X26: a run is registered under its id with an underscore for each
    white-space character, and under this id only: when the id that was
    given to [declare_run] holds a white-space character and no run was
    registered under it, [get_run] finds the new run under the changed id
    and returns [None] for the id as it was given, and [run] for the id as
    it was given raises an [AttributeError] and changes nothing. *)
Theorem run_found_under_normalised_id_only (run_id : pystr) (s s1 : step)
    (new_run : Run.t) (e : env) (m : machine) :
  declare_run run_id s = (inr new_run, s1) →
  re_sub_space (lit "_") run_id ≠ run_id →
  get_run run_id s = inr None →
  get_run (re_sub_space (lit "_") run_id) s1 = inr (Some new_run)
  ∧ get_run run_id s1 = inr None
  ∧ run e s1 run_id m = (inl AttributeError, m).
Proof.
  intros Hdecl Hdiff Hold.
  apply declare_run_returns in Hdecl as (runs & Hruns & Hnone & Hrun & ->).
  assert (Hr : ∀ x, _runs (with_runs x s) = x) by (by destruct s).
  unfold get_run in *. rewrite Hruns in Hold. injection Hold as Hold.
  rewrite !Hr, !dict_get_app, Hnone, Hold. cbn [dict_get].
  rewrite decide_True by done. rewrite decide_False by done.
  split; [done|]. split; [done|].
  unfold run, preflight, get_run. rewrite Hr, dict_get_app, Hold.
  cbn [dict_get]. by rewrite decide_False by done.
Qed.

Lemma run_found_under_normalised_id_only_witness :
  let s1 := (declare_run (lit "lane 1") empty_source_step).2 in
  get_run (lit "lane 1") s1 = inr None
  ∧ run idle_env s1 (lit "lane 1") fresh_machine
    = (inl AttributeError, fresh_machine).
Proof.
  intros s1.
  destruct (run_found_under_normalised_id_only (lit "lane 1")
              empty_source_step s1
              (Run.init (lit "raw_url_sources")
                 (lit "/data/raw_url_sources") (lit "lane_1"))
              idle_env fresh_machine) as (_ & Hnone & Hrun).
  - unfold s1. rewrite (surjective_pairing (declare_run _ _)) at 1.
    apply (f_equal2 pair); [vm_compute|]; reflexivity.
  - discriminate.
  - reflexivity.
  - split; [exact Hnone|exact Hrun].
Defined.

(** ** The check of the output files, when they are all there *)

Lemma check_loop_returns (r : Run.t) (stamp : pystr) (f0 : fs)
    (files : list (option pystr)) (m : machine) :
  (∀ n, Some n ∈ files → ch_slash ∉ n → declared_output r n) →
  check_invariant r stamp f0 m →
  (∀ b, declared_output r b →
     path_exists f0 (path_join (Run.get_temp_output_directory stamp r) b)
     = true) →
  ∃ m',
    for_each files
      (check_output (Run.get_temp_output_directory stamp r)
         (Run.get_output_directory r)) m = (inr tt, m')
    ∧ check_invariant r stamp f0 m'.
Proof.
  intros Hdecl Hinv Hall. revert m Hinv.
  induction files as [|x files IH]; intros m Hinv.
  { by exists m. }
  assert (Hrest : ∀ n, Some n ∈ files → ch_slash ∉ n → declared_output r n).
  { intros n Hn. apply Hdecl. by right. }
  cbn [for_each].
  assert (Hx : ∃ m1, check_output (Run.get_temp_output_directory stamp r)
                       (Run.get_output_directory r) x m = (inr tt, m1)
                     ∧ check_invariant r stamp f0 m1).
  { destruct x as [n|]; [|by exists m].
    destruct (decide (ch_slash ∈ n)) as [Hslash|Hplain].
    - exists m. split; [|done]. unfold check_output.
      by rewrite (bool_decide_eq_true_2 _ Hslash).
    - assert (Hn : declared_output r n) by (apply Hdecl; [by left|done]).
      destruct (check_output_declared r stamp n f0 m Hn Hinv) as [Hpresent _].
      by apply Hpresent, Hall. }
  destruct Hx as (m1 & Hrun & Hinv1).
  rewrite (bind_inr _ _ _ _ _ Hrun). by apply IH.
Qed.



(** ** The job id of a run *)

Lemma makedirs_fuel_adds_dirs (fuel : nat) (now : Z) (exist_ok : bool)
    (p : pystr) (f f' : fs) :
  makedirs_fuel fuel now exist_ok p f = inr f' →
  ∀ q n, f' !! q = Some n → f !! q = Some n ∨ is_dir n = true.
Proof.
  revert exist_ok p f f'.
  assert (Hlast : ∀ exist_ok p f1 f',
            match os_mkdir now p f1 with
            | inl e => if exist_ok && path_isdir f1 p then inr f1 else inl e
            | inr f'' => inr f''
            end = inr f' →
            ∀ q n, f' !! q = Some n → f1 !! q = Some n ∨ is_dir n = true).
  { intros exist_ok p f1 f'.
    destruct (os_mkdir now p f1) as [x|f2] eqn:Hmk.
    - destruct (exist_ok && path_isdir f1 p); [|done].
      intros [= <-] q n Hq. by left.
    - intros [= <-] q n. apply os_mkdir_returns in Hmk as [Hnone ->].
      destruct (decide (p = q)) as [->|Hne].
      + rewrite lookup_insert_eq. intros [= <-]. by right.
      + rewrite lookup_insert_ne by done. by left. }
  induction fuel as [|fuel IH]; intros exist_ok p f f'; cbn [makedirs_fuel];
    cbv zeta.
  - apply Hlast.
  - match goal with
    | |- context [if ?c then _ else _] => destruct c
    end; [|apply Hlast].
    match goal with
    | |- context [makedirs_fuel fuel now true ?h f] =>
        destruct (makedirs_fuel fuel now true h f) as [x|f1] eqn:Hrec
    end.
    + destruct x as [| | | | | | | |[]|]; try done; apply Hlast.
    + intros H q n Hq.
      destruct (Hlast _ _ _ _ H q n Hq) as [Hq1|Hdir]; [|by right].
      by apply (IH _ _ _ _ Hrec).
Qed.

Lemma job_id_of_queued_ping_stable (f f' : fs) (q : pystr) :
  f ⊆ f' →
  (∀ p n, f' !! p = Some n → f !! p = Some n ∨ is_dir n = true) →
  job_id_of_queued_ping f' q = job_id_of_queued_ping f q.
Proof.
  intros Hsub Hnew. unfold job_id_of_queued_ping, read_yaml.
  destruct (f' !! q) as [n|] eqn:Hq'.
  - destruct (Hnew q n Hq') as [Hq|Hdir].
    + by rewrite Hq.
    + rewrite Hdir. destruct (f !! q) as [n0|] eqn:Hq; [|done].
      rewrite (lookup_weaken _ _ _ _ Hq Hsub) in Hq'. injection Hq' as <-.
      by rewrite Hdir.
  - destruct (f !! q) as [n0|] eqn:Hq; [|done].
    by rewrite (lookup_weaken _ _ _ _ Hq Hsub) in Hq'.
Qed.

Lemma read_job_id_returns (queued : pystr) (m m' : machine) (job : pyval) :
  read_job_id queued m = (inr job, m') →
  job = job_id_of_queued_ping (disk m) queued.
Proof.
  unfold read_job_id, job_id_of_queued_ping. rewrite bind_get.
  destruct (read_yaml queued (disk m)) as [x|v].
  - destruct x; try done. by intros [= <- _].
  - destruct v as [| | | | | |info]; try done.
    destruct (dict_get (lit "cluster job id") info); by intros [= <- _].
Qed.

(** X28: the job id of a run is what the queued ping of the run holds under
    [cluster job id] when [run] is called, and [None] when there is no
    such file or no such key; a queued ping that does not hold a mapping
    makes [run] raise a [TypeError], before the temporary directory is
    made. *)
Theorem run_reads_job_id_from_queued_ping (e : env) (s : step)
    (run_id : pystr) (r : Run.t) (m0 : machine) :
  (∀ job_id m1,
     preflight e s run_id m0 = (inr (r, job_id), m1) →
     job_id = job_id_of_queued_ping (disk m0) (Run.get_queued_ping_file r))
  ∧ (get_run run_id s = inr (Some r) →
     path_isdir (disk m0) (Run.get_output_directory r) = true →
     path_exists (disk m0) (Run.get_executing_ping_file r) = false →
     ∀ v, read_yaml (Run.get_queued_ping_file r) (disk m0) = inr v →
          (∀ info, v ≠ VDict info) →
          run e s run_id m0 = (inl TypeError, m0)).
Proof.
  split.
  - intros job_id m1 Hpre.
    destruct (preflight_returns _ _ _ _ _ _ _ Hpre) as (Hrun & _).
    unfold preflight in Hpre. rewrite Hrun in Hpre.
    apply bind_returns in Hpre as ([] & ma & Ha & H).
    rewrite bind_get in H. cbv beta in H.
    destruct (path_exists (disk ma) (Run.get_executing_ping_file r)); [done|].
    apply bind_returns in H as (job & mb & Hb & H).
    apply bind_returns in H as ([] & mc & Hc & H).
    rewrite bind_modify in H.
    apply bind_returns in H as ([] & md & Hd & H).
    unfold notify in H. rewrite !bind_modify in H.
    injection H as <- _.
    apply read_job_id_returns in Hb. rewrite Hb.
    rewrite bind_get in Ha. cbv beta in Ha.
    destruct (negb _).
    + apply os_call_inv in Ha as (f & Hmk & ->). rewrite disk_of_with_disk.
      apply job_id_of_queued_ping_stable.
      * by apply makedirs_fuel_returns in Hmk as [? _].
      * by apply (makedirs_fuel_adds_dirs _ _ _ _ _ _ Hmk).
    + by injection Ha as <-.
  - intros Hrun Hdir Hping v Hread Hv.
    unfold run, preflight. rewrite Hrun. msimpl. rewrite Hdir. cbn [negb].
    rewrite Hping. unfold read_job_id. msimpl. rewrite Hread.
    destruct v as [| | | | | |info]; try done. by destruct (Hv info).
Qed.

Lemma run_reads_job_id_from_queued_ping_witness :
  VInt 4711 = job_id_of_queued_ping (disk queued_machine)
                (Run.get_queued_ping_file announcing_run)
  ∧ run idle_env announcing_step (lit "a") empty_ping_machine
    = (inl TypeError, empty_ping_machine).
Proof.
  split.
  - apply (proj1 (run_reads_job_id_from_queued_ping idle_env announcing_step
                    (lit "a") announcing_run queued_machine) (VInt 4711)
             (preflight idle_env announcing_step (lit "a") queued_machine).2).
    transitivity
      ((preflight idle_env announcing_step (lit "a") queued_machine).1,
       (preflight idle_env announcing_step (lit "a") queued_machine).2).
    + apply surjective_pairing.
    + f_equal.
  - apply (proj2 (run_reads_job_id_from_queued_ping idle_env announcing_step
                    (lit "a") announcing_run empty_ping_machine)
             eq_refl eq_refl eq_refl VNone eq_refl).
    discriminate.
Defined.
